(** * fsm-toolkit: the hex-record codec of [fsm_converter.py]

    A shallow embedding of the record codec ([format_record],
    [parse_record]), the encoder ([fsm_to_hex]) and the decoder
    ([hex_to_fsm]), with the properties of the codec proved about them.
    Around the codec it embeds the JSON side ([json_to_fsm],
    [fsm_to_json]), the label text ([generate_labels_toml]), the hex text
    ([format_hex_output], [parse_hex_input]),
    the visualiser's copies of the decoder, its [detect_format],
    [escape_dot] and the edges of [fsm_to_dot] ([fsm_visualise.py]), and
    the elevator generator ([elevator_fsm.py]).

    Conventions of the embedding.
    - Python [int] is [Z]; there is no wrap-around anywhere in the source.
    - A symbolic name (state, input symbol, output symbol) is a [string];
      names are compared for equality, used as dictionary keys and
      written into the label text.  A literal of the source that is not
      ASCII is the string of its UTF-8 bytes.
    - The TOML reader is a library, not code of the toolkit: a label
      table is the value it returns ([labels_t]), and what it returns for
      the text of [generate_labels_toml] is stated as a condition on the
      strings ([labels_plain]).
    - A record text is a [string] read as a sequence of code points below
      256; [len], slicing, [str.replace] and [int(_, 16)] are modelled on
      that range.
    - A raised exception is the [Raise] branch of [res]. *)

From Stdlib Require Import ZArith Ascii String List Lia.
From stdpp Require Import gmap strings list fin_maps sorting pretty.

#[local] Set Warnings "-clear-no-such-hyp".

Local Open Scope string_scope.
Local Open Scope list_scope.
Local Open Scope Z_scope.

(** ** Exceptions *)

Inductive py_error : Type :=
  | ValueError
  | KeyError (k : string)
  | KeyErrorInt (k : Z)
  | IndexError.

Inductive res (A : Type) : Type :=
  | Ok (a : A)
  | Raise (e : py_error).
Arguments Ok {A} a.
Arguments Raise {A} e.

Definition bind {A B} (r : res A) (k : A → res B) : res B :=
  match r with
  | Ok a => k a
  | Raise e => Raise e
  end.

Notation "'let*' x := r 'in' k" := (bind r (λ x, k))
  (at level 10, x name, r at level 100, k at level 200, only parsing).

(** [[f(x) for x in l]] where [f] may raise: the first exception wins. *)
Fixpoint for_each {A B} (f : A → res B) (l : list A) : res (list B) :=
  match l with
  | [] => Ok []
  | x :: l' => let* y := f x in let* ys := for_each f l' in Ok (y :: ys)
  end.

(** [d[k]] on a dictionary with string keys. *)
Definition getitem {V} (d : gmap string V) (k : string) : res V :=
  match d !! k with
  | Some v => Ok v
  | None => Raise (KeyError k)
  end.

(** [d[k]] on a dictionary with integer keys. *)
Definition getitem_int {V} (d : gmap Z V) (k : Z) : res V :=
  match d !! k with
  | Some v => Ok v
  | None => Raise (KeyErrorInt k)
  end.

(** ** Constants *)

Definition TYPE_DFA_TRANSITION : Z := 0x0000.
Definition TYPE_MEALY_TRANSITION : Z := 0x0001.
Definition TYPE_STATE_DECL : Z := 0x0002.
Definition TYPE_NFA_MULTI : Z := 0x0003.
Definition EPSILON_INPUT : Z := 0xFFFF.

(** ** Integer formatting: the format spec [04X] *)

Definition hex_digit (d : Z) : ascii :=
  match d with
  | 0 => "0" | 1 => "1" | 2 => "2" | 3 => "3"
  | 4 => "4" | 5 => "5" | 6 => "6" | 7 => "7"
  | 8 => "8" | 9 => "9" | 10 => "A" | 11 => "B"
  | 12 => "C" | 13 => "D" | 14 => "E" | _ => "F"
  end%char.

(** Digits of a non-negative [n], most significant first, pushed in front
    of [acc]. *)
Fixpoint hex_digits (fuel : nat) (n : Z) (acc : string) : string :=
  match fuel with
  | O => acc
  | S k =>
      let acc' := String (hex_digit (n mod 16)) acc in
      if n <? 16 then acc' else hex_digits k (n / 16) acc'
  end.

(** [format(n, "X")] for [0 <= n]. *)
Definition format_X (n : Z) : string :=
  hex_digits (S (Z.to_nat (Z.log2 n))) n "".

Fixpoint zeros (k : nat) : string :=
  match k with
  | O => ""
  | S k' => String "0" (zeros k')
  end.

Definition zero_pad (width : nat) (s : string) : string :=
  zeros (width - String.length s) +:+ s.

(** [format(n, "04X")]: the sign counts in the width. *)
Definition format_04X (n : Z) : string :=
  if n <? 0 then String "-" (zero_pad 3 (format_X (- n)))
  else zero_pad 4 (format_X n).

Definition format_record (rec_type field1 field2 field3 field4 : Z) : string :=
  format_04X rec_type +:+ " " +:+ format_04X field1 +:+ ":" +:+ format_04X field2
    +:+ " " +:+ format_04X field3 +:+ ":" +:+ format_04X field4.

(** ** Integer parsing: [int(s, 16)] *)

(** The characters [int] skips around a literal: ASCII white space, and
    the two white-space code points between 128 and 255. *)
Definition is_py_space (c : ascii) : bool :=
  let n := N.of_nat (nat_of_ascii c) in
  ((9 <=? n) && (n <=? 13) || (n =? 32) || (n =? 133) || (n =? 160))%N.

Definition hex_value (c : ascii) : option Z :=
  let n := Z.of_nat (nat_of_ascii c) in
  if (48 <=? n) && (n <=? 57) then Some (n - 48)
  else if (65 <=? n) && (n <=? 70) then Some (n - 55)
  else if (97 <=? n) && (n <=? 102) then Some (n - 87)
  else None.

Fixpoint skip_spaces (s : string) : string :=
  match s with
  | String c s' => if is_py_space c then skip_spaces s' else s
  | EmptyString => s
  end.

(** The digit scan: digits, with single underscores between them.
    [prev_us] tells whether the previous character was an underscore.
    Returns the value and the rest
    of the text, or [None] on a doubled or trailing underscore. *)
Fixpoint scan_digits (s : string) (prev_us : bool) (acc : Z)
    : option (Z * string) :=
  match s with
  | String c s' =>
      if Ascii.eqb c "_" then
        if prev_us then None else scan_digits s' true acc
      else
        match hex_value c with
        | Some d => scan_digits s' false (16 * acc + d)
        | None => if prev_us then None else Some (acc, s)
        end
  | EmptyString => if prev_us then None else Some (acc, s)
  end.

(** An optional sign; the boolean tells whether it was a minus. *)
Definition strip_sign (s : string) : bool * string :=
  match s with
  | String c s' =>
      if Ascii.eqb c "+" then (false, s')
      else if Ascii.eqb c "-" then (true, s')
      else (false, s)
  | EmptyString => (false, s)
  end.

(** An optional [0x] or [0X], and one underscore after it. *)
Definition strip_prefix (s : string) : string :=
  match s with
  | String c (String x s') =>
      if Ascii.eqb c "0" && (Ascii.eqb x "x" || Ascii.eqb x "X") then
        match s' with
        | String u s'' => if Ascii.eqb u "_" then s'' else s'
        | EmptyString => s'
        end
      else s
  | _ => s
  end.

Definition starts_with_digit (s : string) : bool :=
  match s with
  | String c _ => bool_decide (is_Some (hex_value c))
  | EmptyString => false
  end.

(** [int(s, 16)]. *)
Definition py_int16 (s : string) : res Z :=
  let '(neg, s1) := strip_sign (skip_spaces s) in
  let s2 := strip_prefix s1 in
  if starts_with_digit s2 then
    match scan_digits s2 false 0 with
    | Some (v, rest) =>
        match skip_spaces rest with
        | EmptyString => Ok (if neg then - v else v)
        | _ => Raise ValueError
        end
    | None => Raise ValueError
    end
  else Raise ValueError.

(** ** Record parsing *)

(** [s.replace(c, "")] for a one-character [c]. *)
Fixpoint remove_char (c : ascii) (s : string) : string :=
  match s with
  | String a s' =>
      if Ascii.eqb a c then remove_char c s' else String a (remove_char c s')
  | EmptyString => EmptyString
  end.

Definition record_tuple : Type := Z * Z * Z * Z * Z.

Definition parse_record (record : string) : res record_tuple :=
  let clean := remove_char ":" (remove_char " " record) in
  if negb (Nat.eqb (String.length clean) 20) then Raise ValueError
  else
    let* rec_type := py_int16 (substring 0 4 clean) in
    let* field1 := py_int16 (substring 4 4 clean) in
    let* field2 := py_int16 (substring 8 4 clean) in
    let* field3 := py_int16 (substring 12 4 clean) in
    let* field4 := py_int16 (substring 16 4 clean) in
    Ok (rec_type, field1, field2, field3, field4).

(** ** The FSM model *)

(** The value under the key ["to"]: a single name or a list of names. *)
Inductive targets : Type :=
  | ToStr (s : string)
  | ToList (l : list string).

(** A transition dictionary.  The keys ["from"] and ["to"] are always
    present; [None] for ["input"] or ["output"] is an absent key. *)
Record transition : Type := mk_transition {
  t_from : string;
  t_input : option string;
  t_to : targets;
  t_output : option string
}.

Record FSM : Type := mk_FSM {
  fsm_type : string;
  name : string;
  description : string;
  states : list string;
  alphabet : list string;
  initial : option string;
  accepting : list string;
  transitions : list transition;
  state_outputs : gmap string string;
  output_alphabet : list string
}.

(** ** [json_to_fsm] *)

(** The parsed JSON object; [None] is an absent key, and for [j_initial]
    also a key holding [null], which [data.get("initial")] reads alike.
    An object in which another key holds [null] is not represented: there
    [dict.get] returns [None] instead of the default, and [json_to_fsm]
    raises an [AttributeError] or a [TypeError], or stores [None] in the
    model. *)
Record json_data : Type := mk_json_data {
  j_type : option string;
  j_name : option string;
  j_description : option string;
  j_states : option (list string);
  j_alphabet : option (list string);
  j_initial : option string;
  j_accepting : option (list string);
  j_transitions : option (list transition);
  j_state_outputs : option (gmap string string);
  j_output_alphabet : option (list string)
}.

Definition lower_char (c : ascii) : ascii :=
  let n := nat_of_ascii c in
  if (65 <=? n)%nat && (n <=? 90)%nat then ascii_of_nat (n + 32) else c.

(** [str.lower] on the ASCII letters. *)
Fixpoint lower (s : string) : string :=
  match s with
  | String c s' => String (lower_char c) (lower s')
  | EmptyString => EmptyString
  end.

Definition len {A} (l : list A) : Z := Z.of_nat (length l).

Definition json_to_fsm (data : json_data) : res FSM :=
  let fsm := {|
    fsm_type := lower (default "dfa" (j_type data));
    name := default "" (j_name data);
    description := default "" (j_description data);
    states := default [] (j_states data);
    alphabet := default [] (j_alphabet data);
    initial := j_initial data;
    accepting := default [] (j_accepting data);
    transitions := default [] (j_transitions data);
    state_outputs := default ∅ (j_state_outputs data);
    output_alphabet := default [] (j_output_alphabet data)
  |} in
  if 65535 <? len (states fsm) then Raise ValueError
  else if 65534 <? len (alphabet fsm) then Raise ValueError
  else if 65535 <? len (output_alphabet fsm) then Raise ValueError
  else Ok fsm.

(** ** The encoder: [fsm_to_hex] *)

Fixpoint enumerate_from {A} (i : Z) (l : list A) : list (Z * A) :=
  match l with
  | [] => []
  | x :: l' => (i, x) :: enumerate_from (i + 1) l'
  end.

Definition enumerate {A} (l : list A) : list (Z * A) := enumerate_from 0 l.

(** [{s: i for i, s in enumerate(l)}]: a repeated name keeps its last
    position. *)
Definition index_dict (l : list string) : gmap string Z :=
  foldl (λ d p, <[p.2 := p.1]> d) ∅ (enumerate l).

(** [{i: s for s, i in d.items()}]. *)
Definition reverse_dict (d : gmap string Z) : gmap Z string :=
  list_to_map ((λ p, (p.2, p.1)) <$> map_to_list d).

(** The value the loop stores in [state_flags[s]]; it depends on the name
    [s] only. *)
Definition state_flags (fsm : FSM) (s : string) : Z :=
  let flags := 0 in
  let flags := if bool_decide (Some s = initial fsm) then Z.lor flags 1 else flags in
  let flags := if bool_decide (s ∈ accepting fsm) then Z.lor flags 2 else flags in
  flags.

Definition moore_out (fsm : FSM) (output_idx : gmap string Z) (state : string) : Z :=
  match state_outputs fsm !! state with
  | Some state_out =>
      match output_idx !! state_out with
      | Some n => n + 1
      | None => 0
      end
  | None => 0
  end.

Definition state_decl_records (fsm : FSM) (state_idx output_idx : gmap string Z)
    : res (list string) :=
  if String.eqb (fsm_type fsm) "moore" then
    for_each (λ state,
      let* sid := getitem state_idx state in
      let flags := state_flags fsm state in
      let out := moore_out fsm output_idx state in
      Ok (format_record TYPE_STATE_DECL sid flags out 0)) (states fsm)
  else
    let* rs := for_each (λ state,
      let flags := state_flags fsm state in
      if negb (flags =? 0) then
        let* sid := getitem state_idx state in
        Ok [format_record TYPE_STATE_DECL sid flags 0 0]
      else Ok []) (states fsm) in
    Ok (concat rs).

Definition is_epsilon_name (inp_sym : string) : bool :=
  String.eqb inp_sym "epsilon" || String.eqb inp_sym "ε".

Definition target_list (to : targets) : list string :=
  match to with
  | ToStr s => [s]
  | ToList l => l
  end.

(** The input field of a transition: the epsilon sentinel when the key
    ["input"] is absent or holds an epsilon marker. *)
Definition encode_input (input_idx : gmap string Z) (inp_sym : option string) : res Z :=
  match inp_sym with
  | None => Ok EPSILON_INPUT
  | Some sym =>
      if is_epsilon_name sym then Ok EPSILON_INPUT else getitem input_idx sym
  end.

(** The body of the loop over [fsm.transitions]: the records appended for
    one transition. *)
Definition transition_records (fsm : FSM)
    (state_idx input_idx output_idx : gmap string Z) (t : transition)
    : res (list string) :=
  let* src := getitem state_idx (t_from t) in
  let* inp := encode_input input_idx (t_input t) in
  let targets := target_list (t_to t) in
  if String.eqb (fsm_type fsm) "mealy" then
    match targets with
    | [] => Raise IndexError
    | t0 :: _ =>
        let* tgt := getitem state_idx t0 in
        let out := default 0 (output_idx !! default "" (t_output t)) in
        Ok [format_record TYPE_MEALY_TRANSITION src inp tgt out]
    end
  else if len targets =? 1 then
    match targets with
    | [] => Raise IndexError
    | t0 :: _ =>
        let* tgt := getitem state_idx t0 in
        Ok [format_record TYPE_DFA_TRANSITION src inp tgt 0]
    end
  else
    for_each (λ p,
      let* tgt := getitem state_idx p.2 in
      let cont := if p.1 <? len targets - 1 then 1 else 0 in
      Ok (format_record TYPE_NFA_MULTI src inp tgt cont)) (enumerate targets).

Definition fsm_to_hex (fsm : FSM)
    : res (list string * gmap Z string * gmap Z string * gmap Z string) :=
  let state_idx := index_dict (states fsm) in
  let input_idx := index_dict (alphabet fsm) in
  let output_idx := index_dict (output_alphabet fsm) in
  let state_names := reverse_dict state_idx in
  let input_names := reverse_dict input_idx in
  let output_names := reverse_dict output_idx in
  let* decls := state_decl_records fsm state_idx output_idx in
  let* trs := for_each (transition_records fsm state_idx input_idx output_idx)
                (transitions fsm) in
  Ok (decls ++ concat trs, state_names, input_names, output_names).

(** ** Label tables *)

(** A key of a label section: text such as [0x0003] when the table comes
    from the TOML reader, an integer when it comes from the fallback
    reader. *)
Inductive label_key : Type :=
  | KeyStr (s : string)
  | KeyInt (i : Z).

(** The section [[fsm]]; [None] is an absent key. *)
Record fsm_meta_t : Type := mk_meta {
  meta_type : option string;
  meta_name : option string;
  meta_description : option string
}.

(** The [labels] dictionary; a section lists its entries in dictionary
    order, an absent section is the empty list. *)
Record labels_t : Type := mk_labels {
  l_fsm : fsm_meta_t;
  l_states : list (label_key * string);
  l_inputs : list (label_key * string);
  l_outputs : list (label_key * string)
}.

Definition no_meta : fsm_meta_t :=
  {| meta_type := None; meta_name := None; meta_description := None |}.

(** [sorted(X)] on a set of integers. *)
Definition sorted (X : gset Z) : list Z := merge_sort Z.le (elements X).




(** ** The decoder: [hex_to_fsm] *)

Definition label_index (k : label_key) : res Z :=
  match k with
  | KeyStr s => py_int16 s
  | KeyInt i => Ok i
  end.

(** The loop [for k, v in section.items(): table[idx] = v]. *)
Fixpoint load_labels (entries : list (label_key * string)) (table : gmap Z string)
    : res (gmap Z string) :=
  match entries with
  | [] => Ok table
  | (k, v) :: rest =>
      let* idx := label_index k in
      load_labels rest (<[idx := v]> table)
  end.

Record label_tables : Type := mk_tables {
  fsm_meta : fsm_meta_t;
  state_labels : gmap Z string;
  input_labels : gmap Z string;
  output_labels : gmap Z string
}.

Definition no_tables : label_tables :=
  {| fsm_meta := no_meta; state_labels := ∅; input_labels := ∅; output_labels := ∅ |}.

Definition load_tables (labels : option labels_t) : res label_tables :=
  match labels with
  | None => Ok no_tables
  | Some L =>
      let* sl := load_labels (l_states L) ∅ in
      let* il := load_labels (l_inputs L) ∅ in
      let* ol := load_labels (l_outputs L) ∅ in
      Ok {| fsm_meta := l_fsm L; state_labels := sl; input_labels := il;
            output_labels := ol |}
  end.

(** The value under ["to"] while transitions still carry ids. *)
Inductive id_targets : Type :=
  | IdOne (tgt : Z)
  | IdMany (l : list Z).

Record id_transition : Type := mk_id_transition {
  it_from : Z;
  it_input : option Z;
  it_to : id_targets;
  it_output : option Z
}.

(** The local variables of the decoding loop.  [id_state_outputs] is the
    dictionary [state_outputs] in insertion order and [id_transitions] the
    list [transitions]; both hold ids at this point. *)
Record decoder : Type := mk_decoder {
  state_ids : gset Z;
  input_ids : gset Z;
  output_ids : gset Z;
  has_mealy : bool;
  has_nfa_multi : bool;
  has_moore_outputs : bool;
  initial_state : option Z;
  accepting_states : gset Z;
  id_state_outputs : list (Z * Z);
  id_transitions : list id_transition;
  nfa_pending : option (Z * Z * list Z)
}.

Definition decoder_init : decoder :=
  {| state_ids := ∅; input_ids := ∅; output_ids := ∅;
     has_mealy := false; has_nfa_multi := false; has_moore_outputs := false;
     initial_state := None; accepting_states := ∅;
     id_state_outputs := []; id_transitions := []; nfa_pending := None |}.

(** [d[k] = v] on a dictionary kept in insertion order. *)
Fixpoint dict_set (k v : Z) (d : list (Z * Z)) : list (Z * Z) :=
  match d with
  | [] => [(k, v)]
  | (k', v') :: d' =>
      if k' =? k then (k, v) :: d' else (k', v') :: dict_set k v d'
  end.

(** [inp if inp != EPSILON_INPUT else None]. *)
Definition input_or_none (inp : Z) : option Z :=
  if inp =? EPSILON_INPUT then None else Some inp.

(** [if inp != EPSILON_INPUT: input_ids.add(inp)]. *)
Definition add_input (inp : Z) (ids : gset Z) : gset Z :=
  if inp =? EPSILON_INPUT then ids else ids ∪ {[inp]}.

(** The dictionary appended when a pending group is flushed. *)
Definition pending_transition (p : Z * Z * list Z) : id_transition :=
  {| it_from := p.1.1; it_input := input_or_none p.1.2;
     it_to := IdMany p.2; it_output := None |}.

Definition decode_state_decl (d : decoder) (state_id flags output_val : Z) : decoder :=
  {| state_ids := state_ids d ∪ {[state_id]};
     input_ids := input_ids d;
     output_ids :=
       if output_val =? 0 then output_ids d else output_ids d ∪ {[output_val - 1]};
     has_mealy := has_mealy d;
     has_nfa_multi := has_nfa_multi d;
     has_moore_outputs := if output_val =? 0 then has_moore_outputs d else true;
     initial_state :=
       if Z.land flags 1 =? 0 then initial_state d else Some state_id;
     accepting_states :=
       if Z.land flags 2 =? 0 then accepting_states d
       else accepting_states d ∪ {[state_id]};
     id_state_outputs :=
       if output_val =? 0 then id_state_outputs d
       else dict_set state_id (output_val - 1) (id_state_outputs d);
     id_transitions := id_transitions d;
     nfa_pending := nfa_pending d |}.

Definition decode_dfa_transition (d : decoder) (src inp tgt : Z) : decoder :=
  {| state_ids := state_ids d ∪ {[src]} ∪ {[tgt]};
     input_ids := add_input inp (input_ids d);
     output_ids := output_ids d;
     has_mealy := has_mealy d;
     has_nfa_multi := has_nfa_multi d;
     has_moore_outputs := has_moore_outputs d;
     initial_state := initial_state d;
     accepting_states := accepting_states d;
     id_state_outputs := id_state_outputs d;
     id_transitions := id_transitions d ++
       [{| it_from := src; it_input := input_or_none inp; it_to := IdOne tgt;
           it_output := None |}];
     nfa_pending := nfa_pending d |}.

Definition decode_mealy_transition (d : decoder) (src inp tgt out : Z) : decoder :=
  {| state_ids := state_ids d ∪ {[src]} ∪ {[tgt]};
     input_ids := add_input inp (input_ids d);
     output_ids := output_ids d ∪ {[out]};
     has_mealy := true;
     has_nfa_multi := has_nfa_multi d;
     has_moore_outputs := has_moore_outputs d;
     initial_state := initial_state d;
     accepting_states := accepting_states d;
     id_state_outputs := id_state_outputs d;
     id_transitions := id_transitions d ++
       [{| it_from := src; it_input := input_or_none inp; it_to := IdOne tgt;
           it_output := Some out |}];
     nfa_pending := nfa_pending d |}.

(** The two assignments to [nfa_pending] and the appends to [transitions]
    of the [TYPE_NFA_MULTI] branch.  The target list of a pending group is
    appended to in place, but a group is never touched again once its
    dictionary is in [transitions]: [nfa_pending] is rebound to a new
    tuple or to [None] in the same step. *)
Definition nfa_step (pending : option (Z * Z * list Z)) (src inp tgt cont : Z)
    : list id_transition * option (Z * Z * list Z) :=
  let '(flushed, group) :=
    match pending with
    | Some (psrc, pinp, ptargets) =>
        if negb (psrc =? src) || negb (pinp =? inp)
        then ([pending_transition (psrc, pinp, ptargets)], (src, inp, [tgt]))
        else ([], (psrc, pinp, ptargets ++ [tgt]))
    | None => ([], (src, inp, [tgt]))
    end in
  if cont =? 0 then (flushed ++ [pending_transition group], None)
  else (flushed, Some group).

Definition decode_nfa_multi (d : decoder) (src inp tgt cont : Z) : decoder :=
  let step := nfa_step (nfa_pending d) src inp tgt cont in
  {| state_ids := state_ids d ∪ {[src]} ∪ {[tgt]};
     input_ids := add_input inp (input_ids d);
     output_ids := output_ids d;
     has_mealy := has_mealy d;
     has_nfa_multi := true;
     has_moore_outputs := has_moore_outputs d;
     initial_state := initial_state d;
     accepting_states := accepting_states d;
     id_state_outputs := id_state_outputs d;
     id_transitions := id_transitions d ++ step.1;
     nfa_pending := step.2 |}.

(** The body of [for record in records] after [parse_record]. *)
Definition decode_record (d : decoder) (r : record_tuple) : decoder :=
  let '(rec_type, f1, f2, f3, f4) := r in
  if rec_type =? TYPE_STATE_DECL then decode_state_decl d f1 f2 f3
  else if rec_type =? TYPE_DFA_TRANSITION then decode_dfa_transition d f1 f2 f3
  else if rec_type =? TYPE_MEALY_TRANSITION then decode_mealy_transition d f1 f2 f3 f4
  else if rec_type =? TYPE_NFA_MULTI then decode_nfa_multi d f1 f2 f3 f4
  else d.

Fixpoint decode_records (records : list string) (d : decoder) : res decoder :=
  match records with
  | [] => Ok d
  | record :: rest =>
      let* r := parse_record record in
      decode_records rest (decode_record d r)
  end.

(** The transitions after the flush at the end of the stream. *)
Definition final_transitions (d : decoder) : list id_transition :=
  match nfa_pending d with
  | Some p => id_transitions d ++ [pending_transition p]
  | None => id_transitions d
  end.

Definition has_none_input (ts : list id_transition) : bool :=
  existsb (λ t, bool_decide (it_input t = None)) ts.

Definition infer_type (d : decoder) (ts : list id_transition) : string :=
  if has_mealy d then "mealy"
  else if has_moore_outputs d then "moore"
  else if has_nfa_multi d || has_none_input ts then "nfa"
  else "dfa".

(** [if fsm_meta.get("type"): fsm_type = fsm_meta["type"]]. *)
Definition override_type (meta : fsm_meta_t) (inferred : string) : string :=
  match meta_type meta with
  | Some ty => if String.eqb ty "" then inferred else ty
  | None => inferred
  end.

Definition symbol_name (prefix : string) (table : gmap Z string) (i : Z) : string :=
  default (prefix +:+ pretty i) (table !! i).

(** [{i: f(i) for i in ids}]. *)
Definition name_map (f : Z → string) (ids : gset Z) : gmap Z string :=
  set_to_map (λ i, (i, f i)) ids.

Definition name_targets (state_map : gmap Z string) (to : id_targets) : res targets :=
  match to with
  | IdMany l =>
      let* names := for_each (getitem_int state_map) l in Ok (ToList names)
  | IdOne x =>
      let* nm := getitem_int state_map x in Ok (ToStr nm)
  end.

(** The body of the loop building [named_transitions]. *)
Definition name_transition (state_map input_map output_map : gmap Z string)
    (t : id_transition) : res transition :=
  let* from := getitem_int state_map (it_from t) in
  let input :=
    match it_input t with
    | Some i => input_map !! i
    | None => None
    end in
  let* to := name_targets state_map (it_to t) in
  let* output :=
    match it_output t with
    | Some o => let* nm := getitem_int output_map o in Ok (Some nm)
    | None => Ok None
    end in
  Ok {| t_from := from; t_input := input; t_to := to; t_output := output |}.

(** [{state_map[k]: output_map[v] for k, v in state_outputs.items()}]. *)
Fixpoint name_state_outputs (state_map output_map : gmap Z string)
    (items : list (Z * Z)) (acc : gmap string string) : res (gmap string string) :=
  match items with
  | [] => Ok acc
  | (k, v) :: rest =>
      let* sk := getitem_int state_map k in
      let* ov := getitem_int output_map v in
      name_state_outputs state_map output_map rest (<[sk := ov]> acc)
  end.

(** Everything after the loop over the records.  The order of
    [accepting] is the iteration order of a Python set, which the model
    leaves to [elements]. *)
Definition build_fsm (tables : label_tables) (d : decoder) : res FSM :=
  let ts := final_transitions d in
  let ty := override_type (fsm_meta tables) (infer_type d ts) in
  let state_name := symbol_name "S" (state_labels tables) in
  let input_name := symbol_name "i" (input_labels tables) in
  let output_name := symbol_name "o" (output_labels tables) in
  let state_map := name_map state_name (state_ids d) in
  let input_map := name_map input_name (input_ids d) in
  let output_map := name_map output_name (output_ids d) in
  let* named_transitions :=
    for_each (name_transition state_map input_map output_map) ts in
  let* acc := for_each (getitem_int state_map) (elements (accepting_states d)) in
  let* outs :=
    if String.eqb ty "moore"
    then name_state_outputs state_map output_map (id_state_outputs d) ∅
    else Ok ∅ in
  Ok {| fsm_type := ty;
        name := default "" (meta_name (fsm_meta tables));
        description := default "" (meta_description (fsm_meta tables));
        states := state_name <$> sorted (state_ids d);
        alphabet := input_name <$> sorted (input_ids d);
        initial :=
          match initial_state d with
          | Some i => state_map !! i
          | None => None
          end;
        accepting := acc;
        transitions := named_transitions;
        state_outputs := outs;
        output_alphabet := output_name <$> sorted (output_ids d) |}.

Definition hex_to_fsm (records : list string) (labels : option labels_t) : res FSM :=
  let* tables := load_tables labels in
  let* d := decode_records records decoder_init in
  build_fsm tables d.

(** ** Definitions used in the statements and proofs *)

(** The four digits [format_04X] writes for a 16-bit value. *)
Definition hex4 (n : Z) : string :=
  String (hex_digit (n / 4096)) (String (hex_digit (n / 256 mod 16))
    (String (hex_digit (n / 16 mod 16)) (String (hex_digit (n mod 16)) ""))).

Definition val4 (d3 d2 d1 d0 : Z) : Z := 16 * (16 * (16 * (16 * 0 + d3) + d2) + d1) + d0.

(** What the codec needs to know of a character written by [hex_digit]. *)
Record hex_char (c : ascii) (d : Z) : Prop := mk_hex_char {
  hc_value : hex_value c = Some d;
  hc_space : is_py_space c = false;
  hc_blank : Ascii.eqb c " " = false;
  hc_colon : Ascii.eqb c ":" = false;
  hc_under : Ascii.eqb c "_" = false;
  hc_plus : Ascii.eqb c "+" = false;
  hc_minus : Ascii.eqb c "-" = false;
  hc_x : Ascii.eqb c "x" = false;
  hc_X : Ascii.eqb c "X" = false
}.

(** The range of a field of a record. *)
Definition in_range (n : Z) : Prop := 0 ≤ n < 65536.

Definition ids_of_targets (to : id_targets) : list Z :=
  match to with
  | IdOne x => [x]
  | IdMany l => l
  end.

(** Every id a transition mentions has been registered. *)
Record transition_ids_ok (d : decoder) (t : id_transition) : Prop := mk_tok {
  tok_from : it_from t ∈ state_ids d;
  tok_to : Forall (λ x, x ∈ state_ids d) (ids_of_targets (it_to t));
  tok_input : ∀ i, it_input t = Some i → i ∈ input_ids d;
  tok_output : ∀ o, it_output t = Some o → o ∈ output_ids d
}.

(** The invariant of the decoding loop: the id sets cover every id held
    by the other variables. *)
Record decoder_inv (d : decoder) : Prop := mk_inv {
  inv_transitions : Forall (transition_ids_ok d) (final_transitions d);
  inv_initial : ∀ i, initial_state d = Some i → i ∈ state_ids d;
  inv_accepting : accepting_states d ⊆ state_ids d;
  inv_outputs :
    Forall (λ p, p.1 ∈ state_ids d ∧ p.2 ∈ output_ids d) (id_state_outputs d)
}.

(** A transition with its ids replaced by names. *)
Definition named_transition (sn inn onn : Z → string) (t : id_transition) : transition :=
  {| t_from := sn (it_from t);
     t_input := inn <$> it_input t;
     t_to := match it_to t with
             | IdOne x => ToStr (sn x)
             | IdMany l => ToList (sn <$> l)
             end;
     t_output := onn <$> it_output t |}.

(** The model [build_fsm] returns when no lookup fails. *)
Definition decoded_fsm (tables : label_tables) (d : decoder) : FSM :=
  let ts := final_transitions d in
  let ty := override_type (fsm_meta tables) (infer_type d ts) in
  let sn := symbol_name "S" (state_labels tables) in
  let inn := symbol_name "i" (input_labels tables) in
  let onn := symbol_name "o" (output_labels tables) in
  {| fsm_type := ty;
     name := default "" (meta_name (fsm_meta tables));
     description := default "" (meta_description (fsm_meta tables));
     states := sn <$> sorted (state_ids d);
     alphabet := inn <$> sorted (input_ids d);
     initial := sn <$> initial_state d;
     accepting := sn <$> elements (accepting_states d);
     transitions := named_transition sn inn onn <$> ts;
     state_outputs :=
       if String.eqb ty "moore"
       then foldl (λ acc p, <[sn p.1 := onn p.2]> acc) ∅ (id_state_outputs d)
       else ∅;
     output_alphabet := onn <$> sorted (output_ids d) |}.

(** The well-formedness of a model: every name it refers to is in the
    table of its category. *)
Definition well_formed (m : FSM) : Prop :=
  (∀ s, initial m = Some s → s ∈ states m)
  ∧ Forall (λ s, s ∈ states m) (accepting m)
  ∧ Forall (λ t,
      t_from t ∈ states m
      ∧ Forall (λ s, s ∈ states m) (target_list (t_to t))
      ∧ (∀ i, t_input t = Some i → i ∈ alphabet m)
      ∧ (∀ o, t_output t = Some o → o ∈ output_alphabet m)) (transitions m)
  ∧ (∀ s o, state_outputs m !! s = Some o → o ∈ output_alphabet m).

Definition rec_type_of (r : record_tuple) : Z := r.1.1.1.1.
Definition field1_of (r : record_tuple) : Z := r.1.1.1.2.
Definition field2_of (r : record_tuple) : Z := r.1.1.2.
Definition field3_of (r : record_tuple) : Z := r.1.2.
Definition field4_of (r : record_tuple) : Z := r.2.

(** What a record stream shows, read off the records alone. *)
Definition saw_mealy (rs : list record_tuple) : bool :=
  existsb (λ r, rec_type_of r =? TYPE_MEALY_TRANSITION) rs.

Definition saw_state_output (rs : list record_tuple) : bool :=
  existsb (λ r, (rec_type_of r =? TYPE_STATE_DECL) && negb (field3_of r =? 0)) rs.

Definition saw_nfa_multi (rs : list record_tuple) : bool :=
  existsb (λ r, rec_type_of r =? TYPE_NFA_MULTI) rs.

Definition has_epsilon_transition (m : FSM) : bool :=
  existsb (λ t, bool_decide (t_input t = None)) (transitions m).

(** The kind by the priority order: mealy, moore, nfa, dfa. *)
Definition kind_by_priority (rs : list record_tuple) (m : FSM) : string :=
  if saw_mealy rs then "mealy"
  else if saw_state_output rs then "moore"
  else if saw_nfa_multi rs || has_epsilon_transition m then "nfa"
  else "dfa".

(** The type given by the section [[fsm]] of a label table, if any. *)
Definition label_type (labels : option labels_t) : option string :=
  match labels with
  | Some L =>
      match meta_type (l_fsm L) with
      | Some ty => if String.eqb ty "" then None else Some ty
      | None => None
      end
  | None => None
  end.

(** [d.get(k)] on a dictionary kept in insertion order. *)
Fixpoint dict_get (k : Z) (d : list (Z * Z)) : option Z :=
  match d with
  | [] => None
  | (k', v') :: d' => if k' =? k then Some v' else dict_get k d'
  end.

(** The targets of a transition the encoder looks up: the first one in a
    Mealy model, all of them otherwise. *)
Definition encoded_targets (fsm : FSM) (t : transition) : list string :=
  if String.eqb (fsm_type fsm) "mealy" then take 1 (target_list (t_to t))
  else target_list (t_to t).

(** The references of a transition the encoder resolves. *)
Definition transition_refs_defined (fsm : FSM) (t : transition) : Prop :=
  t_from t ∈ states fsm
  ∧ (∀ sym, t_input t = Some sym → is_epsilon_name sym = false → sym ∈ alphabet fsm)
  ∧ Forall (λ s, s ∈ states fsm) (encoded_targets fsm t)
  ∧ (fsm_type fsm = "mealy" → target_list (t_to t) ≠ []).

(** A model whose [initial], [accepting] and [state_outputs] name symbols
    that are in no table. *)
Definition dangling_data : json_data :=
  {| j_type := Some "Moore"; j_name := None; j_description := None;
     j_states := Some ["A"]; j_alphabet := Some ["x"];
     j_initial := Some "Z"; j_accepting := Some ["Y"];
     j_transitions := Some [mk_transition "A" (Some "x") (ToStr "A") (Some "W")];
     j_state_outputs := Some {["A" := "V"]};
     j_output_alphabet := None |}.

(** ** The encoder on record tuples *)

(** The ids the encoder assigns. *)
Definition state_id (fsm : FSM) (s : string) : Z :=
  default 0 (index_dict (states fsm) !! s).
Definition input_id (fsm : FSM) (x : string) : Z :=
  default 0 (index_dict (alphabet fsm) !! x).

Definition format_tuple (r : record_tuple) : string :=
  format_record (rec_type_of r) (field1_of r) (field2_of r) (field3_of r) (field4_of r).

Definition tuple_in_range (r : record_tuple) : Prop :=
  in_range (rec_type_of r) ∧ in_range (field1_of r) ∧ in_range (field2_of r)
  ∧ in_range (field3_of r) ∧ in_range (field4_of r).

Definition is_moore (fsm : FSM) : bool := String.eqb (fsm_type fsm) "moore".
Definition is_mealy (fsm : FSM) : bool := String.eqb (fsm_type fsm) "mealy".

(** The states that get a declaration record. *)
Definition declared_states (fsm : FSM) : list string :=
  if is_moore fsm then states fsm
  else filter (λ s, state_flags fsm s ≠ 0) (states fsm).

Definition decl_tuple (fsm : FSM) (s : string) : record_tuple :=
  (TYPE_STATE_DECL, state_id fsm s, state_flags fsm s,
   if is_moore fsm then moore_out fsm (index_dict (output_alphabet fsm)) s else 0, 0).

Definition input_field (fsm : FSM) (inp_sym : option string) : Z :=
  match inp_sym with
  | None => EPSILON_INPUT
  | Some x => if is_epsilon_name x then EPSILON_INPUT else input_id fsm x
  end.

Definition output_field (fsm : FSM) (t : transition) : Z :=
  default 0 (index_dict (output_alphabet fsm) !! default "" (t_output t)).

(** The records of a chain: one per target, continuation 1 except on the
    target at position [n - 1]. *)
Definition chain_tuples (fsm : FSM) (src inp n : Z) (targets : list (Z * string))
    : list record_tuple :=
  (λ p, (TYPE_NFA_MULTI, src, inp, state_id fsm p.2,
         if p.1 <? n - 1 then 1 else 0)) <$> targets.

Definition transition_tuples (fsm : FSM) (t : transition) : list record_tuple :=
  let src := state_id fsm (t_from t) in
  let inp := input_field fsm (t_input t) in
  let targets := target_list (t_to t) in
  if is_mealy fsm then
    match targets with
    | t0 :: _ => [(TYPE_MEALY_TRANSITION, src, inp, state_id fsm t0, output_field fsm t)]
    | [] => []
    end
  else if len targets =? 1 then
    match targets with
    | t0 :: _ => [(TYPE_DFA_TRANSITION, src, inp, state_id fsm t0, 0)]
    | [] => []
    end
  else chain_tuples fsm src inp (len targets) (enumerate targets).

Definition encoded_tuples (fsm : FSM) : list record_tuple :=
  (decl_tuple fsm <$> declared_states fsm)
  ++ concat (transition_tuples fsm <$> transitions fsm).


(** The cardinality limits [json_to_fsm] enforces. *)
Definition within_capacity (fsm : FSM) : Prop :=
  len (states fsm) ≤ 65535 ∧ len (alphabet fsm) ≤ 65534
  ∧ len (output_alphabet fsm) ≤ 65535.

Definition is_transition_type (ty : Z) : bool :=
  (ty =? TYPE_DFA_TRANSITION) || (ty =? TYPE_MEALY_TRANSITION) || (ty =? TYPE_NFA_MULTI).

(** The ids one record registers. *)
Definition state_fields (r : record_tuple) : gset Z :=
  if rec_type_of r =? TYPE_STATE_DECL then {[field1_of r]}
  else if is_transition_type (rec_type_of r) then {[field1_of r]} ∪ {[field3_of r]}
  else ∅.

Definition input_fields (r : record_tuple) : gset Z :=
  if is_transition_type (rec_type_of r) && negb (field2_of r =? EPSILON_INPUT)
  then {[field2_of r]} else ∅.

Definition output_fields (r : record_tuple) : gset Z :=
  if rec_type_of r =? TYPE_STATE_DECL then
    if field3_of r =? 0 then ∅ else {[field3_of r - 1]}
  else if rec_type_of r =? TYPE_MEALY_TRANSITION then {[field4_of r]}
  else ∅.



(** ** Valid models and the correspondence of the round trip *)

Definition valid_transition (fsm : FSM) (t : transition) : Prop :=
  t_from t ∈ states fsm
  ∧ (∀ x, t_input t = Some x → is_epsilon_name x = true ∨ x ∈ alphabet fsm)
  ∧ target_list (t_to t) ≠ []
  ∧ Forall (λ s, s ∈ states fsm) (target_list (t_to t))
  ∧ (if is_mealy fsm
     then (∃ t0, target_list (t_to t) = [t0])
          ∧ (∃ o, t_output t = Some o ∧ o ∈ output_alphabet fsm)
     else t_output t = None).

(** The invariants of the data model: a known kind, tables of unique
    names within the cardinality limits, every reference in its table, a
    target list that is not empty, outputs on the transitions of a Mealy
    model only and state outputs in a Moore model only. *)
Record valid_model (fsm : FSM) : Prop := mk_valid {
  valid_kind : fsm_type fsm ∈ ["dfa"; "nfa"; "moore"; "mealy"];
  valid_states : NoDup (states fsm);
  valid_alphabet : NoDup (alphabet fsm);
  valid_output_alphabet : NoDup (output_alphabet fsm);
  valid_capacity : within_capacity fsm;
  valid_initial : ∀ s, initial fsm = Some s → s ∈ states fsm;
  valid_accepting : Forall (λ s, s ∈ states fsm) (accepting fsm);
  valid_transitions : Forall (valid_transition fsm) (transitions fsm);
  valid_state_outputs :
    ∀ s o, state_outputs fsm !! s = Some o →
      is_moore fsm = true ∧ s ∈ states fsm ∧ o ∈ output_alphabet fsm
}.








(** ** Sample machines *)

(** An NFA with a three-target transition and an epsilon transition. *)
Definition chain_model : FSM :=
  {| fsm_type := "nfa"; name := "chain"; description := "";
     states := ["A"; "B"; "C"; "D"]; alphabet := ["x"];
     initial := Some "A"; accepting := ["D"];
     transitions :=
       [mk_transition "A" (Some "x") (ToList ["B"; "C"; "D"]) None;
        mk_transition "B" None (ToStr "C") None];
     state_outputs := ∅; output_alphabet := [] |}.

(** A Moore machine whose state ["A"] emits the output symbol of id 2. *)
Definition moore_model : FSM :=
  {| fsm_type := "moore"; name := ""; description := "";
     states := ["A"; "B"]; alphabet := ["x"];
     initial := Some "A"; accepting := [];
     transitions := [mk_transition "A" (Some "x") (ToStr "B") None];
     state_outputs := {["A" := "hi"]}; output_alphabet := ["lo"; "mid"; "hi"] |}.

(** A Mealy machine with a transition that lists two targets. *)
Definition mealy_model : FSM :=
  {| fsm_type := "mealy"; name := ""; description := "";
     states := ["A"; "B"; "C"]; alphabet := ["x"];
     initial := Some "A"; accepting := [];
     transitions := [mk_transition "A" (Some "x") (ToList ["B"; "C"]) (Some "o")];
     state_outputs := ∅; output_alphabet := ["o"] |}.

(** A model whose only transition leaves a state that is in no table. *)
Definition broken_model : FSM :=
  {| fsm_type := "dfa"; name := ""; description := "";
     states := ["A"]; alphabet := ["x"];
     initial := None; accepting := [];
     transitions := [mk_transition "Q" (Some "x") (ToStr "A") None];
     state_outputs := ∅; output_alphabet := [] |}.

(** A stream with a MEALY_TRANSITION record and a state declaration that
    carries an output. *)
Definition mixed_stream : list string :=
  ["0001 0000:0000 0001:0000"; "0002 0000:0001 0002:0000"].

(** A stream whose first chain is cut short by a record of another source
    and whose last record still announces a continuation. *)
Definition irregular_stream : list string :=
  ["0003 0000:0000 0001:0001"; "0003 0002:0000 0001:0001"].

(** ** Definitions for further properties of the codec *)

Definition is_hex_char (c : ascii) : Prop := is_Some (hex_value c).

Definition known_type (r : record_tuple) : bool :=
  (rec_type_of r =? TYPE_STATE_DECL) || is_transition_type (rec_type_of r).

(** The textual keys of a label table. *)
Definition text_keys (L : labels_t) : list string :=
  omap (λ p : label_key * string,
          match p.1 with KeyStr k => Some k | KeyInt _ => None end)
       (l_states L ++ l_inputs L ++ l_outputs L).

(** The number of records the encoder writes for one transition. *)
Definition records_per_transition (fsm : FSM) (t : transition) : nat :=
  if is_mealy fsm || (len (target_list (t_to t)) =? 1) then 1%nat
  else length (target_list (t_to t)).

(** ** [fsm_to_json] *)

(** The dictionary [fsm_to_json] builds.  The key ["initial"] is always
    written, with [None] for no initial state, which [json_data] does not
    tell from an absent key: [data.get("initial")] is [None] for both. *)
Definition fsm_to_json (fsm : FSM) : json_data :=
  {| j_type := Some (fsm_type fsm);
     j_name := if String.eqb (name fsm) "" then None else Some (name fsm);
     j_description :=
       if String.eqb (description fsm) "" then None else Some (description fsm);
     j_states := Some (states fsm);
     j_alphabet := Some (alphabet fsm);
     j_initial := initial fsm;
     j_accepting := Some (accepting fsm);
     j_transitions := Some (transitions fsm);
     j_state_outputs :=
       if String.eqb (fsm_type fsm) "moore" then Some (state_outputs fsm) else None;
     j_output_alphabet :=
       if String.eqb (fsm_type fsm) "moore" then Some (output_alphabet fsm)
       else if String.eqb (fsm_type fsm) "mealy" then Some (output_alphabet fsm)
       else None |}.

(** ** The visualiser's copies: [fsm_visualise.py] *)

Module Visualise.

(** [parse_record] of the visualiser: no check of the length. *)
Definition parse_record (record : string) : res record_tuple :=
  let clean := remove_char ":" (remove_char " " record) in
  let* rec_type := py_int16 (substring 0 4 clean) in
  let* field1 := py_int16 (substring 4 4 clean) in
  let* field2 := py_int16 (substring 8 4 clean) in
  let* field3 := py_int16 (substring 12 4 clean) in
  let* field4 := py_int16 (substring 16 4 clean) in
  Ok (rec_type, field1, field2, field3, field4).

Fixpoint decode_records (records : list string) (d : decoder) : res decoder :=
  match records with
  | [] => Ok d
  | record :: rest =>
      let* r := parse_record record in
      decode_records rest (decode_record d r)
  end.

(** [hex_to_fsm] of the visualiser: the text of the converter's, calling
    the visualiser's [parse_record]. *)
Definition hex_to_fsm (records : list string) (labels : option labels_t) : res FSM :=
  let* tables := load_tables labels in
  let* d := decode_records records decoder_init in
  build_fsm tables d.

End Visualise.

(** ** Hex text: [format_hex_output] and [parse_hex_input] *)

Definition newline : ascii := "010"%char.

(** [sep.join(l)]. *)
Fixpoint join (sep : string) (l : list string) : string :=
  match l with
  | [] => ""
  | x :: l' =>
      match l' with
      | [] => x
      | _ :: _ => x +:+ sep +:+ join sep l'
      end
  end.

(** [range(0, n, step)]: an error for a zero step, empty for a negative
    one, the multiples of [step] below [n] otherwise. *)
Definition range_step (n : nat) (step : Z) : res (list nat) :=
  if step =? 0 then Raise ValueError
  else if step <? 0 then Ok []
  else
    let w := Z.to_nat step in
    Ok ((λ k, k * w)%nat <$> seq 0 ((n + w - 1) / w)).

(** The slice [l[i:i+width]] for [i] within the list and a positive
    [width]. *)
Definition slice {A} (l : list A) (i width : nat) : list A :=
  take width (drop i l).

Definition format_hex_output (records : list string) (width : Z) : res string :=
  let* starts := range_step (length records) width in
  let lines := (λ i, join "   " (slice records i (Z.to_nat width))) <$> starts in
  Ok (join (String newline "") lines).

(** White space for [str.strip] and for [\s] in a pattern over [str]: the
    code points below 256 on which [str.isspace] holds. *)
Definition is_space (c : ascii) : bool :=
  let n := N.of_nat (nat_of_ascii c) in
  ((9 <=? n) && (n <=? 13) || (28 <=? n) && (n <=? 32) || (n =? 133) || (n =? 160))%N.

Fixpoint lstrip (s : string) : string :=
  match s with
  | String c s' => if is_space c then lstrip s' else s
  | EmptyString => EmptyString
  end.

Fixpoint rstrip (s : string) : string :=
  match s with
  | String c s' =>
      match rstrip s' with
      | EmptyString => if is_space c then EmptyString else String c EmptyString
      | r => String c r
      end
  | EmptyString => EmptyString
  end.

Definition strip (s : string) : string := rstrip (lstrip s).

Definition startswith (c : ascii) (s : string) : bool :=
  match s with
  | String a _ => Ascii.eqb a c
  | EmptyString => false
  end.

(** [text.split("\n")]. *)
Fixpoint split_lines (s : string) : list string :=
  match s with
  | EmptyString => [EmptyString]
  | String c s' =>
      if Ascii.eqb c newline then EmptyString :: split_lines s'
      else
        match split_lines s' with
        | line :: lines => String c line :: lines
        | [] => [String c EmptyString]
        end
  end.

Definition upper_char (c : ascii) : ascii :=
  let n := nat_of_ascii c in
  if (97 <=? n)%nat && (n <=? 122)%nat then ascii_of_nat (n - 32) else c.

(** [str.upper] on the ASCII letters; it is applied to hex digits only. *)
Fixpoint upper (s : string) : string :=
  match s with
  | String c s' => String (upper_char c) (upper s')
  | EmptyString => EmptyString
  end.

(** The class [[0-9A-Fa-f]]. *)
Definition hex_class (c : ascii) : bool :=
  match hex_value c with
  | Some _ => true
  | None => false
  end.

(** The group [([0-9A-Fa-f]{4})] at the start of [s]: the group and what
    follows it. *)
Definition hex_group (s : string) : option (string * string) :=
  match s with
  | String c3 (String c2 (String c1 (String c0 rest))) =>
      if hex_class c3 && hex_class c2 && hex_class c1 && hex_class c0
      then Some (String c3 (String c2 (String c1 (String c0 ""))), rest)
      else None
  | _ => None
  end.

Definition colon (s : string) : option string :=
  match s with
  | String c rest => if Ascii.eqb c ":" then Some rest else None
  | EmptyString => None
  end.

Definition groups : Type := string * string * string * string * string.

(** The pattern of [parse_hex_input] at the start of [s]: the five groups
    and what follows the match.  The greedy [\s*] takes all the white space
    there is: a shorter run would leave a white-space character where a hex
    digit has to follow. *)
Definition match_record (s : string) : option (groups * string) :=
  '(g0, s) ← hex_group s;
  '(g1, s) ← hex_group (lstrip s);
  s ← colon s;
  '(g2, s) ← hex_group s;
  '(g3, s) ← hex_group (lstrip s);
  s ← colon s;
  '(g4, s) ← hex_group s;
  Some ((g0, g1, g2, g3, g4), s).

(** [re.finditer]: the matches from left to right, each search starting
    where the last match ended, one character further where there is no
    match.  A match is at least 20 characters long, so a fuel above the
    length of the text is never used up. *)
Fixpoint finditer (fuel : nat) (s : string) : list groups :=
  match fuel with
  | O => []
  | S k =>
      match match_record s with
      | Some (g, rest) => g :: finditer k rest
      | None =>
          match s with
          | String _ s' => finditer k s'
          | EmptyString => []
          end
      end
  end.

Definition record_of (g : groups) : string :=
  let '(rec_type, f1, f2, f3, f4) := g in
  upper rec_type +:+ " " +:+ upper f1 +:+ ":" +:+ upper f2 +:+ " " +:+ upper f3
    +:+ ":" +:+ upper f4.

Definition parse_hex_input (text : string) : list string :=
  let lines :=
    List.filter (λ line, negb (startswith "#" (strip line))) (split_lines text) in
  let text := join (String newline "") lines in
  record_of <$> finditer (S (String.length text)) text.

(** The records found in a text, without the removal of comment lines. *)
Definition scan (s : string) : list string :=
  record_of <$> finditer (S (String.length s)) s.

Fixpoint string_all (p : ascii → bool) (s : string) : bool :=
  match s with
  | String c s' => p c && string_all p s'
  | EmptyString => true
  end.

Definition not_char (c a : ascii) : bool := negb (Ascii.eqb a c).

Definition is_comment (line : string) : bool := startswith "#" (strip line).

(** ** The elevator generator: [elevator_fsm.py] *)

Module Elevator.

Definition FLOORS : Z := 24.

Definition IDLE : Z := 0.
Definition UP : Z := 1.
Definition DOWN : Z := 2.

Definition CLOSED : Z := 0.
Definition OPEN : Z := 1.

Definition IN_TIMER : Z := 0.
Definition IN_DOOR : Z := 1.
Definition IN_GO_UP : Z := 2.
Definition IN_GO_DOWN : Z := 3.
Definition IN_EMERGENCY : Z := 4.

Definition OUT_NONE : Z := 0.
Definition OUT_DING : Z := 1.
Definition OUT_DOOR_OPEN : Z := 2.
Definition OUT_DOOR_CLOSE : Z := 3.
Definition OUT_MOTOR_UP : Z := 4.
Definition OUT_MOTOR_DOWN : Z := 5.
Definition OUT_ALARM : Z := 6.

Definition TYPE_MEALY : Z := 1.
Definition TYPE_STATE_DECL : Z := 2.

Definition state_index (floor direction door : Z) : Z :=
  (floor - 1) * 6 + direction * 2 + door.

(** [range(1, floors + 1)]. *)
Definition floor_range (floors : Z) : list Z := Z.of_nat <$> seq 1 (Z.to_nat floors).

(** The body of the loop of [generate_fsm] for one floor; [emit] is what is
    appended for a record, [format_record] in the source. *)
Definition floor_records {A} (emit : Z → Z → Z → Z → Z → A) (floors floor : Z) : list A :=
  let src := state_index floor IDLE CLOSED in
  let tgt := state_index floor IDLE OPEN in
  let closed :=
    [ emit TYPE_MEALY src IN_DOOR tgt OUT_DOOR_OPEN;
      (if floor <? floors
       then emit TYPE_MEALY src IN_GO_UP (state_index (floor + 1) IDLE CLOSED) OUT_MOTOR_UP
       else emit TYPE_MEALY src IN_GO_UP src OUT_NONE);
      (if 1 <? floor
       then emit TYPE_MEALY src IN_GO_DOWN (state_index (floor - 1) IDLE CLOSED)
              OUT_MOTOR_DOWN
       else emit TYPE_MEALY src IN_GO_DOWN src OUT_NONE);
      emit TYPE_MEALY src IN_TIMER src OUT_NONE;
      emit TYPE_MEALY src IN_EMERGENCY src OUT_ALARM ] in
  let src := state_index floor IDLE OPEN in
  let tgt := state_index floor IDLE CLOSED in
  closed ++
    [ emit TYPE_MEALY src IN_TIMER tgt OUT_DOOR_CLOSE;
      emit TYPE_MEALY src IN_DOOR tgt OUT_DOOR_CLOSE;
      emit TYPE_MEALY src IN_GO_UP src OUT_NONE;
      emit TYPE_MEALY src IN_GO_DOWN src OUT_NONE;
      emit TYPE_MEALY src IN_EMERGENCY tgt OUT_ALARM ].

(** [generate_fsm] for a building of [floors] floors. *)
Definition generate {A} (emit : Z → Z → Z → Z → Z → A) (floors : Z) : list A :=
  let initial := state_index 1 IDLE CLOSED in
  emit TYPE_STATE_DECL initial 1 0 0
    :: concat (floor_records emit floors <$> floor_range floors).

(** The elevator's [format_record] has the format string of the
    converter's. *)
Definition generate_fsm : list string := generate format_record FLOORS.

(** The fields of the records, before they are formatted. *)
Definition mk_tuple (t a b c d : Z) : record_tuple := (t, a, b, c, d).

(** The records of the transitions leaving [state] on [input]. *)
Definition leaving (state input : Z) (rs : list record_tuple) : list record_tuple :=
  List.filter (λ r, (rec_type_of r =? TYPE_MEALY) && (field1_of r =? state)
                    && (field2_of r =? input)) rs.

End Elevator.

(** ** Graphviz output: [escape_dot] and the edges of [fsm_to_dot] *)

Definition backslash : ascii := "092"%char.
Definition quote : ascii := "034"%char.

(** [s.replace(old, new)] for a pattern of one character. *)
Fixpoint replace_char (old : ascii) (new : string) (s : string) : string :=
  match s with
  | String c s' =>
      if Ascii.eqb c old then new +:+ replace_char old new s'
      else String c (replace_char old new s')
  | EmptyString => EmptyString
  end.

Definition escape_dot (s : string) : string :=
  replace_char ">" (String backslash ">")
    (replace_char "<" (String backslash "<")
       (replace_char quote (String backslash (String quote "")) s)).

(** The label of a transition without input, as the source file has it:
    the two characters U+00CE and U+00B5, in UTF-8 the bytes 195, 142, 194
    and 181.  It is not the epsilon marker U+03B5 of the converter (bytes
    206 and 181, see [is_epsilon_name]). *)
Definition EPSILON_LABEL : string :=
  String "195"%char (String "142"%char (String "194"%char (String "181"%char ""))).

(** The label of the edges of [t]; ["output" in t] is [t_output t] being
    there. *)
Definition edge_label (fsm : FSM) (t : transition) : string :=
  let label :=
    match t_input t with
    | None => EPSILON_LABEL
    | Some inp => inp
    end in
  if String.eqb (fsm_type fsm) "mealy" then
    match t_output t with
    | Some o => label +:+ "/" +:+ o
    | None => label
    end
  else label.

(** The dictionary [edge_labels], in the order of insertion. *)
Definition edge_dict : Type := list ((string * string) * list string).

(** [if key not in edge_labels: edge_labels[key] = []] and
    [edge_labels[key].append(label)]. *)
Fixpoint append_label (key : string * string) (label : string) (edges : edge_dict)
  : edge_dict :=
  match edges with
  | [] => [(key, [label])]
  | (k, labels) :: rest =>
      if decide (k = key) then (k, labels ++ [label]) :: rest
      else (k, labels) :: append_label key label rest
  end.

(** The loops of [fsm_to_dot] over the transitions and their targets. *)
Definition edge_labels (fsm : FSM) : edge_dict :=
  foldl (λ edges t,
           foldl (λ edges tgt, append_label (t_from t, tgt) (edge_label fsm t) edges)
                 edges (target_list (t_to t)))
        [] (transitions fsm).

(** One character of a label, escaped. *)
Definition escape_char (c : ascii) : string :=
  if Ascii.eqb c quote || Ascii.eqb c "<" || Ascii.eqb c ">"
  then String backslash (String c "")
  else String c "".

Fixpoint escape_each (s : string) : string :=
  match s with
  | String c s' => escape_char c +:+ escape_each s'
  | EmptyString => EmptyString
  end.

(** The links of a model: source, target and label, one for each target of
    each transition. *)
Definition links (fsm : FSM) : list ((string * string) * string) :=
  t ← transitions fsm;
  (λ tgt, ((t_from t, tgt), edge_label fsm t)) <$> target_list (t_to t).

Definition labels_between (key : string * string)
    (ls : list ((string * string) * string)) : list string :=
  snd <$> filter (λ l, l.1 = key) ls.

Fixpoint lookup_edge (key : string * string) (edges : edge_dict) : option (list string) :=
  match edges with
  | [] => None
  | (k, labels) :: rest => if decide (k = key) then Some labels else lookup_edge key rest
  end.

(** The state of the dictionary while the links are added. *)
Definition grouped (edges : edge_dict) (ls : list ((string * string) * string)) : Prop :=
  NoDup (fst <$> edges)
  ∧ ∀ key, lookup_edge key edges
           = match labels_between key ls with
             | [] => None
             | labels => Some labels
             end.

(** Every transition decoded so far has a target, and so has the pending
    group. *)
Definition has_targets (d : decoder) : Prop :=
  Forall (λ t, ids_of_targets (it_to t) ≠ []) (id_transitions d)
  ∧ ∀ p, nfa_pending d = Some p → p.2 ≠ [].

(** The states of the elevator, two for each floor, and the transition a
    Mealy record stands for under the default names. *)
Definition elevator_states (floors : Z) : list Z :=
  concat ((λ f, [Elevator.state_index f Elevator.IDLE Elevator.CLOSED;
                 Elevator.state_index f Elevator.IDLE Elevator.OPEN])
            <$> Elevator.floor_range floors).

Definition mealy_id_transition (r : record_tuple) : id_transition :=
  {| it_from := field1_of r; it_input := input_or_none (field2_of r);
     it_to := IdOne (field3_of r); it_output := Some (field4_of r) |}.

Definition mealy_transition (r : record_tuple) : transition :=
  {| t_from := symbol_name "S" ∅ (field1_of r);
     t_input := Some (symbol_name "i" ∅ (field2_of r));
     t_to := ToStr (symbol_name "S" ∅ (field3_of r));
     t_output := Some (symbol_name "o" ∅ (field4_of r)) |}.

(** ** The visualiser's [detect_format] *)

(** The pattern [[0-9A-Fa-f]{4}\s*[0-9A-Fa-f]{4}:[0-9A-Fa-f]{4}] at the start
    of [s]. *)
Definition match_head (s : string) : bool :=
  match ('(_, s) ← hex_group s;
         '(_, s) ← hex_group (lstrip s);
         s ← colon s;
         hex_group s) with
  | Some _ => true
  | None => false
  end.

(** [re.search]: is there a match at some position of [s]? *)
Fixpoint re_search (s : string) : bool :=
  match_head s ||
  match s with
  | String _ s' => re_search s'
  | EmptyString => false
  end.

(** [detect_format], given [path.suffix] and the text, if any. *)
Definition detect_format (suffix : string) (text : option string) : string :=
  if String.eqb suffix ".fsm" then "fsm"
  else if String.eqb suffix ".json" then "json"
  else if String.eqb suffix ".hex" then "hex"
  else
    match text with
    | None | Some EmptyString => "json"
    | Some text =>
        let text := strip text in
        if startswith "{" text || startswith "[" text then "json"
        else if re_search text then "hex"
        else "json"
    end.

(** A text whose last character is no white space. *)
Definition ends_solid (m : string) : Prop :=
  ∃ m' c, m = m' +:+ String c "" ∧ is_space c = false.

(** ** The label table as text: [generate_labels_toml] *)












(** No declaration of state [s] among [rs] carries an output. *)
Definition no_output_decl (s : Z) (rs : list record_tuple) : Prop :=
  Forall (λ r, rec_type_of r = TYPE_STATE_DECL → field1_of r = s → field3_of r = 0) rs.

(** * Properties of the record codec *)

Example format_record_ex :
  format_record 3 10 65535 255 1 = "0003 000A:FFFF 00FF:0001".
Proof. reflexivity. Qed.

Example format_04X_neg : format_04X (-1) = "-001".
Proof. reflexivity. Qed.

Example format_04X_wide : format_04X 65536 = "10000".
Proof. reflexivity. Qed.

Example parse_record_ex :
  parse_record "0000 0001:0002 0003:0004" = Ok (0, 1, 2, 3, 4).
Proof. reflexivity. Qed.

Example py_int16_ex :
  py_int16 "0x1F" = Ok 31 ∧ py_int16 "-001" = Ok (-1) ∧ py_int16 "1_2F" = Ok 303
  ∧ py_int16 "_123" = Raise ValueError ∧ py_int16 "1__2" = Raise ValueError
  ∧ py_int16 "123_" = Raise ValueError ∧ py_int16 "0x_1" = Ok 1
  ∧ py_int16 "0x__" = Raise ValueError ∧ py_int16 "0x" = Raise ValueError
  ∧ py_int16 "- 01" = Raise ValueError ∧ py_int16 "+-01" = Raise ValueError
  ∧ py_int16 "0_x1" = Raise ValueError ∧ py_int16 "-0x1" = Ok (-1)
  ∧ py_int16 "0x1_" = Raise ValueError ∧ py_int16 " 1 2" = Raise ValueError.
Proof. repeat split; reflexivity. Qed.

Lemma hex_digit_char d : 0 ≤ d < 16 → hex_char (hex_digit d) d.
Proof.
  intros Hd.
  assert (d = 0 ∨ d = 1 ∨ d = 2 ∨ d = 3 ∨ d = 4 ∨ d = 5 ∨ d = 6 ∨ d = 7 ∨
          d = 8 ∨ d = 9 ∨ d = 10 ∨ d = 11 ∨ d = 12 ∨ d = 13 ∨ d = 14 ∨ d = 15)
    as Hcases by lia.
  repeat (destruct Hcases as [-> | Hcases]; [by split |]).
  subst d. by split.
Qed.

Lemma hex_digits_small fuel n acc :
  0 ≤ n < 16 → hex_digits (S fuel) n acc = String (hex_digit n) acc.
Proof.
  intros Hn. simpl. rewrite Z.mod_small by lia.
  destruct (Z.ltb_spec n 16); [done | lia].
Qed.

Lemma hex_digits_step fuel n acc :
  16 ≤ n →
  hex_digits (S fuel) n acc = hex_digits fuel (n / 16) (String (hex_digit (n mod 16)) acc).
Proof.
  intros Hn. simpl. destruct (Z.ltb_spec n 16); [lia | done].
Qed.

Lemma log2_fuel n : 16 ≤ n → ∃ k, Z.to_nat (Z.log2 n) = S (S (S (S k))).
Proof.
  intros Hn.
  assert (4 ≤ Z.log2 n) as Hlog.
  { change 4 with (Z.log2 16). by apply Z.log2_le_mono. }
  exists (Z.to_nat (Z.log2 n) - 4)%nat. lia.
Qed.

Lemma format_04X_16bit n : 0 ≤ n < 65536 → format_04X n = hex4 n.
Proof.
  intros Hn. unfold format_04X, hex4.
  destruct (Z.ltb_spec n 0) as [|_]; [lia |].
  unfold format_X.
  destruct (Z_lt_le_dec n 16) as [C1 | C1].
  { rewrite hex_digits_small by lia.
    rewrite (Z.div_small n 4096), (Z.mod_small n 16) by lia.
    replace (n / 256) with 0 by (symmetry; apply Z.div_small; lia).
    replace (n / 16) with 0 by (symmetry; apply Z.div_small; lia).
    done. }
  destruct (log2_fuel n C1) as [k ->].
  rewrite hex_digits_step by lia.
  assert (n / 16 / 16 = n / 256) as E2 by (rewrite Z.div_div by lia; done).
  assert (n / 16 / 16 / 16 = n / 4096) as E3 by (rewrite !Z.div_div by lia; done).
  assert (0 ≤ n / 16 < 4096) as B1 by (split; [apply Z.div_pos | apply Z.div_lt_upper_bound]; lia).
  assert (0 ≤ n / 256 < 256) as B2 by (split; [apply Z.div_pos | apply Z.div_lt_upper_bound]; lia).
  assert (0 ≤ n / 4096 < 16) as B3 by (split; [apply Z.div_pos | apply Z.div_lt_upper_bound]; lia).
  destruct (Z_lt_le_dec (n / 16) 16) as [C2 | C2].
  { rewrite hex_digits_small by lia.
    rewrite (Z.mod_small (n / 16) 16) by lia.
    replace (n / 4096) with 0 by (symmetry; rewrite <- E3, E2; rewrite <- E2; rewrite (Z.div_small (n / 16) 16) by lia; done).
    replace (n / 256) with 0 by (rewrite <- E2; symmetry; apply Z.div_small; lia).
    done. }
  rewrite hex_digits_step by lia. rewrite E2.
  destruct (Z_lt_le_dec (n / 256) 16) as [C3 | C3].
  { rewrite hex_digits_small by lia.
    rewrite (Z.mod_small (n / 256) 16) by lia.
    replace (n / 4096) with 0 by (rewrite <- E3, E2; symmetry; apply Z.div_small; lia).
    done. }
  rewrite hex_digits_step by lia.
  rewrite <- E2 at 1. rewrite E3.
  rewrite hex_digits_small by lia. done.
Qed.

Lemma val4_digits n :
  0 ≤ n < 65536 → val4 (n / 4096) (n / 256 mod 16) (n / 16 mod 16) (n mod 16) = n.
Proof. intros Hn. unfold val4. Z.div_mod_to_equations. lia. Qed.

Lemma hex4_digit_bounds n :
  0 ≤ n < 65536 →
  0 ≤ n / 4096 < 16 ∧ 0 ≤ n / 256 mod 16 < 16 ∧ 0 ≤ n / 16 mod 16 < 16 ∧ 0 ≤ n mod 16 < 16.
Proof. intros Hn. Z.div_mod_to_equations. lia. Qed.

Lemma py_int16_digits c3 c2 c1 c0 d3 d2 d1 d0 :
  hex_char c3 d3 → hex_char c2 d2 → hex_char c1 d1 → hex_char c0 d0 →
  py_int16 (String c3 (String c2 (String c1 (String c0 "")))) = Ok (val4 d3 d2 d1 d0).
Proof.
  intros [] [] [] []. unfold py_int16. cbn [skip_spaces].
  rewrite hc_space0. cbn [strip_sign]. rewrite hc_plus0, hc_minus0.
  cbn [strip_prefix]. rewrite hc_x1, hc_X1, andb_false_r.
  cbn [starts_with_digit]. rewrite hc_value0.
  cbn [scan_digits]. rewrite hc_under0, hc_under1, hc_under2, hc_under3.
  rewrite hc_value0, hc_value1, hc_value2, hc_value3. done.
Qed.


Lemma py_int16_hex4 n : 0 ≤ n < 65536 → py_int16 (hex4 n) = Ok n.
Proof.
  intros Hn. destruct (hex4_digit_bounds n Hn) as (B3 & B2 & B1 & B0).
  unfold hex4.
  rewrite (py_int16_digits _ _ _ _ _ _ _ _ (hex_digit_char _ B3) (hex_digit_char _ B2)
             (hex_digit_char _ B1) (hex_digit_char _ B0)).
  by rewrite val4_digits.
Qed.


Lemma remove_char_app c s1 s2 :
  remove_char c (s1 +:+ s2) = remove_char c s1 +:+ remove_char c s2.
Proof.
  induction s1 as [| a s1 IH]; [done |].
  simpl. destruct (Ascii.eqb a c); [exact IH | by rewrite IH].
Qed.

Lemma remove_blank_hex4 n : 0 ≤ n < 65536 → remove_char " " (hex4 n) = hex4 n.
Proof.
  intros Hn. destruct (hex4_digit_bounds n Hn) as (B3 & B2 & B1 & B0).
  unfold hex4. cbn [remove_char].
  by rewrite (hc_blank _ _ (hex_digit_char _ B3)), (hc_blank _ _ (hex_digit_char _ B2)),
    (hc_blank _ _ (hex_digit_char _ B1)), (hc_blank _ _ (hex_digit_char _ B0)).
Qed.

Lemma remove_colon_hex4 n : 0 ≤ n < 65536 → remove_char ":" (hex4 n) = hex4 n.
Proof.
  intros Hn. destruct (hex4_digit_bounds n Hn) as (B3 & B2 & B1 & B0).
  unfold hex4. cbn [remove_char].
  by rewrite (hc_colon _ _ (hex_digit_char _ B3)), (hc_colon _ _ (hex_digit_char _ B2)),
    (hc_colon _ _ (hex_digit_char _ B1)), (hc_colon _ _ (hex_digit_char _ B0)).
Qed.

Lemma clean_format_record t a b c d :
  in_range t → in_range a → in_range b → in_range c → in_range d →
  remove_char ":" (remove_char " " (format_record t a b c d))
  = hex4 t +:+ hex4 a +:+ hex4 b +:+ hex4 c +:+ hex4 d.
Proof.
  intros Ht Ha Hb Hc Hd. unfold format_record.
  rewrite !format_04X_16bit by done.
  rewrite !remove_char_app, !remove_blank_hex4, !remove_colon_hex4 by done.
  done.
Qed.

Lemma parse_format_record t a b c d :
  in_range t → in_range a → in_range b → in_range c → in_range d →
  parse_record (format_record t a b c d) = Ok (t, a, b, c, d).
Proof.
  intros Ht Ha Hb Hc Hd. unfold parse_record.
  rewrite clean_format_record by done.
  change (String.length (hex4 t +:+ hex4 a +:+ hex4 b +:+ hex4 c +:+ hex4 d)) with 20%nat.
  change (substring 0 4 (hex4 t +:+ hex4 a +:+ hex4 b +:+ hex4 c +:+ hex4 d)) with (hex4 t).
  change (substring 4 4 (hex4 t +:+ hex4 a +:+ hex4 b +:+ hex4 c +:+ hex4 d)) with (hex4 a).
  change (substring 8 4 (hex4 t +:+ hex4 a +:+ hex4 b +:+ hex4 c +:+ hex4 d)) with (hex4 b).
  change (substring 12 4 (hex4 t +:+ hex4 a +:+ hex4 b +:+ hex4 c +:+ hex4 d)) with (hex4 c).
  change (substring 16 4 (hex4 t +:+ hex4 a +:+ hex4 b +:+ hex4 c +:+ hex4 d)) with (hex4 d).
  cbn [Nat.eqb negb].
  rewrite !py_int16_hex4 by done. done.
Qed.

(** ** The decoding loop on parsed records *)

Lemma decode_records_parsed records rs d :
  for_each parse_record records = Ok rs →
  decode_records records d = Ok (foldl decode_record d rs).
Proof.
  revert rs d. induction records as [| record records IH]; intros rs d Hrs.
  - by inversion Hrs.
  - cbn in Hrs |- *. destruct (parse_record record) as [r | e]; [| done].
    cbn in Hrs |- *.
    destruct (for_each parse_record records) as [rs' | e]; [| done].
    inversion Hrs; subst. cbn. by apply IH.
Qed.

Lemma decode_records_raise records e d :
  for_each parse_record records = Raise e → decode_records records d = Raise e.
Proof.
  revert d. induction records as [| record records IH]; intros d Hrs; [discriminate |].
  cbn in Hrs |- *. destruct (parse_record record) as [r | e']; cbn in Hrs |- *;
    [| by inversion Hrs].
  destruct (for_each parse_record records) as [rs' | e']; [done |].
  cbn in Hrs. inversion Hrs; subst. by apply IH.
Qed.

Lemma for_each_format rs :
  Forall (λ r : record_tuple,
    in_range r.1.1.1.1 ∧ in_range r.1.1.1.2 ∧ in_range r.1.1.2 ∧ in_range r.1.2
    ∧ in_range r.2) rs →
  for_each parse_record
    ((λ r : record_tuple, format_record r.1.1.1.1 r.1.1.1.2 r.1.1.2 r.1.2 r.2) <$> rs)
  = Ok rs.
Proof.
  induction 1 as [| [[[[t a] b] c] e] rs (Ht & Ha & Hb & Hc & He) _ IH]; [done |].
  cbn in *. rewrite parse_format_record by done. cbn. by rewrite IH.
Qed.

(** ** Name maps *)

Lemma lookup_name_map f (X : gset Z) i :
  name_map f X !! i = if decide (i ∈ X) then Some (f i) else None.
Proof.
  unfold name_map. destruct (decide (i ∈ X)) as [Hi | Hi].
  - apply lookup_set_to_map; [naive_solver | eauto].
  - apply eq_None_not_Some. intros [x Hx].
    apply lookup_set_to_map in Hx; [| naive_solver].
    destruct Hx as (y & Hy & Heq). by simplify_eq.
Qed.

Lemma getitem_name_map f (X : gset Z) i :
  i ∈ X → getitem_int (name_map f X) i = Ok (f i).
Proof.
  intros Hi. unfold getitem_int. rewrite lookup_name_map. by rewrite decide_True.
Qed.

Lemma for_each_getitem f (X : gset Z) l :
  Forall (λ x, x ∈ X) l → for_each (getitem_int (name_map f X)) l = Ok (f <$> l).
Proof.
  induction 1 as [| x l Hx _ IH]; [done |].
  cbn. rewrite getitem_name_map by done. cbn. by rewrite IH.
Qed.

Lemma name_transition_ok sn inn onn d t :
  transition_ids_ok d t →
  name_transition (name_map sn (state_ids d)) (name_map inn (input_ids d))
    (name_map onn (output_ids d)) t
  = Ok (named_transition sn inn onn t).
Proof.
  intros [Hfrom Hto Hin Hout]. unfold name_transition, named_transition.
  rewrite getitem_name_map by done. cbn.
  assert (name_targets (name_map sn (state_ids d)) (it_to t)
          = Ok (match it_to t with
                | IdOne x => ToStr (sn x)
                | IdMany l => ToList (sn <$> l)
                end)) as ->.
  { destruct (it_to t) as [x | l]; cbn in *.
    - inversion Hto; subst. by rewrite getitem_name_map.
    - by rewrite for_each_getitem. }
  cbn. destruct (it_output t) as [o |]; cbn.
  - rewrite getitem_name_map by auto. cbn. f_equal. f_equal.
    destruct (it_input t) as [i |]; cbn; [| done].
    rewrite lookup_name_map. by rewrite decide_True by auto.
  - f_equal. f_equal.
    destruct (it_input t) as [i |]; cbn; [| done].
    rewrite lookup_name_map. by rewrite decide_True by auto.
Qed.

Lemma for_each_name_transition sn inn onn d ts :
  Forall (transition_ids_ok d) ts →
  for_each (name_transition (name_map sn (state_ids d)) (name_map inn (input_ids d))
              (name_map onn (output_ids d))) ts
  = Ok (named_transition sn inn onn <$> ts).
Proof.
  induction 1 as [| t ts Ht _ IH]; [done |].
  cbn. rewrite name_transition_ok by done. cbn. by rewrite IH.
Qed.

Lemma name_state_outputs_ok sn onn (X Y : gset Z) items acc :
  Forall (λ p, p.1 ∈ X ∧ p.2 ∈ Y) items →
  name_state_outputs (name_map sn X) (name_map onn Y) items acc
  = Ok (foldl (λ acc p, <[sn p.1 := onn p.2]> acc) acc items).
Proof.
  intros Hitems. revert acc.
  induction Hitems as [| [k v] items [Hk Hv] _ IH]; intros acc; [done |].
  cbn in *. rewrite !getitem_name_map by done. cbn. by rewrite IH.
Qed.

(** Under the invariant no lookup of [build_fsm] fails. *)
Lemma build_fsm_ok tables d :
  decoder_inv d → build_fsm tables d = Ok (decoded_fsm tables d).
Proof.
  intros [Hts Hini Hacc Houts]. unfold build_fsm, decoded_fsm.
  rewrite for_each_name_transition by done. cbn.
  rewrite for_each_getitem; last first.
  { apply Forall_forall. intros x Hx. apply Hacc. by apply elem_of_elements. }
  cbn.
  assert ((if String.eqb (override_type (fsm_meta tables)
                            (infer_type d (final_transitions d))) "moore"
           then name_state_outputs
                  (name_map (symbol_name "S" (state_labels tables)) (state_ids d))
                  (name_map (symbol_name "o" (output_labels tables)) (output_ids d))
                  (id_state_outputs d) ∅
           else Ok ∅)
          = Ok (if String.eqb (override_type (fsm_meta tables)
                                 (infer_type d (final_transitions d))) "moore"
                then foldl (λ acc p,
                       <[symbol_name "S" (state_labels tables) p.1 :=
                           symbol_name "o" (output_labels tables) p.2]> acc) ∅
                       (id_state_outputs d)
                else ∅)) as ->.
  { destruct (String.eqb _ "moore"); [| done]. by apply name_state_outputs_ok. }
  cbn. f_equal. f_equal.
  destruct (initial_state d) as [i |]; cbn; [| done].
  rewrite lookup_name_map. by rewrite decide_True by auto.
Qed.

(** ** The invariant of the decoding loop *)

Lemma transition_ids_ok_mono d d' t :
  state_ids d ⊆ state_ids d' → input_ids d ⊆ input_ids d' →
  output_ids d ⊆ output_ids d' →
  transition_ids_ok d t → transition_ids_ok d' t.
Proof.
  intros Hs Hi Ho [Hfrom Hto Hin Hout]. split; [set_solver | | set_solver ..].
  eapply Forall_impl; [done |]. set_solver.
Qed.

Lemma elem_of_add_input i inp X :
  i ∈ add_input inp X ↔ i ∈ X ∨ (i = inp ∧ inp ≠ EPSILON_INPUT).
Proof.
  unfold add_input. destruct (Z.eqb_spec inp EPSILON_INPUT) as [-> | Hne].
  - split; [auto | intros [? | [_ ?]]; done].
  - rewrite elem_of_union, elem_of_singleton. split.
    + intros [? | ->]; auto.
    + intros [? | [-> _]]; auto.
Qed.

Lemma input_or_none_Some inp i :
  input_or_none inp = Some i → i = inp ∧ inp ≠ EPSILON_INPUT.
Proof.
  unfold input_or_none. destruct (Z.eqb_spec inp EPSILON_INPUT); [done |].
  by intros [= ->].
Qed.

Lemma add_input_subseteq inp X : X ⊆ add_input inp X.
Proof. intros i Hi. apply elem_of_add_input. auto. Qed.

Lemma Forall_dict_set (P : Z * Z → Prop) k v d :
  P (k, v) → Forall P d → Forall P (dict_set k v d).
Proof.
  intros Hkv. induction 1 as [| [k' v'] d Hp Hd IH]; cbn; [by repeat constructor |].
  destruct (k' =? k); by constructor.
Qed.

(** The transitions after a [TYPE_NFA_MULTI] record, whatever its
    continuation field. *)
Lemma final_transitions_nfa_multi d src inp tgt cont :
  final_transitions (decode_nfa_multi d src inp tgt cont)
  = match nfa_pending d with
    | Some (psrc, pinp, ptargets) =>
        if negb (psrc =? src) || negb (pinp =? inp)
        then final_transitions d ++ [pending_transition (src, inp, [tgt])]
        else id_transitions d ++ [pending_transition (psrc, pinp, ptargets ++ [tgt])]
    | None => final_transitions d ++ [pending_transition (src, inp, [tgt])]
    end.
Proof.
  unfold final_transitions, decode_nfa_multi, nfa_step. cbn.
  destruct (nfa_pending d) as [[[psrc pinp] ptargets] |]; cbn.
  - destruct (negb (psrc =? src) || negb (pinp =? inp)); destruct (cont =? 0); cbn;
      by rewrite <- ?app_assoc.
  - destruct (cont =? 0); cbn; by rewrite ?app_nil_r.
Qed.

Lemma pending_transition_ok d src inp targets :
  src ∈ state_ids d → Forall (λ x, x ∈ state_ids d) targets →
  (inp ≠ EPSILON_INPUT → inp ∈ input_ids d) →
  transition_ids_ok d (pending_transition (src, inp, targets)).
Proof.
  intros Hsrc Htg Hinp. split; cbn; [done | done | | done].
  intros i [-> Hne]%input_or_none_Some. auto.
Qed.

Lemma pending_transition_inv d src inp targets :
  transition_ids_ok d (pending_transition (src, inp, targets)) →
  src ∈ state_ids d ∧ Forall (λ x, x ∈ state_ids d) targets
  ∧ (inp ≠ EPSILON_INPUT → inp ∈ input_ids d).
Proof.
  intros [Hfrom Hto Hin _]. cbn in *. split_and!; [done | done |].
  intros Hne. apply Hin. unfold input_or_none.
  by destruct (Z.eqb_spec inp EPSILON_INPUT).
Qed.

Lemma decoder_inv_init : decoder_inv decoder_init.
Proof. split; cbn; [by constructor | done | done | by constructor]. Qed.

Lemma decoder_inv_state_decl d state_id flags output_val :
  decoder_inv d → decoder_inv (decode_state_decl d state_id flags output_val).
Proof.
  intros [Hts Hini Hacc Houts]. split.
  - eapply Forall_impl; [exact Hts |]. intros t.
    apply transition_ids_ok_mono; cbn; [set_solver | done |].
    destruct (output_val =? 0); set_solver.
  - cbn. intros i. destruct (Z.land flags 1 =? 0); [set_solver |].
    intros [= ->]. set_solver.
  - cbn. destruct (Z.land flags 2 =? 0); set_solver.
  - cbn. destruct (output_val =? 0).
    + eapply Forall_impl; [exact Houts |]. set_solver.
    + apply Forall_dict_set; [cbn; set_solver |].
      eapply Forall_impl; [exact Houts |]. set_solver.
Qed.

Lemma decoder_inv_dfa_transition d src inp tgt :
  decoder_inv d → decoder_inv (decode_dfa_transition d src inp tgt).
Proof.
  intros [Hts Hini Hacc Houts].
  set (d' := decode_dfa_transition d src inp tgt).
  assert (state_ids d ⊆ state_ids d') as Hs by (cbn; set_solver).
  assert (input_ids d ⊆ input_ids d') as Hi by apply add_input_subseteq.
  assert (transition_ids_ok d'
            {| it_from := src; it_input := input_or_none inp; it_to := IdOne tgt;
               it_output := None |}) as Hnew.
  { split; cbn; [set_solver | repeat constructor; set_solver | | done].
    intros i Hin%input_or_none_Some. apply elem_of_add_input. naive_solver. }
  split; [| set_solver | set_solver |].
  - assert (Forall (transition_ids_ok d') (final_transitions d)) as Hold.
    { eapply Forall_impl; [exact Hts |]. intros t.
      by apply transition_ids_ok_mono. }
    unfold final_transitions in *. cbn.
    destruct (nfa_pending d) as [p |].
    + apply Forall_app in Hold as [Hold Hp]. rewrite !Forall_app.
      split_and!; [done | by apply Forall_singleton | done].
    + rewrite Forall_app. split; [done | by apply Forall_singleton].
  - eapply Forall_impl; [exact Houts |]. intros p [? ?]; split; [set_solver | done].
Qed.

Lemma decoder_inv_mealy_transition d src inp tgt out :
  decoder_inv d → decoder_inv (decode_mealy_transition d src inp tgt out).
Proof.
  intros [Hts Hini Hacc Houts].
  set (d' := decode_mealy_transition d src inp tgt out).
  assert (state_ids d ⊆ state_ids d') as Hs by (cbn; set_solver).
  assert (input_ids d ⊆ input_ids d') as Hi by apply add_input_subseteq.
  assert (output_ids d ⊆ output_ids d') as Ho by (cbn; set_solver).
  assert (transition_ids_ok d'
            {| it_from := src; it_input := input_or_none inp; it_to := IdOne tgt;
               it_output := Some out |}) as Hnew.
  { split; cbn; [set_solver | repeat constructor; set_solver | | ].
    - intros i Hin%input_or_none_Some. apply elem_of_add_input. naive_solver.
    - intros o [= ->]. set_solver. }
  split; [| set_solver | set_solver |].
  - assert (Forall (transition_ids_ok d') (final_transitions d)) as Hold.
    { eapply Forall_impl; [exact Hts |]. intros t.
      by apply transition_ids_ok_mono. }
    unfold final_transitions in *. cbn.
    destruct (nfa_pending d) as [p |].
    + apply Forall_app in Hold as [Hold Hp]. rewrite !Forall_app.
      split_and!; [done | by apply Forall_singleton | done].
    + rewrite Forall_app. split; [done | by apply Forall_singleton].
  - eapply Forall_impl; [exact Houts |]. intros p [? ?]; split; set_solver.
Qed.

Lemma decoder_inv_nfa_multi d src inp tgt cont :
  decoder_inv d → decoder_inv (decode_nfa_multi d src inp tgt cont).
Proof.
  intros [Hts Hini Hacc Houts].
  set (d' := decode_nfa_multi d src inp tgt cont).
  assert (state_ids d ⊆ state_ids d') as Hs by (cbn; set_solver).
  assert (input_ids d ⊆ input_ids d') as Hi by apply add_input_subseteq.
  assert (output_ids d ⊆ output_ids d') as Ho by done.
  assert (src ∈ state_ids d') as Hsrc by (cbn; set_solver).
  assert (tgt ∈ state_ids d') as Htgt by (cbn; set_solver).
  assert (inp ≠ EPSILON_INPUT → inp ∈ input_ids d') as Hinp.
  { intros Hne. apply elem_of_add_input. auto. }
  assert (Forall (transition_ids_ok d') (final_transitions d)) as Hold.
  { eapply Forall_impl; [exact Hts |]. intros t. by apply transition_ids_ok_mono. }
  split; [| set_solver | set_solver |].
  - unfold d'. rewrite final_transitions_nfa_multi.
    unfold final_transitions in Hold |- *.
    destruct (nfa_pending d) as [[[psrc pinp] ptargets] |].
    + apply Forall_app in Hold as [Hold Hp].
      destruct (negb (psrc =? src) || negb (pinp =? inp)).
      * rewrite !Forall_app. split_and!; [done | done |].
        apply Forall_singleton, pending_transition_ok; auto.
      * rewrite Forall_app. split; [done |]. apply Forall_singleton.
        rewrite Forall_singleton in Hp.
        apply pending_transition_inv in Hp as (? & ? & ?).
        apply pending_transition_ok; [done | | done].
        rewrite Forall_app, Forall_singleton; auto.
    + rewrite Forall_app. split; [done |].
      apply Forall_singleton, pending_transition_ok; auto.
  - eapply Forall_impl; [exact Houts |]. intros p [? ?]; split; set_solver.
Qed.

Lemma decoder_inv_record d r : decoder_inv d → decoder_inv (decode_record d r).
Proof.
  intros Hd. destruct r as [[[[rec_type f1] f2] f3] f4]. unfold decode_record.
  destruct (rec_type =? TYPE_STATE_DECL); [by apply decoder_inv_state_decl |].
  destruct (rec_type =? TYPE_DFA_TRANSITION); [by apply decoder_inv_dfa_transition |].
  destruct (rec_type =? TYPE_MEALY_TRANSITION); [by apply decoder_inv_mealy_transition |].
  destruct (rec_type =? TYPE_NFA_MULTI); [by apply decoder_inv_nfa_multi | done].
Qed.

Lemma decoder_inv_foldl rs d :
  decoder_inv d → decoder_inv (foldl decode_record d rs).
Proof.
  revert d. induction rs as [| r rs IH]; intros d Hd; [done |].
  cbn. apply IH. by apply decoder_inv_record.
Qed.

(** Decoding never fails once the label keys and the records parse. *)
Lemma hex_to_fsm_ok records labels tables rs :
  load_tables labels = Ok tables →
  for_each parse_record records = Ok rs →
  hex_to_fsm records labels
  = Ok (decoded_fsm tables (foldl decode_record decoder_init rs)).
Proof.
  intros Htables Hrs. unfold hex_to_fsm. rewrite Htables. cbn.
  rewrite (decode_records_parsed _ _ _ Hrs). cbn.
  apply build_fsm_ok, decoder_inv_foldl, decoder_inv_init.
Qed.

(** ** Shape of the decoded model *)

Lemma elem_of_sorted (X : gset Z) i : i ∈ sorted X ↔ i ∈ X.
Proof. unfold sorted. by rewrite merge_sort_Permutation, elem_of_elements. Qed.

Lemma decode_records_inv records d d' :
  decode_records records d = Ok d' →
  ∃ rs, for_each parse_record records = Ok rs ∧ d' = foldl decode_record d rs.
Proof.
  intros Hd. destruct (for_each parse_record records) as [rs | e] eqn:Hrs.
  - exists rs. split; [done |].
    rewrite (decode_records_parsed _ _ d Hrs) in Hd. by inversion Hd.
  - by rewrite (decode_records_raise _ _ d Hrs) in Hd.
Qed.

Lemma hex_to_fsm_inv records labels m :
  hex_to_fsm records labels = Ok m →
  ∃ tables rs, load_tables labels = Ok tables
    ∧ for_each parse_record records = Ok rs
    ∧ m = decoded_fsm tables (foldl decode_record decoder_init rs).
Proof.
  intros Hm. unfold hex_to_fsm in Hm.
  destruct (load_tables labels) as [tables | e] eqn:Htables; [| done].
  cbn in Hm.
  destruct (decode_records records decoder_init) as [d | e] eqn:Hd; [| done].
  apply decode_records_inv in Hd as (rs & Hrs & ->).
  exists tables, rs. split_and!; [done | done |].
  cbn in Hm. rewrite build_fsm_ok in Hm by apply decoder_inv_foldl, decoder_inv_init.
  by inversion Hm.
Qed.

Lemma lookup_foldl_insert_names (sn onn : Z → string) items
    (acc : gmap string string) s o :
  (foldl (λ acc p, <[sn p.1 := onn p.2]> acc) acc items) !! s = Some o →
  acc !! s = Some o ∨ ∃ p : Z * Z, p ∈ items ∧ s = sn p.1 ∧ o = onn p.2.
Proof.
  revert acc. induction items as [| p items IH]; intros acc Hs; [by left |].
  cbn in Hs. apply IH in Hs as [Hs | (q & Hq & ? & ?)].
  - destruct (decide (sn p.1 = s)) as [<- | Hne].
    + rewrite lookup_insert_eq in Hs. inversion Hs; subst.
      right. exists p. split_and!; [apply list_elem_of_here | done | done].
    + rewrite lookup_insert_ne in Hs by done. by left.
  - right. exists q. split_and!; [by apply list_elem_of_further | done | done].
Qed.

Lemma decoded_fsm_well_formed tables d :
  decoder_inv d → well_formed (decoded_fsm tables d).
Proof.
  intros [Hts Hini Hacc Houts]. unfold well_formed, decoded_fsm. cbn.
  set (sn := symbol_name "S" (state_labels tables)).
  set (inn := symbol_name "i" (input_labels tables)).
  set (onn := symbol_name "o" (output_labels tables)).
  split_and!.
  - intros s Hs. destruct (initial_state d) as [i |]; [| done].
    inversion Hs; subst. apply list_elem_of_fmap_2, elem_of_sorted. auto.
  - apply Forall_fmap, Forall_forall. intros i Hi. cbn.
    apply list_elem_of_fmap_2, elem_of_sorted, Hacc. by apply elem_of_elements.
  - apply Forall_fmap. eapply Forall_impl; [exact Hts |].
    intros t [Hfrom Hto Hin Hout]. cbn. split_and!.
    + by apply list_elem_of_fmap_2, elem_of_sorted.
    + destruct (it_to t) as [x | l]; cbn in *.
      * apply Forall_singleton. rewrite Forall_singleton in Hto.
        by apply list_elem_of_fmap_2, elem_of_sorted.
      * apply Forall_fmap. eapply Forall_impl; [exact Hto |]. intros x Hx. cbn.
        by apply list_elem_of_fmap_2, elem_of_sorted.
    + intros i Hi. destruct (it_input t) as [j |]; [| done].
      inversion Hi; subst. apply list_elem_of_fmap_2, elem_of_sorted. auto.
    + intros o Ho. destruct (it_output t) as [j |]; [| done].
      inversion Ho; subst. apply list_elem_of_fmap_2, elem_of_sorted. auto.
  - intros s o Hso. destruct (String.eqb _ "moore"); [| done].
    apply lookup_foldl_insert_names in Hso as [Hso | (p & Hp & -> & ->)]; [done |].
    rewrite Forall_forall in Houts. destruct (Houts p Hp) as [_ Hv].
    by apply list_elem_of_fmap_2, elem_of_sorted.
Qed.

(** C10.  Whatever the records and the label table, a model returned by
    [hex_to_fsm] is well formed: its initial state, its accepting states
    and the source and targets of its transitions are in [states], the
    input of a transition is in [alphabet], and the output of a transition
    or of a state is in [output_alphabet]. *)
Theorem decoded_model_well_formed records labels m :
  hex_to_fsm records labels = Ok m → well_formed m.
Proof.
  intros (tables & rs & _ & _ & ->)%hex_to_fsm_inv.
  apply decoded_fsm_well_formed, decoder_inv_foldl, decoder_inv_init.
Qed.

(** ** Type inference *)

Lemma has_mealy_record d r :
  has_mealy (decode_record d r)
  = has_mealy d || (rec_type_of r =? TYPE_MEALY_TRANSITION).
Proof.
  destruct r as [[[[rec_type f1] f2] f3] f4]. unfold decode_record, rec_type_of. cbn.
  destruct (Z.eqb_spec rec_type TYPE_STATE_DECL) as [-> | _]; [by rewrite orb_false_r |].
  destruct (Z.eqb_spec rec_type TYPE_DFA_TRANSITION) as [-> | _];
    [by rewrite orb_false_r |].
  destruct (Z.eqb_spec rec_type TYPE_MEALY_TRANSITION) as [-> | _];
    [by rewrite orb_true_r |].
  destruct (Z.eqb_spec rec_type TYPE_NFA_MULTI) as [-> | _]; by rewrite orb_false_r.
Qed.

Lemma has_nfa_multi_record d r :
  has_nfa_multi (decode_record d r)
  = has_nfa_multi d || (rec_type_of r =? TYPE_NFA_MULTI).
Proof.
  destruct r as [[[[rec_type f1] f2] f3] f4]. unfold decode_record, rec_type_of. cbn.
  destruct (Z.eqb_spec rec_type TYPE_STATE_DECL) as [-> | _]; [by rewrite orb_false_r |].
  destruct (Z.eqb_spec rec_type TYPE_DFA_TRANSITION) as [-> | _];
    [by rewrite orb_false_r |].
  destruct (Z.eqb_spec rec_type TYPE_MEALY_TRANSITION) as [-> | _];
    [by rewrite orb_false_r |].
  destruct (Z.eqb_spec rec_type TYPE_NFA_MULTI) as [-> | Hne]; [by rewrite orb_true_r |].
  by rewrite orb_false_r.
Qed.

Lemma has_moore_outputs_record d r :
  has_moore_outputs (decode_record d r)
  = has_moore_outputs d
    || (rec_type_of r =? TYPE_STATE_DECL) && negb (field3_of r =? 0).
Proof.
  destruct r as [[[[rec_type f1] f2] f3] f4].
  unfold decode_record, rec_type_of, field3_of. cbn.
  destruct (Z.eqb_spec rec_type TYPE_STATE_DECL) as [-> | _].
  { cbn. destruct (f3 =? 0); cbn; [by rewrite orb_false_r | by rewrite orb_true_r]. }
  cbn. rewrite orb_false_r.
  destruct (rec_type =? TYPE_DFA_TRANSITION); [done |].
  destruct (rec_type =? TYPE_MEALY_TRANSITION); [done |].
  by destruct (rec_type =? TYPE_NFA_MULTI).
Qed.

Lemma has_mealy_foldl rs d :
  has_mealy (foldl decode_record d rs) = has_mealy d || saw_mealy rs.
Proof.
  revert d. induction rs as [| r rs IH]; intros d; cbn; [by rewrite orb_false_r |].
  by rewrite IH, has_mealy_record, orb_assoc.
Qed.

Lemma has_nfa_multi_foldl rs d :
  has_nfa_multi (foldl decode_record d rs) = has_nfa_multi d || saw_nfa_multi rs.
Proof.
  revert d. induction rs as [| r rs IH]; intros d; cbn; [by rewrite orb_false_r |].
  by rewrite IH, has_nfa_multi_record, orb_assoc.
Qed.

Lemma has_moore_outputs_foldl rs d :
  has_moore_outputs (foldl decode_record d rs)
  = has_moore_outputs d || saw_state_output rs.
Proof.
  revert d. induction rs as [| r rs IH]; intros d; cbn; [by rewrite orb_false_r |].
  by rewrite IH, has_moore_outputs_record, orb_assoc.
Qed.

Lemma has_none_input_named sn inn onn ts :
  existsb (λ t, bool_decide (t_input t = None)) (named_transition sn inn onn <$> ts)
  = has_none_input ts.
Proof.
  unfold has_none_input. induction ts as [| t ts IH]; [done |].
  cbn. rewrite IH. f_equal. by destruct (it_input t).
Qed.

Lemma override_type_label_type L inferred :
  override_type (l_fsm L) inferred = default inferred (label_type (Some L)).
Proof.
  unfold override_type, label_type. destruct (meta_type (l_fsm L)) as [ty |]; [| done].
  by destruct (String.eqb ty "").
Qed.

Lemma load_tables_meta labels tables :
  load_tables labels = Ok tables →
  ∀ inferred,
    override_type (fsm_meta tables) inferred = default inferred (label_type labels).
Proof.
  intros Htables inferred. destruct labels as [L |]; cbn in Htables.
  - destruct (load_labels (l_states L) ∅); [| done]. cbn in Htables.
    destruct (load_labels (l_inputs L) ∅); [| done]. cbn in Htables.
    destruct (load_labels (l_outputs L) ∅); [| done]. cbn in Htables.
    inversion Htables; subst. cbn. apply override_type_label_type.
  - by inversion Htables.
Qed.

(** C6.  The kind of a decoded model is the type of the label table's
    section [[fsm]] when it gives one; otherwise it is the first match of:
    mealy if a MEALY_TRANSITION record was seen, moore if a state
    declaration had a non-zero output field, nfa if an NFA_MULTI record was
    seen or a decoded transition has no input, dfa.  In particular a
    stream with a MEALY_TRANSITION record and state outputs decodes to
    mealy when no type is given. *)
Theorem type_inference_priority records labels rs m :
  for_each parse_record records = Ok rs →
  hex_to_fsm records labels = Ok m →
  fsm_type m = default (kind_by_priority rs m) (label_type labels)
  ∧ (label_type labels = None → saw_mealy rs = true → fsm_type m = "mealy").
Proof.
  intros Hrs (tables & rs' & Htables & Hrs' & ->)%hex_to_fsm_inv.
  rewrite Hrs in Hrs'. inversion Hrs'; subst rs'. clear Hrs'.
  assert (fsm_type (decoded_fsm tables (foldl decode_record decoder_init rs))
          = default (kind_by_priority rs
                       (decoded_fsm tables (foldl decode_record decoder_init rs)))
              (label_type labels)) as Hkind.
  { cbn. rewrite (load_tables_meta _ _ Htables). f_equal.
    unfold infer_type, kind_by_priority, has_epsilon_transition. cbn.
    rewrite has_mealy_foldl, has_moore_outputs_foldl, has_nfa_multi_foldl.
    by rewrite has_none_input_named. }
  split; [done |].
  intros Hnone Hmealy. rewrite Hkind, Hnone. cbn.
  unfold kind_by_priority. by rewrite Hmealy.
Qed.

(** ** The lookup tables of the encoder *)

Lemma lookup_foldl_enumerate l i (m : gmap string Z) s j :
  (foldl (λ d p, <[p.2 := p.1]> d) m (enumerate_from i l)) !! s = Some j ↔
  (∃ n : nat, l !! n = Some s ∧ j = i + Z.of_nat n ∧ s ∉ drop (S n) l)
  ∨ ((s ∉ l) ∧ m !! s = Some j).
Proof.
  revert i m. induction l as [| x l IH]; intros i m; cbn.
  - split; [intros Hm; right; split; [apply not_elem_of_nil | done] |].
    intros [(n & Hn & _) | [_ Hm]]; [by rewrite lookup_nil in Hn | done].
  - rewrite IH. split.
    + intros [(n & Hn & -> & Hlast) | [Hs Hm]].
      * left. exists (S n). split_and!; [done | lia | done].
      * destruct (decide (x = s)) as [-> | Hne].
        -- rewrite lookup_insert_eq in Hm. inversion Hm; subst.
           left. exists 0%nat. split_and!; [done | lia | done].
        -- rewrite lookup_insert_ne in Hm by done.
           right. split; [| done]. by apply not_elem_of_cons.
    + intros [(n & Hn & -> & Hlast) | [Hs Hm]].
      * destruct n as [| n]; cbn in *.
        -- inversion Hn; subst. right. split; [done |].
           rewrite lookup_insert_eq. f_equal. lia.
        -- left. exists n. split_and!; [done | lia | done].
      * apply not_elem_of_cons in Hs as [Hne Hs].
        right. split; [done |]. by rewrite lookup_insert_ne.
Qed.

Lemma lookup_index_dict l s j :
  index_dict l !! s = Some j ↔
  ∃ n : nat, l !! n = Some s ∧ j = Z.of_nat n ∧ s ∉ drop (S n) l.
Proof.
  unfold index_dict, enumerate. rewrite lookup_foldl_enumerate. split.
  - intros [(n & ? & ? & ?) | [_ Hm]]; [| by rewrite lookup_empty in Hm].
    exists n. split_and!; [done | lia | done].
  - intros (n & ? & ? & ?). left. exists n. split_and!; [done | lia | done].
Qed.

Lemma index_dict_range l s j : index_dict l !! s = Some j → 0 ≤ j < len l.
Proof.
  intros (n & Hn & -> & _)%lookup_index_dict.
  apply lookup_lt_Some in Hn. unfold len. lia.
Qed.

Lemma index_dict_elem_of l s j : index_dict l !! s = Some j → s ∈ l.
Proof.
  intros (n & Hn & _)%lookup_index_dict. by eapply list_elem_of_lookup_2.
Qed.

Lemma index_dict_is_Some l s : s ∈ l → is_Some (index_dict l !! s).
Proof.
  induction l as [| x l IH] using rev_ind; [by intros ?%elem_of_nil |].
  intros Hs. destruct (decide (x = s)) as [-> | Hne].
  - exists (Z.of_nat (length l)). apply lookup_index_dict. exists (length l).
    split_and!; [| done |].
    + by rewrite lookup_app_r, Nat.sub_diag.
    + rewrite drop_ge; [apply not_elem_of_nil |]. rewrite length_app; cbn; lia.
  - apply elem_of_app in Hs as [Hs | Hs%list_elem_of_singleton]; [| done].
    destruct (IH Hs) as [j (n & Hn & -> & Hlast)%lookup_index_dict].
    exists (Z.of_nat n). apply lookup_index_dict. exists n.
    split_and!; [by apply lookup_app_l_Some | done |].
    assert (S n ≤ length l)%nat by (apply lookup_lt_Some in Hn; lia).
    rewrite drop_app_le by done. rewrite elem_of_app, list_elem_of_singleton.
    intros [? | ?]; done.
Qed.

Lemma index_dict_None l s : s ∉ l → index_dict l !! s = None.
Proof.
  intros Hs. apply eq_None_not_Some. intros [j Hj]. by apply index_dict_elem_of in Hj.
Qed.

Lemma index_dict_NoDup l (n : nat) s :
  NoDup l → l !! n = Some s → index_dict l !! s = Some (Z.of_nat n).
Proof.
  intros Hnd Hn. apply lookup_index_dict. exists n. split_and!; [done | done |].
  intros (k & Hk)%list_elem_of_lookup_1. rewrite lookup_drop in Hk.
  pose proof (NoDup_lookup _ _ _ _ Hnd Hn Hk). lia.
Qed.

Lemma index_dict_inj l s s' j :
  index_dict l !! s = Some j → index_dict l !! s' = Some j → s = s'.
Proof.
  intros (n & Hn & -> & _)%lookup_index_dict (n' & Hn' & Heq & _)%lookup_index_dict.
  assert (n = n') as <- by lia. congruence.
Qed.

Lemma lookup_reverse_dict (d : gmap string Z) j s :
  (∀ s1 s2 i, d !! s1 = Some i → d !! s2 = Some i → s1 = s2) →
  reverse_dict d !! j = Some s ↔ d !! s = Some j.
Proof.
  intros Hinj. unfold reverse_dict.
  rewrite <- elem_of_list_to_map.
  - rewrite list_elem_of_fmap. split.
    + intros ([s' j'] & [= -> ->] & Hin). by apply elem_of_map_to_list in Hin.
    + intros Hd. exists (s, j). split; [done |]. by apply elem_of_map_to_list.
  - rewrite <- list_fmap_compose.
    apply NoDup_fmap_2_strong; [| apply NoDup_map_to_list].
    intros [s1 i1] [s2 i2] H1%elem_of_map_to_list H2%elem_of_map_to_list Heq.
    cbn in Heq. subst i2. f_equal. by eapply Hinj.
Qed.

Lemma lookup_reverse_index_dict l j s :
  reverse_dict (index_dict l) !! j = Some s ↔ index_dict l !! s = Some j.
Proof. apply lookup_reverse_dict. intros s1 s2 i. apply index_dict_inj. Qed.

(** ** Single steps of the codec *)

(** Closes a goal that follows from the record type codes being distinct. *)
Ltac type_codes :=
  unfold TYPE_DFA_TRANSITION, TYPE_MEALY_TRANSITION, TYPE_STATE_DECL,
    TYPE_NFA_MULTI in *; lia.

Lemma dict_get_set_eq k v d : dict_get k (dict_set k v d) = Some v.
Proof.
  induction d as [| [k' v'] d IH]; cbn; [by rewrite Z.eqb_refl |].
  destruct (Z.eqb_spec k' k) as [-> | Hne]; cbn.
  - by rewrite Z.eqb_refl.
  - by destruct (Z.eqb_spec k' k).
Qed.

Lemma dict_get_set_ne k k' v d :
  k ≠ k' → dict_get k' (dict_set k v d) = dict_get k' d.
Proof.
  intros Hne. induction d as [| [k0 v0] d IH]; cbn.
  - by destruct (Z.eqb_spec k k').
  - destruct (Z.eqb_spec k0 k) as [-> | Hne0]; cbn.
    + by destruct (Z.eqb_spec k k').
    + by rewrite IH.
Qed.

Lemma for_each_Ok_Forall {A B} (f : A → res B) (P : B → Prop) l ys :
  (∀ x y, x ∈ l → f x = Ok y → P y) → for_each f l = Ok ys → Forall P ys.
Proof.
  revert ys. induction l as [| x l IH]; intros ys Hf Hys; cbn in Hys.
  - inversion Hys. constructor.
  - destruct (f x) as [y | e] eqn:Hx; [| done]. cbn in Hys.
    destruct (for_each f l) as [ys' | e]; [| done]. inversion Hys; subst.
    constructor.
    + eapply Hf; [apply list_elem_of_here | done].
    + apply IH; [| done]. intros x' y' Hx'. apply Hf. by apply list_elem_of_further.
Qed.

Lemma encode_input_epsilon input_idx inp_sym :
  inp_sym = None ∨ inp_sym = Some "epsilon" ∨ inp_sym = Some "ε" →
  encode_input input_idx inp_sym = Ok EPSILON_INPUT.
Proof. by intros [-> | [-> | ->]]. Qed.

Lemma for_each_total {A B} (f : A → res B) (g : A → B) l :
  (∀ x, x ∈ l → f x = Ok (g x)) → for_each f l = Ok (g <$> l).
Proof.
  induction l as [| x l IH]; intros Hf; [done |].
  cbn. rewrite Hf by apply list_elem_of_here. cbn.
  rewrite IH; [done |]. intros y Hy. apply Hf. by apply list_elem_of_further.
Qed.

Lemma getitem_index_dict l s :
  s ∈ l → getitem (index_dict l) s = Ok (default 0 (index_dict l !! s)).
Proof.
  intros [j Hj]%index_dict_is_Some. unfold getitem. by rewrite Hj.
Qed.

(** C9.  In a Mealy model a transition whose ["to"] is a list of two or
    more states is encoded as the one MEALY_TRANSITION record of its first
    target: the records are those of the same transition with that target
    alone, whatever the other targets are. *)
Theorem mealy_multi_target_truncation fsm state_idx input_idx output_idx t
    t0 t1 rest src inp tgt :
  fsm_type fsm = "mealy" →
  t_to t = ToList (t0 :: t1 :: rest) →
  state_idx !! t_from t = Some src →
  encode_input input_idx (t_input t) = Ok inp →
  state_idx !! t0 = Some tgt →
  transition_records fsm state_idx input_idx output_idx t
  = Ok [format_record TYPE_MEALY_TRANSITION src inp tgt
          (default 0 (output_idx !! default "" (t_output t)))]
  ∧ transition_records fsm state_idx input_idx output_idx t
    = transition_records fsm state_idx input_idx output_idx
        {| t_from := t_from t; t_input := t_input t; t_to := ToStr t0;
           t_output := t_output t |}.
Proof.
  intros Hty Hto Hsrc Hinp Htgt. unfold transition_records. cbn.
  rewrite Hty, Hto. cbn. unfold getitem. rewrite Hsrc. cbn. rewrite Hinp. cbn.
  by rewrite Htgt.
Qed.

(** C8.  Decoding fails on no irregular chain of NFA_MULTI records: once
    the label keys and the records parse, [hex_to_fsm] returns a model
    whose transitions are those held at the end of the stream.  An
    NFA_MULTI record whose source or input differs from the pending
    group's appends the pending group as a transition and starts a new
    group, and a group still pending at the end of the stream is the last
    transition. *)
Theorem nfa_chain_boundary_tolerance :
  (∀ records labels tables rs,
     load_tables labels = Ok tables →
     for_each parse_record records = Ok rs →
     ∃ m, hex_to_fsm records labels = Ok m
       ∧ transitions m
         = named_transition (symbol_name "S" (state_labels tables))
             (symbol_name "i" (input_labels tables))
             (symbol_name "o" (output_labels tables))
           <$> final_transitions (foldl decode_record decoder_init rs))
  ∧ (∀ d psrc pinp ptargets src inp tgt cont,
       nfa_pending d = Some (psrc, pinp, ptargets) →
       psrc ≠ src ∨ pinp ≠ inp →
       let d' := decode_record d (TYPE_NFA_MULTI, src, inp, tgt, cont) in
       id_transitions d'
       = id_transitions d ++ pending_transition (psrc, pinp, ptargets)
           :: (if cont =? 0 then [pending_transition (src, inp, [tgt])] else [])
       ∧ nfa_pending d' = (if cont =? 0 then None else Some (src, inp, [tgt])))
  ∧ (∀ d p,
       nfa_pending d = Some p →
       final_transitions d = id_transitions d ++ [pending_transition p]).
Proof.
  split_and!.
  - intros records labels tables rs Htables Hrs. eexists. split.
    + by apply hex_to_fsm_ok.
    + done.
  - intros d psrc pinp ptargets src inp tgt cont Hp Hne. cbn zeta.
    unfold decode_record. cbn. unfold nfa_step. rewrite Hp.
    assert (negb (psrc =? src) || negb (pinp =? inp) = true) as ->.
    { destruct Hne as [Hne | Hne].
      - destruct (Z.eqb_spec psrc src); [done | by cbn].
      - destruct (Z.eqb_spec pinp inp); [done |]. by rewrite orb_true_r. }
    by destruct (cont =? 0).
  - intros d p Hp. unfold final_transitions. by rewrite Hp.
Qed.

(** ** Record parsing *)

Lemma parse_record_length record :
  String.length (remove_char ":" (remove_char " " record)) ≠ 20%nat →
  parse_record record = Raise ValueError.
Proof.
  intros Hlen. unfold parse_record.
  by destruct (Nat.eqb_spec (String.length (remove_char ":" (remove_char " " record))) 20).
Qed.

Lemma remove_char_spec c s : ∀ a, a ∈ list_ascii_of_string (remove_char c s) → a ≠ c.
Proof.
  induction s as [| b s IH]; cbn; intros a Ha; [by apply elem_of_nil in Ha |].
  destruct (Ascii.eqb_spec b c) as [-> | Hne]; [by apply IH |].
  cbn in Ha. apply elem_of_cons in Ha as [-> | Ha]; [done | by apply IH].
Qed.

(** C5.  [parse_record] accepts record texts whose stripped form has 20
    characters that are not all hex digits: the groups [0x1F] and [-001]
    are read as 31 and -1, the latter outside the 16-bit range. *)
Theorem parse_record_accepts_non_hex :
  parse_record "0x1F 0001:0002 0003:0004" = Ok (31, 1, 2, 3, 4)
  ∧ parse_record "-001 0001:0002 0003:0004" = Ok (-1, 1, 2, 3, 4)
  ∧ parse_record "0_0F 0001:0002 0003:0004" = Ok (15, 1, 2, 3, 4).
Proof. by split_and!. Qed.

(** ** Which references the code checks *)

Lemma for_each_Raise {A B} (f : A → res B) l e :
  for_each f l = Raise e → ∃ x, x ∈ l ∧ f x = Raise e.
Proof.
  induction l as [| x l IH]; cbn; [done |].
  destruct (f x) as [y | e'] eqn:Hx; cbn.
  - destruct (for_each f l) as [ys | e']; cbn; [done |].
    intros [= ->]. destruct IH as (x' & ? & ?); [done |].
    exists x'. split; [by apply list_elem_of_further | done].
  - intros [= ->]. exists x. split; [apply list_elem_of_here | done].
Qed.

Lemma for_each_is_Ok {A B} (f : A → res B) l :
  (∀ x, x ∈ l → ∃ y, f x = Ok y) → ∃ ys, for_each f l = Ok ys.
Proof.
  intros Hf. destruct (for_each f l) as [ys | e] eqn:Hl; [eauto |].
  apply for_each_Raise in Hl as (x & Hx & He).
  destruct (Hf x Hx) as [y Hy]. congruence.
Qed.

Lemma elem_of_enumerate_from {A} (l : list A) k i x :
  (i, x) ∈ enumerate_from k l → x ∈ l.
Proof.
  revert k. induction l as [| y l IH]; intros k; cbn; [by intros ?%elem_of_nil |].
  intros [[= -> ->] | Hin]%elem_of_cons; [apply list_elem_of_here |].
  apply list_elem_of_further. by eapply IH.
Qed.

Lemma getitem_Raise l s e :
  getitem (index_dict l) s = Raise e → e = KeyError s ∧ s ∉ l.
Proof.
  unfold getitem. destruct (index_dict l !! s) as [j |] eqn:Hs; [done |].
  intros [= <-]. split; [done |]. intros [j Hj]%index_dict_is_Some. congruence.
Qed.

(** The state declarations never raise. *)
Lemma state_decl_records_is_Ok fsm output_idx :
  ∃ decls, state_decl_records fsm (index_dict (states fsm)) output_idx = Ok decls.
Proof.
  unfold state_decl_records. destruct (String.eqb (fsm_type fsm) "moore").
  - apply for_each_is_Ok. intros s Hs. rewrite getitem_index_dict by done. cbn. eauto.
  - destruct (for_each_is_Ok
      (λ state,
         if negb (state_flags fsm state =? 0)
         then bind (getitem (index_dict (states fsm)) state)
                (λ sid, Ok [format_record TYPE_STATE_DECL sid
                              (state_flags fsm state) 0 0])
         else Ok []) (states fsm)) as [rs Hrs].
    { intros s Hs. destruct (negb (state_flags fsm s =? 0)); [| eauto].
      rewrite getitem_index_dict by done. cbn. eauto. }
    rewrite Hrs. cbn. eauto.
Qed.

Lemma transition_records_Raise fsm t e :
  transition_records fsm (index_dict (states fsm)) (index_dict (alphabet fsm))
    (index_dict (output_alphabet fsm)) t = Raise e →
  (∃ k, e = KeyError k
     ∧ ((k = t_from t ∧ k ∉ states fsm)
        ∨ (t_input t = Some k ∧ is_epsilon_name k = false ∧ k ∉ alphabet fsm)
        ∨ (k ∈ encoded_targets fsm t ∧ k ∉ states fsm)))
  ∨ (e = IndexError ∧ fsm_type fsm = "mealy" ∧ target_list (t_to t) = []).
Proof.
  unfold transition_records, encoded_targets.
  destruct (getitem (index_dict (states fsm)) (t_from t)) as [src | e'] eqn:Hsrc; cbn.
  2: { intros [= ->]. apply getitem_Raise in Hsrc as [-> ?]. left. eauto 10. }
  destruct (encode_input (index_dict (alphabet fsm)) (t_input t)) as [inp | e'] eqn:Hinp;
    cbn.
  2: { intros [= ->]. unfold encode_input in Hinp.
       destruct (t_input t) as [sym |]; [| done].
       destruct (is_epsilon_name sym) eqn:Heps; [done |].
       apply getitem_Raise in Hinp as [-> ?]. left. eauto 10. }
  destruct (String.eqb_spec (fsm_type fsm) "mealy") as [Hty | Hty].
  { destruct (target_list (t_to t)) as [| t0 tl]; [intros [= <-]; by right |].
    destruct (getitem (index_dict (states fsm)) t0) as [tgt | e'] eqn:Htgt; cbn; [done |].
    intros [= ->]. apply getitem_Raise in Htgt as [-> ?]. left.
    eexists. split; [done |]. right. right. split; [| done]. cbn. apply list_elem_of_here. }
  destruct (Z.eqb_spec (len (target_list (t_to t))) 1) as [Hlen | Hlen].
  { destruct (target_list (t_to t)) as [| t0 tl]; [done |].
    destruct (getitem (index_dict (states fsm)) t0) as [tgt | e'] eqn:Htgt; cbn; [done |].
    intros [= ->]. apply getitem_Raise in Htgt as [-> ?]. left.
    eexists. split; [done |]. right. right. split; [apply list_elem_of_here | done]. }
  intros ([i tg] & Hin & He)%for_each_Raise. cbn in He.
  destruct (getitem (index_dict (states fsm)) tg) as [tgt | e'] eqn:Htgt; cbn in He;
    [done |].
  inversion He; subst. apply getitem_Raise in Htgt as [-> ?]. left.
  eexists. split; [done |]. right. right. split; [| done].
  by eapply elem_of_enumerate_from.
Qed.

Lemma transition_records_is_Ok fsm t :
  transition_refs_defined fsm t →
  ∃ rs, transition_records fsm (index_dict (states fsm)) (index_dict (alphabet fsm))
          (index_dict (output_alphabet fsm)) t = Ok rs.
Proof.
  intros (Hfrom & Hinp & Htgts & Hne).
  destruct (transition_records _ _ _ _ t) as [rs | e] eqn:Ht; [eauto |].
  apply transition_records_Raise in Ht
    as [(k & -> & [[-> Hk] | [(Hk1 & Hk2 & Hk3) | [Hk1 Hk2]]]) | (_ & Hty & Hnil)].
  - done.
  - destruct Hk3. by apply Hinp.
  - rewrite Forall_forall in Htgts. destruct Hk2. by apply Htgts.
  - by destruct (Hne Hty).
Qed.

(** C7, as the code has it.  [json_to_fsm] checks the three cardinalities
    and no symbolic reference.  [fsm_to_hex] resolves the references of
    transitions only: it succeeds whenever the source, the input (unless
    absent or an epsilon marker) and the encoded targets of every
    transition are in their tables, whatever [initial], [accepting],
    [state_outputs] and the outputs of transitions name; and when it
    raises, the error is a [KeyError] carrying the missing source, input or
    target of a transition (or an [IndexError] for a Mealy transition
    without target). *)
Theorem references_checked_by_encoder :
  (∀ data,
     len (default [] (j_states data)) ≤ 65535 →
     len (default [] (j_alphabet data)) ≤ 65534 →
     len (default [] (j_output_alphabet data)) ≤ 65535 →
     ∃ fsm, json_to_fsm data = Ok fsm)
  ∧ (∀ fsm,
       Forall (transition_refs_defined fsm) (transitions fsm) →
       ∃ out, fsm_to_hex fsm = Ok out)
  ∧ (∀ fsm e,
       fsm_to_hex fsm = Raise e →
       ∃ t, t ∈ transitions fsm
         ∧ ((∃ k, e = KeyError k
               ∧ ((k = t_from t ∧ k ∉ states fsm)
                  ∨ (t_input t = Some k ∧ is_epsilon_name k = false
                     ∧ k ∉ alphabet fsm)
                  ∨ (k ∈ encoded_targets fsm t ∧ k ∉ states fsm)))
            ∨ (e = IndexError ∧ fsm_type fsm = "mealy"
               ∧ target_list (t_to t) = []))).
Proof.
  split_and!.
  - intros data Hs Ha Ho. unfold json_to_fsm. cbn.
    destruct (Z.ltb_spec 65535 (len (default [] (j_states data)))); [lia |].
    destruct (Z.ltb_spec 65534 (len (default [] (j_alphabet data)))); [lia |].
    destruct (Z.ltb_spec 65535 (len (default [] (j_output_alphabet data)))); [lia |].
    eauto.
  - intros fsm Hts. unfold fsm_to_hex.
    destruct (state_decl_records_is_Ok fsm (index_dict (output_alphabet fsm)))
      as [decls ->]. cbn.
    destruct (for_each_is_Ok
      (transition_records fsm (index_dict (states fsm)) (index_dict (alphabet fsm))
         (index_dict (output_alphabet fsm))) (transitions fsm)) as [trs ->].
    { intros t Ht. apply transition_records_is_Ok.
      rewrite Forall_forall in Hts. by apply Hts. }
    cbn. eauto.
  - intros fsm e. unfold fsm_to_hex.
    destruct (state_decl_records_is_Ok fsm (index_dict (output_alphabet fsm)))
      as [decls ->]. cbn.
    destruct (for_each _ (transitions fsm)) as [trs | e'] eqn:Htrs; cbn; [done |].
    intros [= ->]. apply for_each_Raise in Htrs as (t & Ht & He).
    exists t. split; [done |]. by apply transition_records_Raise.
Qed.

(** C7, as stated, fails: a model whose initial state, accepting state,
    state output and transition output are in no table is constructed and
    encoded without any error. *)
Lemma undefined_symbols_not_rejected :
  ∃ fsm out,
    json_to_fsm dangling_data = Ok fsm ∧ fsm_to_hex fsm = Ok out
    ∧ initial fsm = Some "Z" ∧ ("Z" ∉ states fsm)
    ∧ "Y" ∈ accepting fsm ∧ ("Y" ∉ states fsm)
    ∧ state_outputs fsm !! "A" = Some "V" ∧ ("V" ∉ output_alphabet fsm).
Proof.
  eexists. eexists. split_and!.
  - reflexivity.
  - vm_compute. reflexivity.
  - reflexivity.
  - cbn. by intros ?%list_elem_of_singleton.
  - cbn. by apply list_elem_of_singleton.
  - cbn. by intros ?%list_elem_of_singleton.
  - reflexivity.
  - cbn. apply not_elem_of_nil.
Qed.

(** ** The encoder on record tuples *)

Lemma getitem_state_id fsm s :
  s ∈ states fsm → getitem (index_dict (states fsm)) s = Ok (state_id fsm s).
Proof. apply getitem_index_dict. Qed.

Lemma state_decl_records_tuples fsm :
  state_decl_records fsm (index_dict (states fsm)) (index_dict (output_alphabet fsm))
  = Ok (format_tuple <$> (decl_tuple fsm <$> declared_states fsm)).
Proof.
  unfold state_decl_records, declared_states, decl_tuple, is_moore.
  destruct (String.eqb (fsm_type fsm) "moore"); cbn.
  - rewrite <- list_fmap_compose. apply for_each_total.
    intros s Hs. by rewrite getitem_state_id.
  - assert (∀ l, (∀ s, s ∈ l → s ∈ states fsm) →
      for_each (λ state,
         if negb (state_flags fsm state =? 0)
         then bind (getitem (index_dict (states fsm)) state)
                (λ sid, Ok [format_record TYPE_STATE_DECL sid
                              (state_flags fsm state) 0 0])
         else Ok []) l
      = Ok ((λ s, if negb (state_flags fsm s =? 0)
                  then [format_tuple
                          (TYPE_STATE_DECL, state_id fsm s, state_flags fsm s, 0, 0)]
                  else []) <$> l)) as Hfor.
    { intros l Hl. apply for_each_total. intros s Hs.
      destruct (negb (state_flags fsm s =? 0)); [| done].
      by rewrite getitem_state_id by auto. }
    rewrite Hfor by auto. clear Hfor. cbn. f_equal.
    induction (states fsm) as [| s l IH]; [done |].
    rewrite filter_cons, fmap_cons. cbn [concat]. rewrite IH.
    destruct (Z.eqb_spec (state_flags fsm s) 0) as [Hz | Hnz]; cbn [negb].
    + by rewrite decide_False by (by intros ?).
    + by rewrite decide_True by done.
Qed.

Lemma encode_input_field fsm inp_sym :
  (∀ sym, inp_sym = Some sym → is_epsilon_name sym = false → sym ∈ alphabet fsm) →
  encode_input (index_dict (alphabet fsm)) inp_sym = Ok (input_field fsm inp_sym).
Proof.
  intros Hsym. unfold encode_input, input_field. destruct inp_sym as [sym |]; [| done].
  destruct (is_epsilon_name sym) eqn:Heps; [done |].
  by apply getitem_index_dict, Hsym.
Qed.

Lemma transition_records_tuples fsm t :
  transition_refs_defined fsm t →
  transition_records fsm (index_dict (states fsm)) (index_dict (alphabet fsm))
    (index_dict (output_alphabet fsm)) t
  = Ok (format_tuple <$> transition_tuples fsm t).
Proof.
  intros (Hfrom & Hinp & Htgts & Hne).
  unfold transition_records, transition_tuples, encoded_targets, is_mealy in *.
  rewrite getitem_state_id by done. cbn.
  rewrite encode_input_field by done. cbn.
  destruct (String.eqb_spec (fsm_type fsm) "mealy") as [Hty | Hty].
  { destruct (target_list (t_to t)) as [| t0 tl]; [by destruct (Hne Hty) |].
    cbn in Htgts. apply Forall_cons in Htgts as [Ht0 _].
    by rewrite getitem_state_id. }
  destruct (Z.eqb_spec (len (target_list (t_to t))) 1) as [Hlen | Hlen].
  { destruct (target_list (t_to t)) as [| t0 tl]; [done |].
    apply Forall_cons in Htgts as [Ht0 _]. by rewrite getitem_state_id. }
  unfold chain_tuples. rewrite <- list_fmap_compose. apply for_each_total.
  intros [i tg] Hin. cbn. rewrite getitem_state_id; [done |].
  rewrite Forall_forall in Htgts. apply Htgts. by eapply elem_of_enumerate_from.
Qed.

Lemma concat_fmap_fmap {A B C} (f : B → C) (g : A → list B) l :
  concat ((λ x, f <$> g x) <$> l) = f <$> concat (g <$> l).
Proof.
  induction l as [| x l IH]; [done |]. cbn. by rewrite fmap_app, IH.
Qed.

Lemma fsm_to_hex_tuples fsm :
  Forall (transition_refs_defined fsm) (transitions fsm) →
  fsm_to_hex fsm
  = Ok (format_tuple <$> encoded_tuples fsm,
        reverse_dict (index_dict (states fsm)),
        reverse_dict (index_dict (alphabet fsm)),
        reverse_dict (index_dict (output_alphabet fsm))).
Proof.
  intros Hts. unfold fsm_to_hex. rewrite state_decl_records_tuples. cbn.
  rewrite (for_each_total _ (λ t, format_tuple <$> transition_tuples fsm t)).
  2: { intros t Ht. apply transition_records_tuples.
       rewrite Forall_forall in Hts. by apply Hts. }
  cbn. unfold encoded_tuples. by rewrite fmap_app, concat_fmap_fmap.
Qed.

(** ** Ranges of the encoded fields *)

Lemma index_dict_default_range l s :
  0 ≤ default 0 (index_dict l !! s) ∧ (s ∈ l → default 0 (index_dict l !! s) < len l).
Proof.
  destruct (index_dict l !! s) as [j |] eqn:Hj; cbn.
  - apply index_dict_range in Hj. lia.
  - split; [lia |]. intros [j Hj']%index_dict_is_Some. congruence.
Qed.

Lemma index_dict_default_le l s : default 0 (index_dict l !! s) ≤ len l.
Proof.
  destruct (index_dict l !! s) as [j |] eqn:Hj; cbn.
  - apply index_dict_range in Hj. lia.
  - unfold len. lia.
Qed.

Lemma state_flags_range fsm s : 0 ≤ state_flags fsm s ≤ 3.
Proof.
  unfold state_flags. cbn zeta.
  repeat case_bool_decide; change (Z.lor 0 1) with 1; change (Z.lor 1 2) with 3;
    change (Z.lor 0 2) with 2; lia.
Qed.

Lemma moore_out_range fsm s :
  0 ≤ moore_out fsm (index_dict (output_alphabet fsm)) s ≤ len (output_alphabet fsm).
Proof.
  unfold moore_out. destruct (state_outputs fsm !! s) as [o |]; [| unfold len; lia].
  destruct (index_dict (output_alphabet fsm) !! o) as [n |] eqn:Hn; [| unfold len; lia].
  apply index_dict_range in Hn. lia.
Qed.

Lemma input_field_range fsm inp_sym :
  len (alphabet fsm) ≤ 65534 →
  (∀ sym, inp_sym = Some sym → is_epsilon_name sym = false → sym ∈ alphabet fsm) →
  in_range (input_field fsm inp_sym).
Proof.
  intros Hcap Hsym. unfold input_field, in_range.
  destruct inp_sym as [sym |]; [| by unfold EPSILON_INPUT].
  destruct (is_epsilon_name sym) eqn:Heps; [by unfold EPSILON_INPUT |].
  destruct (index_dict_default_range (alphabet fsm) sym) as [? Hlt].
  unfold input_id. specialize (Hlt (Hsym _ eq_refl Heps)). lia.
Qed.

Lemma state_id_in_range fsm s :
  len (states fsm) ≤ 65535 → s ∈ states fsm → in_range (state_id fsm s).
Proof.
  intros Hcap Hs. destruct (index_dict_default_range (states fsm) s) as [? Hlt].
  unfold state_id, in_range. specialize (Hlt Hs). lia.
Qed.

Lemma elem_of_declared_states fsm s : s ∈ declared_states fsm → s ∈ states fsm.
Proof.
  unfold declared_states. destruct (is_moore fsm); [done |].
  by intros [_ ?]%list_elem_of_filter.
Qed.

Lemma transition_tuples_in_range fsm t :
  within_capacity fsm → transition_refs_defined fsm t →
  Forall tuple_in_range (transition_tuples fsm t).
Proof.
  intros (Hcs & Hca & Hco) (Hfrom & Hinp & Htgts & Hne).
  pose proof (state_id_in_range fsm _ Hcs Hfrom) as Hsrc.
  pose proof (input_field_range fsm _ Hca Hinp) as Hin.
  unfold transition_tuples, encoded_targets, is_mealy in *.
  destruct (String.eqb (fsm_type fsm) "mealy").
  { destruct (target_list (t_to t)) as [| t0 tl]; [constructor |].
    cbn in Htgts. apply Forall_cons in Htgts as [Ht0 _].
    apply Forall_singleton. split_and!; try done.
    - apply (state_id_in_range fsm _ Hcs Ht0).
    - unfold output_field, in_range, field4_of. cbn.
      pose proof (index_dict_default_range (output_alphabet fsm) (default "" (t_output t))).
      pose proof (index_dict_default_le (output_alphabet fsm) (default "" (t_output t))).
      lia. }
  destruct (len (target_list (t_to t)) =? 1).
  { destruct (target_list (t_to t)) as [| t0 tl]; [constructor |].
    apply Forall_cons in Htgts as [Ht0 _].
    apply Forall_singleton. split_and!; try done.
    apply (state_id_in_range fsm _ Hcs Ht0). }
  unfold chain_tuples. apply Forall_fmap, Forall_forall. intros [i tg] Hin'.
  split_and!; try done.
  - cbn. apply (state_id_in_range fsm _ Hcs). rewrite Forall_forall in Htgts.
    apply Htgts. by eapply elem_of_enumerate_from.
  - cbn. unfold in_range, field4_of. cbn. destruct (i <? _); lia.
Qed.

Lemma encoded_tuples_in_range fsm :
  within_capacity fsm →
  Forall (transition_refs_defined fsm) (transitions fsm) →
  Forall tuple_in_range (encoded_tuples fsm).
Proof.
  intros Hcap Hts. unfold encoded_tuples. apply Forall_app. split.
  - apply Forall_fmap, Forall_forall. intros s Hs%elem_of_declared_states.
    destruct Hcap as (Hcs & Hca & Hco).
    split_and!; try done.
    + apply (state_id_in_range fsm _ Hcs Hs).
    + pose proof (state_flags_range fsm s). unfold in_range, field2_of. cbn. lia.
    + unfold in_range, field3_of. cbn. destruct (is_moore fsm); [| lia].
      pose proof (moore_out_range fsm s). lia.
  - apply Forall_concat, Forall_fmap. eapply Forall_impl; [exact Hts |].
    intros t Ht. by apply transition_tuples_in_range.
Qed.

Lemma for_each_parse_format rs :
  Forall tuple_in_range rs → for_each parse_record (format_tuple <$> rs) = Ok rs.
Proof.
  induction 1 as [| [[[[t a] b] c] e] rs (Ht & Ha & Hb & Hc & He) _ IH]; [done |].
  cbn in *. unfold format_tuple at 1. cbn.
  rewrite parse_format_record by done. cbn. by rewrite IH.
Qed.

(** ** Loading the labels of an encoding *)







(** ** The decoder state after a record stream *)

Lemma state_ids_record d r : state_ids (decode_record d r) = state_ids d ∪ state_fields r.
Proof.
  destruct r as [[[[ty f1] f2] f3] f4].
  unfold decode_record, state_fields, is_transition_type, rec_type_of, field1_of,
    field3_of. cbn.
  destruct (ty =? TYPE_STATE_DECL); [done |].
  destruct (ty =? TYPE_DFA_TRANSITION); cbn; [set_solver |].
  destruct (ty =? TYPE_MEALY_TRANSITION); cbn; [set_solver |].
  destruct (ty =? TYPE_NFA_MULTI); cbn; set_solver.
Qed.

Lemma add_input_union inp X :
  add_input inp X = X ∪ (if negb (inp =? EPSILON_INPUT) then {[inp]} else ∅).
Proof. unfold add_input. destruct (inp =? EPSILON_INPUT); cbn; set_solver. Qed.

Lemma input_ids_record d r : input_ids (decode_record d r) = input_ids d ∪ input_fields r.
Proof.
  destruct r as [[[[ty f1] f2] f3] f4].
  unfold decode_record, input_fields, is_transition_type, rec_type_of, field2_of. cbn.
  destruct (ty =? TYPE_STATE_DECL) eqn:H2.
  { assert (ty = TYPE_STATE_DECL) as -> by by apply Z.eqb_eq. cbn. set_solver. }
  destruct (ty =? TYPE_DFA_TRANSITION); cbn; [apply add_input_union |].
  destruct (ty =? TYPE_MEALY_TRANSITION); cbn; [apply add_input_union |].
  destruct (ty =? TYPE_NFA_MULTI); cbn; [apply add_input_union | set_solver].
Qed.

Lemma output_ids_record d r :
  output_ids (decode_record d r) = output_ids d ∪ output_fields r.
Proof.
  destruct r as [[[[ty f1] f2] f3] f4].
  unfold decode_record, output_fields, rec_type_of, field3_of, field4_of. cbn.
  destruct (ty =? TYPE_STATE_DECL) eqn:H2.
  { cbn. destruct (f3 =? 0); set_solver. }
  destruct (Z.eqb_spec ty TYPE_DFA_TRANSITION) as [-> | _]; cbn; [set_solver |].
  destruct (ty =? TYPE_MEALY_TRANSITION); cbn; [set_solver |].
  destruct (ty =? TYPE_NFA_MULTI); cbn; set_solver.
Qed.

Lemma state_ids_foldl rs d :
  state_ids (foldl decode_record d rs) = state_ids d ∪ ⋃ (state_fields <$> rs).
Proof.
  revert d. induction rs as [| r rs IH]; intros d; cbn; [set_solver |].
  rewrite IH, state_ids_record. set_solver.
Qed.

Lemma input_ids_foldl rs d :
  input_ids (foldl decode_record d rs) = input_ids d ∪ ⋃ (input_fields <$> rs).
Proof.
  revert d. induction rs as [| r rs IH]; intros d; cbn; [set_solver |].
  rewrite IH, input_ids_record. set_solver.
Qed.

Lemma output_ids_foldl rs d :
  output_ids (foldl decode_record d rs) = output_ids d ∪ ⋃ (output_fields <$> rs).
Proof.
  revert d. induction rs as [| r rs IH]; intros d; cbn; [set_solver |].
  rewrite IH, output_ids_record. set_solver.
Qed.

(** Records other than state declarations leave the variables of the
    declarations alone, and state declarations leave the transitions
    alone. *)
Lemma decode_record_not_decl d r :
  rec_type_of r ≠ TYPE_STATE_DECL →
  initial_state (decode_record d r) = initial_state d
  ∧ accepting_states (decode_record d r) = accepting_states d
  ∧ id_state_outputs (decode_record d r) = id_state_outputs d.
Proof.
  destruct r as [[[[ty f1] f2] f3] f4]. unfold rec_type_of. cbn. intros Hne.
  destruct (Z.eqb_spec ty TYPE_STATE_DECL); [done |].
  destruct (ty =? TYPE_DFA_TRANSITION); [done |].
  destruct (ty =? TYPE_MEALY_TRANSITION); [done |].
  by destruct (ty =? TYPE_NFA_MULTI).
Qed.

Lemma decode_foldl_not_decl rs d :
  Forall (λ r, rec_type_of r ≠ TYPE_STATE_DECL) rs →
  initial_state (foldl decode_record d rs) = initial_state d
  ∧ accepting_states (foldl decode_record d rs) = accepting_states d
  ∧ id_state_outputs (foldl decode_record d rs) = id_state_outputs d.
Proof.
  intros Hrs. revert d. induction Hrs as [| r rs Hr _ IH]; intros d; [done |].
  cbn. destruct (IH (decode_record d r)) as (-> & -> & ->).
  by apply decode_record_not_decl.
Qed.


(** ** Chains of NFA_MULTI records *)

Lemma nfa_step_same acc src inp tgt cont :
  nfa_step (Some (src, inp, acc)) src inp tgt cont
  = if cont =? 0 then ([pending_transition (src, inp, acc ++ [tgt])], None)
    else ([], Some (src, inp, acc ++ [tgt])).
Proof. unfold nfa_step. by rewrite !Z.eqb_refl. Qed.






(** ** The decoder state after the state declarations *)











(** ** Names of the ids of an encoding *)





Lemma NoDup_sorted (X : gset Z) : NoDup (sorted X).
Proof. unfold sorted. rewrite merge_sort_Permutation. apply NoDup_elements. Qed.



(** ** The ids registered by an encoding *)





Lemma single_target (l : list string) : len l = 1 → ∃ t0, l = [t0].
Proof.
  unfold len. destruct l as [| t0 [| t1 l]]; cbn; intros Hlen; [lia | eauto | lia].
Qed.







(** ** The decoder state at the end of an encoding *)

Lemma valid_transition_refs fsm t :
  valid_transition fsm t → transition_refs_defined fsm t.
Proof.
  intros (Hfrom & Hinp & Hne & Htgts & Hout). split_and!; [done | | | done].
  - intros sym Hsym Heps. destruct (Hinp _ Hsym); [congruence | done].
  - unfold encoded_targets. destruct (String.eqb (fsm_type fsm) "mealy"); [| done].
    by apply Forall_take.
Qed.

Lemma valid_model_refs fsm :
  valid_model fsm → Forall (transition_refs_defined fsm) (transitions fsm).
Proof.
  intros Hv. eapply Forall_impl; [apply (valid_transitions _ Hv) |].
  apply valid_transition_refs.
Qed.











(** ** The decoded model of an encoding, field by field *)















(** ** The state outputs of the decoded model *)

Lemma lookup_foldl_insert_fresh (sn onn : Z → string) items
    (acc : gmap string string) s :
  s ∉ (λ p : Z * Z, sn p.1) <$> items →
  (foldl (λ acc p, <[sn p.1 := onn p.2]> acc) acc items) !! s = acc !! s.
Proof.
  revert acc. induction items as [| p items IH]; intros acc Hs; [done |].
  cbn in Hs |- *. apply not_elem_of_cons in Hs as [Hne Hs].
  rewrite IH by done. by rewrite lookup_insert_ne.
Qed.

Lemma lookup_foldl_insert_NoDup (sn onn : Z → string) items
    (acc : gmap string string) p :
  NoDup ((λ p : Z * Z, sn p.1) <$> items) → p ∈ items →
  (foldl (λ acc p, <[sn p.1 := onn p.2]> acc) acc items) !! sn p.1 = Some (onn p.2).
Proof.
  revert acc. induction items as [| q items IH]; intros acc Hnd Hp;
    [by apply elem_of_nil in Hp |].
  cbn in Hnd |- *. apply NoDup_cons in Hnd as [Hq Hnd].
  apply elem_of_cons in Hp as [-> | Hp].
  - rewrite lookup_foldl_insert_fresh by done. apply lookup_insert_eq.
  - by apply IH.
Qed.






(** ** The label table of an encoding as text *)




(** ** Round trip *)







(** ** Chains of three targets *)


(** ** State outputs in the returned model *)

Lemma default_name_inj prefix i j :
  symbol_name prefix ∅ i = symbol_name prefix ∅ j → i = j.
Proof.
  unfold symbol_name. rewrite !lookup_empty. cbn. intros Heq.
  apply (inj (String.app prefix)) in Heq. by apply (inj pretty) in Heq.
Qed.

Lemma dict_set_keys k v d :
  (dict_set k v d).*1 = if decide (k ∈ d.*1) then d.*1 else d.*1 ++ [k].
Proof.
  induction d as [| [k' v'] d IH]; [done |]. cbn.
  destruct (Z.eqb_spec k' k) as [-> | Hne]; cbn.
  - by rewrite decide_True by apply list_elem_of_here.
  - rewrite IH. destruct (decide (k ∈ d.*1)) as [Hin | Hin].
    + by rewrite decide_True by by apply list_elem_of_further.
    + rewrite decide_False; [done |]. intros [? | ?]%elem_of_cons; congruence.
Qed.

Lemma NoDup_dict_set k v d : NoDup d.*1 → NoDup (dict_set k v d).*1.
Proof.
  intros Hnd. rewrite dict_set_keys. destruct (decide (k ∈ d.*1)); [done |].
  apply NoDup_app. split; [done |]. split; [| apply NoDup_singleton].
  intros x Hx ->%list_elem_of_singleton. done.
Qed.

Lemma dict_get_None k d : dict_get k d = None ↔ k ∉ d.*1.
Proof.
  induction d as [| [k' v'] d IH]; cbn.
  - split; [intros _; apply not_elem_of_nil | done].
  - destruct (Z.eqb_spec k' k) as [-> | Hne].
    + split; [done |]. intros Hn. destruct Hn. apply list_elem_of_here.
    + rewrite IH, not_elem_of_cons. naive_solver.
Qed.

Lemma dict_get_Some k v d : dict_get k d = Some v → (k, v) ∈ d.
Proof.
  induction d as [| [k' v'] d IH]; cbn; [done |].
  destruct (Z.eqb_spec k' k) as [-> | Hne].
  - intros [= ->]. apply list_elem_of_here.
  - intros H. by apply list_elem_of_further, IH.
Qed.

(** The state outputs of the returned model, read off the dictionary of
    the decoder, under names that tell the ids apart. *)
Lemma lookup_named_state_outputs (sn onn : Z → string) d k :
  (∀ i j, sn i = sn j → i = j) → NoDup d.*1 →
  foldl (λ acc p, <[sn p.1 := onn p.2]> acc) (∅ : gmap string string) d !! sn k
  = onn <$> dict_get k d.
Proof.
  intros Hinj Hnd.
  assert (NoDup ((λ p : Z * Z, sn p.1) <$> d)) as Hnames.
  { change ((λ p : Z * Z, sn p.1) <$> d) with ((sn ∘ fst) <$> d).
    rewrite (list_fmap_compose fst sn). apply NoDup_fmap_2_strong; [| done].
    intros i j _ _. apply Hinj. }
  destruct (dict_get k d) as [v |] eqn:Hget.
  - apply dict_get_Some in Hget.
    by rewrite (lookup_foldl_insert_NoDup sn onn d ∅ (k, v) Hnames Hget).
  - apply dict_get_None in Hget. rewrite lookup_foldl_insert_fresh; [done |].
    intros (p & Hp & Hin)%list_elem_of_fmap. apply Hinj in Hp. subst k.
    apply Hget. apply list_elem_of_fmap. by exists p.
Qed.

Lemma NoDup_outputs_record d r :
  NoDup (id_state_outputs d).*1 → NoDup (id_state_outputs (decode_record d r)).*1.
Proof.
  intros Hnd. destruct r as [[[[ty f1] f2] f3] f4]. unfold decode_record.
  destruct (ty =? TYPE_STATE_DECL).
  { cbn. destruct (f3 =? 0); [done | by apply NoDup_dict_set]. }
  destruct (ty =? TYPE_DFA_TRANSITION); [done |].
  destruct (ty =? TYPE_MEALY_TRANSITION); [done |].
  by destruct (ty =? TYPE_NFA_MULTI).
Qed.

Lemma NoDup_outputs_foldl rs d :
  NoDup (id_state_outputs d).*1 →
  NoDup (id_state_outputs (foldl decode_record d rs)).*1.
Proof.
  revert d. induction rs as [| r rs IH]; intros d Hd; [done |].
  cbn. by apply IH, NoDup_outputs_record.
Qed.

Lemma dict_get_no_output_decl s rs d :
  no_output_decl s rs →
  dict_get s (id_state_outputs (foldl decode_record d rs))
  = dict_get s (id_state_outputs d).
Proof.
  intros Hrs. revert d. induction Hrs as [| r rs Hr _ IH]; intros d; [done |].
  cbn [foldl]. rewrite IH. destruct r as [[[[ty f1] f2] f3] f4].
  unfold rec_type_of, field1_of, field3_of in Hr. cbn in Hr. unfold decode_record.
  destruct (Z.eqb_spec ty TYPE_STATE_DECL) as [-> | _].
  { cbn. destruct (Z.eqb_spec f3 0) as [| Hne]; [done |].
    apply dict_get_set_ne. intros ->. by apply Hne, Hr. }
  destruct (ty =? TYPE_DFA_TRANSITION); [done |].
  destruct (ty =? TYPE_MEALY_TRANSITION); [done |].
  by destruct (ty =? TYPE_NFA_MULTI).
Qed.

Lemma decoded_state_output tables d s :
  (∀ i j, symbol_name "S" (state_labels tables) i = symbol_name "S" (state_labels tables) j
          → i = j) →
  NoDup (id_state_outputs d).*1 →
  fsm_type (decoded_fsm tables d) = "moore" →
  state_outputs (decoded_fsm tables d) !! symbol_name "S" (state_labels tables) s
  = symbol_name "o" (output_labels tables) <$> dict_get s (id_state_outputs d).
Proof.
  intros Hinj Hnd Hty.
  change (state_outputs (decoded_fsm tables d))
    with (if String.eqb (fsm_type (decoded_fsm tables d)) "moore"
          then foldl (λ acc p, <[symbol_name "S" (state_labels tables) p.1 :=
                                   symbol_name "o" (output_labels tables) p.2]> acc)
                 (∅ : gmap string string) (id_state_outputs d)
          else (∅ : gmap string string)).
  rewrite Hty. cbn [String.eqb]. change (String.eqb "moore" "moore") with true. cbn iota.
  by apply lookup_named_state_outputs.
Qed.

Lemma decoded_state_outputs_dropped tables d :
  fsm_type (decoded_fsm tables d) ≠ "moore" → state_outputs (decoded_fsm tables d) = ∅.
Proof.
  intros Hty.
  change (state_outputs (decoded_fsm tables d))
    with (if String.eqb (fsm_type (decoded_fsm tables d)) "moore"
          then foldl (λ acc p, <[symbol_name "S" (state_labels tables) p.1 :=
                                   symbol_name "o" (output_labels tables) p.2]> acc)
                 (∅ : gmap string string) (id_state_outputs d)
          else (∅ : gmap string string)).
  by destruct (String.eqb_spec (fsm_type (decoded_fsm tables d)) "moore").
Qed.

Lemma decoded_state_output_default d s :
  NoDup (id_state_outputs d).*1 →
  fsm_type (decoded_fsm no_tables d) = "moore" →
  state_outputs (decoded_fsm no_tables d) !! symbol_name "S" ∅ s
  = symbol_name "o" ∅ <$> dict_get s (id_state_outputs d).
Proof.
  intros Hnd Hty. apply (decoded_state_output no_tables d s); [| done | done].
  intros i j. apply default_name_inj.
Qed.

Lemma decoded_kind_default d :
  fsm_type (decoded_fsm no_tables d) = infer_type d (final_transitions d).
Proof. reflexivity. Qed.

Lemma decoded_output_alphabet_default d :
  output_alphabet (decoded_fsm no_tables d) = symbol_name "o" ∅ <$> sorted (output_ids d).
Proof. reflexivity. Qed.

Lemma hex_to_fsm_default rs :
  Forall tuple_in_range rs →
  hex_to_fsm (format_tuple <$> rs) None
  = Ok (decoded_fsm no_tables (foldl decode_record decoder_init rs)).
Proof. intros Hrs. apply hex_to_fsm_ok; [done |]. by apply for_each_parse_format. Qed.

(** C4.  Moore output offset.  Encoder: in a Moore model a state whose
    output symbol has id [n] is declared by a record with output field
    [n + 1], which is among the records [fsm_to_hex] returns when the
    references of the transitions resolve.  Decoder, on one record: a declaration with output field 0
    leaves the recorded outputs and the output ids as they are, one with a
    field [v] other than 0 records the output id [v - 1] for its state.
    Decoder, on the returned model: the output symbol of id [v - 1] is in
    the output alphabet, and when the kind is Moore the model gives the
    state the output of the last declaration with a field other than 0;
    a state none of whose declarations has such a field has no output; a
    stream with a Mealy record decodes to a Mealy model, which has no
    state outputs. *)
Theorem moore_output_offset :
  (∀ fsm state o n,
     fsm_type fsm = "moore" → state ∈ states fsm →
     state_outputs fsm !! state = Some o →
     index_dict (output_alphabet fsm) !! o = Some n →
     ∃ rs sid,
       state_decl_records fsm (index_dict (states fsm))
         (index_dict (output_alphabet fsm)) = Ok rs
       ∧ index_dict (states fsm) !! state = Some sid
       ∧ format_record TYPE_STATE_DECL sid (state_flags fsm state) (n + 1) 0 ∈ rs
       ∧ (Forall (transition_refs_defined fsm) (transitions fsm) →
          ∃ records state_names input_names output_names,
            fsm_to_hex fsm = Ok (records, state_names, input_names, output_names)
            ∧ format_record TYPE_STATE_DECL sid (state_flags fsm state) (n + 1) 0
              ∈ records))
  ∧ (∀ d state_id flags f4,
       let d' := decode_record d (TYPE_STATE_DECL, state_id, flags, 0, f4) in
       id_state_outputs d' = id_state_outputs d ∧ output_ids d' = output_ids d
       ∧ has_moore_outputs d' = has_moore_outputs d)
  ∧ (∀ d state_id flags v f4,
       v ≠ 0 →
       let d' := decode_record d (TYPE_STATE_DECL, state_id, flags, v, f4) in
       dict_get state_id (id_state_outputs d') = Some (v - 1)
       ∧ v - 1 ∈ output_ids d' ∧ has_moore_outputs d' = true)
  ∧ (∀ rs1 state_id flags v f4 rs2,
       let rs := rs1 ++ (TYPE_STATE_DECL, state_id, flags, v, f4) :: rs2 in
       Forall tuple_in_range rs → v ≠ 0 → no_output_decl state_id rs2 →
       ∃ m, hex_to_fsm (format_tuple <$> rs) None = Ok m
          ∧ symbol_name "o" ∅ (v - 1) ∈ output_alphabet m
          ∧ (saw_mealy rs = false →
             fsm_type m = "moore"
             ∧ state_outputs m !! symbol_name "S" ∅ state_id
               = Some (symbol_name "o" ∅ (v - 1)))
          ∧ (saw_mealy rs = true → fsm_type m = "mealy" ∧ state_outputs m = ∅))
  ∧ (∀ rs state_id,
       Forall tuple_in_range rs → no_output_decl state_id rs →
       ∃ m, hex_to_fsm (format_tuple <$> rs) None = Ok m
          ∧ state_outputs m !! symbol_name "S" ∅ state_id = None).
Proof.
  split_and!.
  - intros fsm state o n Hty Hstate Ho Hn.
    destruct (index_dict_is_Some _ _ Hstate) as [sid Hsid].
    set (decl := λ s,
      format_record TYPE_STATE_DECL (default 0 (index_dict (states fsm) !! s))
        (state_flags fsm s) (moore_out fsm (index_dict (output_alphabet fsm)) s) 0).
    exists (decl <$> states fsm), sid. split_and!; [| done | |].
    + unfold state_decl_records. rewrite Hty. cbn.
      apply for_each_total. intros s Hs. by rewrite getitem_index_dict.
    + apply list_elem_of_fmap. exists state. split; [| done].
      unfold decl, moore_out. by rewrite Hsid, Ho, Hn.
    + intros Hrefs. eexists _, _, _, _. split; [by apply fsm_to_hex_tuples |].
      apply list_elem_of_fmap. exists (decl_tuple fsm state). split.
      * unfold format_tuple, decl_tuple, is_moore, state_id, moore_out,
          rec_type_of, field1_of, field2_of, field3_of, field4_of.
        rewrite Hty. cbn. by rewrite Hsid, Ho, Hn.
      * unfold encoded_tuples. apply elem_of_app. left. apply list_elem_of_fmap_2.
        unfold declared_states, is_moore. by rewrite Hty.
  - intros d state_id flags f4. done.
  - intros d state_id flags v f4 Hv. cbn zeta. unfold decode_record. cbn.
    destruct (Z.eqb_spec v 0) as [| _]; [done |].
    split_and!; [apply dict_get_set_eq | set_solver | done].
  - intros rs1 s flags v f4 rs2 rs Hrange Hv Hlater.
    exists (decoded_fsm no_tables (foldl decode_record decoder_init rs)).
    split; [by apply hex_to_fsm_default |].
    set (d := foldl decode_record decoder_init rs).
    assert (has_moore_outputs d = true) as Hmoore.
    { unfold d. rewrite has_moore_outputs_foldl. cbn [has_moore_outputs decoder_init orb].
      apply existsb_exists. exists (TYPE_STATE_DECL, s, flags, v, f4). split.
      - apply (proj1 (list_elem_of_In _ _)). unfold rs. apply elem_of_app. right.
        apply list_elem_of_here.
      - unfold rec_type_of, field3_of. cbn. by destruct (Z.eqb_spec v 0). }
    assert (dict_get s (id_state_outputs d) = Some (v - 1)) as Hget.
    { unfold d, rs. rewrite foldl_app. cbn [foldl].
      rewrite dict_get_no_output_decl by done.
      unfold decode_record. cbn. destruct (Z.eqb_spec v 0) as [| _]; [done |].
      apply dict_get_set_eq. }
    split_and!.
    + rewrite decoded_output_alphabet_default. apply list_elem_of_fmap_2, elem_of_sorted.
      unfold d. rewrite output_ids_foldl. apply elem_of_union. right.
      apply elem_of_union_list. exists {[v - 1]}. split; [| set_solver].
      apply list_elem_of_fmap. exists (TYPE_STATE_DECL, s, flags, v, f4). split.
      * unfold output_fields, rec_type_of, field3_of. cbn.
        by destruct (Z.eqb_spec v 0).
      * unfold rs. apply elem_of_app. right. apply list_elem_of_here.
    + intros Hmealy.
      assert (fsm_type (decoded_fsm no_tables d) = "moore") as Hty.
      { rewrite decoded_kind_default. unfold infer_type, d.
        rewrite has_mealy_foldl, Hmealy. fold d. by rewrite Hmoore. }
      split; [exact Hty |].
      rewrite decoded_state_output_default; [by rewrite Hget | | done].
      apply NoDup_outputs_foldl. constructor.
    + intros Hmealy.
      assert (fsm_type (decoded_fsm no_tables d) = "mealy") as Hty.
      { rewrite decoded_kind_default. unfold infer_type, d.
        by rewrite has_mealy_foldl, Hmealy. }
      split; [exact Hty |]. apply decoded_state_outputs_dropped. by rewrite Hty.
  - intros rs s Hrange Hnone.
    exists (decoded_fsm no_tables (foldl decode_record decoder_init rs)).
    split; [by apply hex_to_fsm_default |].
    set (d := foldl decode_record decoder_init rs).
    destruct (decide (fsm_type (decoded_fsm no_tables d) = "moore")) as [Hty | Hty].
    + rewrite decoded_state_output_default; [| | done].
      * unfold d. by rewrite dict_get_no_output_decl.
      * apply NoDup_outputs_foldl. constructor.
    + by rewrite decoded_state_outputs_dropped.
Qed.

(** ** Epsilon transitions in the records and in the returned model *)

Lemma transition_tuples_nonempty fsm t :
  target_list (t_to t) ≠ [] → transition_tuples fsm t ≠ [].
Proof.
  intros Hne. unfold transition_tuples.
  destruct (target_list (t_to t)) as [| t0 tl]; [done |].
  destruct (is_mealy fsm); [done |].
  destruct (len (t0 :: tl) =? 1); [done |].
  unfold chain_tuples, enumerate. by cbn.
Qed.

Lemma transition_tuples_fields fsm t :
  Forall (λ r, field1_of r = state_id fsm (t_from t)
               ∧ field2_of r = input_field fsm (t_input t))
         (transition_tuples fsm t).
Proof.
  unfold transition_tuples.
  destruct (is_mealy fsm).
  { destruct (target_list (t_to t)); [constructor | by apply Forall_singleton]. }
  destruct (len (target_list (t_to t)) =? 1).
  { destruct (target_list (t_to t)); [constructor | by apply Forall_singleton]. }
  unfold chain_tuples. apply Forall_fmap, Forall_forall. by intros p _.
Qed.

Lemma input_field_epsilon fsm inp_sym :
  inp_sym = None ∨ inp_sym = Some "epsilon" ∨ inp_sym = Some "ε" →
  input_field fsm inp_sym = EPSILON_INPUT.
Proof. by intros [-> | [-> | ->]]. Qed.

Lemma input_ids_all_epsilon rs :
  Forall (λ r, is_transition_type (rec_type_of r) = true → field2_of r = EPSILON_INPUT) rs →
  input_ids (foldl decode_record decoder_init rs) = ∅.
Proof.
  intros Hrs. rewrite input_ids_foldl. change (input_ids decoder_init) with (∅ : gset Z).
  apply set_eq. intros x. rewrite elem_of_union, elem_of_union_list. split; [| set_solver].
  intros [? | (X & (r & -> & Hr)%list_elem_of_fmap & HX)]; [done |].
  rewrite Forall_forall in Hrs. specialize (Hrs r Hr). unfold input_fields in HX.
  destruct (is_transition_type (rec_type_of r)); [| set_solver].
  rewrite Hrs in HX by done. cbn in HX. set_solver.
Qed.

(** A transition of the list stays, or, while its group is pending, is
    replaced by one with the same source and input and more targets. *)
Lemma final_transition_kept d r t :
  t ∈ final_transitions d →
  ∃ t', t' ∈ final_transitions (decode_record d r)
        ∧ it_from t' = it_from t ∧ it_input t' = it_input t
        ∧ (∀ x, x ∈ ids_of_targets (it_to t) → x ∈ ids_of_targets (it_to t')).
Proof.
  intros Ht. destruct r as [[[[ty f1] f2] f3] f4]. unfold decode_record.
  destruct (ty =? TYPE_STATE_DECL); [by exists t |].
  destruct (ty =? TYPE_DFA_TRANSITION).
  { exists t. split; [| done]. revert Ht. unfold final_transitions. cbn.
    destruct (nfa_pending d); rewrite ?elem_of_app; tauto. }
  destruct (ty =? TYPE_MEALY_TRANSITION).
  { exists t. split; [| done]. revert Ht. unfold final_transitions. cbn.
    destruct (nfa_pending d); rewrite ?elem_of_app; tauto. }
  destruct (ty =? TYPE_NFA_MULTI); [| by exists t].
  rewrite final_transitions_nfa_multi. revert Ht. unfold final_transitions.
  destruct (nfa_pending d) as [[[psrc pinp] ptargets] |].
  - destruct (negb (psrc =? f1) || negb (pinp =? f2)).
    + intros Ht. exists t. split; [| done]. apply elem_of_app. by left.
    + intros [Ht | ->%list_elem_of_singleton]%elem_of_app.
      * exists t. split; [| done]. apply elem_of_app. by left.
      * exists (pending_transition (psrc, pinp, ptargets ++ [f3])).
        split_and!; [| done | done |].
        -- apply elem_of_app. right. apply list_elem_of_here.
        -- cbn. intros x Hx. apply elem_of_app. by left.
  - intros Ht. exists t. split; [| done]. apply elem_of_app. by left.
Qed.

Lemma final_transition_kept_foldl rs d t :
  t ∈ final_transitions d →
  ∃ t', t' ∈ final_transitions (foldl decode_record d rs)
        ∧ it_from t' = it_from t ∧ it_input t' = it_input t
        ∧ (∀ x, x ∈ ids_of_targets (it_to t) → x ∈ ids_of_targets (it_to t')).
Proof.
  revert d t. induction rs as [| r rs IH]; intros d t Ht; [by exists t |].
  cbn [foldl].
  destruct (final_transition_kept d r t Ht) as (t1 & Ht1 & Hf1 & Hi1 & Hx1).
  destruct (IH _ t1 Ht1) as (t2 & Ht2 & Hf2 & Hi2 & Hx2).
  exists t2. split_and!; [done | congruence | congruence | auto].
Qed.

(** What one record with input field 0xFFFF does to the decoder. *)
Lemma epsilon_record_decoded d ty f1 f3 f4 :
  let d' := decode_record d (ty, f1, EPSILON_INPUT, f3, f4) in
  input_ids d' = input_ids d
  ∧ (∀ t, t ∈ final_transitions d' → t ∈ final_transitions d ∨ it_input t = None)
  ∧ (ty = TYPE_DFA_TRANSITION ∨ ty = TYPE_MEALY_TRANSITION ∨ ty = TYPE_NFA_MULTI →
     ∃ t, t ∈ final_transitions d' ∧ it_from t = f1 ∧ it_input t = None
          ∧ f3 ∈ ids_of_targets (it_to t)).
Proof.
  cbn zeta. unfold decode_record.
  destruct (Z.eqb_spec ty TYPE_STATE_DECL) as [-> | _].
  { split_and!; [done | auto | intros [? | [? | ?]]; type_codes]. }
  destruct (Z.eqb_spec ty TYPE_DFA_TRANSITION) as [-> | Hn1].
  { split_and!; [done | |].
    - unfold final_transitions. cbn. intros t.
      destruct (nfa_pending d); rewrite ?elem_of_app, ?list_elem_of_singleton;
        intros Ht; [destruct Ht as [[? | ->] | ->] | destruct Ht as [? | ->]]; auto.
    - intros _.
      exists {| it_from := f1; it_input := None; it_to := IdOne f3; it_output := None |}.
      split_and!; [| done | done | apply list_elem_of_here].
      unfold final_transitions. cbn.
      destruct (nfa_pending d); rewrite ?elem_of_app, ?list_elem_of_singleton; auto. }
  destruct (Z.eqb_spec ty TYPE_MEALY_TRANSITION) as [-> | Hn2].
  { split_and!; [done | |].
    - unfold final_transitions. cbn. intros t.
      destruct (nfa_pending d); rewrite ?elem_of_app, ?list_elem_of_singleton;
        intros Ht; [destruct Ht as [[? | ->] | ->] | destruct Ht as [? | ->]]; auto.
    - intros _.
      exists {| it_from := f1; it_input := None; it_to := IdOne f3;
                it_output := Some f4 |}.
      split_and!; [| done | done | apply list_elem_of_here].
      unfold final_transitions. cbn.
      destruct (nfa_pending d); rewrite ?elem_of_app, ?list_elem_of_singleton; auto. }
  destruct (Z.eqb_spec ty TYPE_NFA_MULTI) as [-> | Hne].
  2: { split_and!; [done | auto | intros [? | [? | ?]]; done]. }
  rewrite final_transitions_nfa_multi.
  split_and!; [done | |].
  + intros t. unfold final_transitions.
    destruct (nfa_pending d) as [[[psrc pinp] ptargets] |].
    * destruct (Z.eqb_spec psrc f1) as [-> | ?];
        destruct (Z.eqb_spec pinp EPSILON_INPUT) as [-> | ?]; cbn;
        rewrite ?elem_of_app, ?list_elem_of_singleton;
        intros Ht; destruct_or!; subst; auto.
    * rewrite ?elem_of_app, ?list_elem_of_singleton. intros [? | ->]; auto.
  + intros _. unfold final_transitions.
    destruct (nfa_pending d) as [[[psrc pinp] ptargets] |].
    * destruct (negb (psrc =? f1) || negb (pinp =? EPSILON_INPUT)) eqn:Hmatch.
      -- exists (pending_transition (f1, EPSILON_INPUT, [f3])).
         split_and!; [| done | done | apply list_elem_of_here].
         apply elem_of_app. right. apply list_elem_of_here.
      -- apply orb_false_elim in Hmatch as [Hs%negb_false_iff Hi%negb_false_iff].
         apply Z.eqb_eq in Hs as ->. apply Z.eqb_eq in Hi as ->.
         exists (pending_transition (f1, EPSILON_INPUT, ptargets ++ [f3])).
         split_and!; [| done | done |].
         ++ apply elem_of_app. right. apply list_elem_of_here.
         ++ cbn. apply elem_of_app. right. apply list_elem_of_here.
    * exists (pending_transition (f1, EPSILON_INPUT, [f3])).
      split_and!; [| done | done | apply list_elem_of_here].
      apply elem_of_app. right. apply list_elem_of_here.
Qed.

Lemma is_transition_type_cases ty :
  is_transition_type ty = true
  ↔ ty = TYPE_DFA_TRANSITION ∨ ty = TYPE_MEALY_TRANSITION ∨ ty = TYPE_NFA_MULTI.
Proof.
  unfold is_transition_type. rewrite !orb_true_iff, !Z.eqb_eq. tauto.
Qed.

Lemma final_transitions_other d r :
  is_transition_type (rec_type_of r) = false →
  final_transitions (decode_record d r) = final_transitions d.
Proof.
  destruct r as [[[[ty f1] f2] f3] f4]. unfold rec_type_of, is_transition_type. cbn.
  intros [[H1 H2]%orb_false_elim H3]%orb_false_elim. unfold decode_record.
  rewrite H1, H2, H3. by destruct (ty =? TYPE_STATE_DECL).
Qed.

Lemma epsilon_inputs_foldl rs d :
  Forall (λ r, is_transition_type (rec_type_of r) = true → field2_of r = EPSILON_INPUT) rs →
  Forall (λ t, it_input t = None) (final_transitions d) →
  Forall (λ t, it_input t = None) (final_transitions (foldl decode_record d rs)).
Proof.
  intros Hrs. revert d. induction Hrs as [| r rs Hr _ IH]; intros d Hd; [done |].
  cbn [foldl]. apply IH.
  destruct (is_transition_type (rec_type_of r)) eqn:Hty.
  - destruct r as [[[[ty f1] f2] f3] f4]. cbn in Hr. rewrite Hr by done.
    destruct (epsilon_record_decoded d ty f1 f3 f4) as (_ & Hin & _).
    apply Forall_forall. intros t [Ht | Ht]%Hin; [| done].
    rewrite Forall_forall in Hd. by apply Hd.
  - by rewrite final_transitions_other.
Qed.

Lemma epsilon_transition_foldl rs1 r rs2 d :
  is_transition_type (rec_type_of r) = true → field2_of r = EPSILON_INPUT →
  ∃ t, t ∈ final_transitions (foldl decode_record d (rs1 ++ r :: rs2))
       ∧ it_from t = field1_of r ∧ it_input t = None
       ∧ field3_of r ∈ ids_of_targets (it_to t).
Proof.
  intros Hty Heps. rewrite foldl_app. cbn [foldl].
  destruct r as [[[[ty f1] f2] f3] f4]. cbn in Hty, Heps. subst f2.
  destruct (epsilon_record_decoded (foldl decode_record d rs1) ty f1 f3 f4)
    as (_ & _ & Hex).
  destruct (Hex (proj1 (is_transition_type_cases ty) Hty)) as (t & Ht & Hf & Hi & Hx).
  destruct (final_transition_kept_foldl rs2 _ t Ht) as (t' & Ht' & Hf' & Hi' & Hx').
  exists t'. split_and!; [done | by rewrite Hf' | by rewrite Hi' | by apply Hx'].
Qed.

Lemma named_transition_targets sn inn onn t :
  target_list (t_to (named_transition sn inn onn t)) = sn <$> ids_of_targets (it_to t).
Proof. by destruct t as [? ? [] ?]. Qed.

(** C3.  Epsilon handling.  Encoder: a transition without input symbol, or
    with an epsilon marker as input, is encoded with input field 0xFFFF in
    each of its records; when its source and targets are states of the
    model (and so are those of the other transitions) the encoder returns
    a stream that holds these records, at least one.  Decoder, on one
    record with input field 0xFFFF: the set of input ids stays as it is,
    the transitions added or extended have no input, and a transition
    record is held by such a transition; naming keeps the input absent.
    Decoder, on the returned model: the alphabet lists one name per input
    id of a transition record other than 0xFFFF, every input of a
    transition is one of these names, every transition record with input
    field 0xFFFF is held by a transition without input, and a stream whose
    transition records all carry 0xFFFF decodes to a model with an empty
    alphabet whose transitions have no input. *)
Theorem epsilon_handling :
  (∀ fsm state_idx input_idx output_idx t rs,
     t_input t = None ∨ t_input t = Some "epsilon" ∨ t_input t = Some "ε" →
     transition_records fsm state_idx input_idx output_idx t = Ok rs →
     Forall (λ r, ∃ ty f1 f3 f4, r = format_record ty f1 EPSILON_INPUT f3 f4) rs)
  ∧ (∀ fsm t,
       t_input t = None ∨ t_input t = Some "epsilon" ∨ t_input t = Some "ε" →
       t ∈ transitions fsm →
       Forall (transition_refs_defined fsm) (transitions fsm) →
       target_list (t_to t) ≠ [] →
       ∃ records state_names input_names output_names rs before after,
         fsm_to_hex fsm = Ok (records, state_names, input_names, output_names)
         ∧ transition_records fsm (index_dict (states fsm)) (index_dict (alphabet fsm))
             (index_dict (output_alphabet fsm)) t = Ok rs
         ∧ rs ≠ [] ∧ records = before ++ rs ++ after
         ∧ Forall (λ r, ∃ ty f3 f4,
                     r = format_record ty (state_id fsm (t_from t)) EPSILON_INPUT f3 f4) rs)
  ∧ (∀ d ty f1 f3 f4,
       let d' := decode_record d (ty, f1, EPSILON_INPUT, f3, f4) in
       input_ids d' = input_ids d
       ∧ (∀ t, t ∈ final_transitions d' → t ∈ final_transitions d ∨ it_input t = None)
       ∧ (ty = TYPE_DFA_TRANSITION ∨ ty = TYPE_MEALY_TRANSITION ∨ ty = TYPE_NFA_MULTI →
          ∃ t, t ∈ final_transitions d' ∧ it_from t = f1 ∧ it_input t = None
               ∧ f3 ∈ ids_of_targets (it_to t)))
  ∧ (∀ state_map input_map output_map t t',
       it_input t = None →
       name_transition state_map input_map output_map t = Ok t' →
       t_input t' = None)
  ∧ (∀ rs labels tables,
       Forall tuple_in_range rs → load_tables labels = Ok tables →
       ∃ m ids,
         hex_to_fsm (format_tuple <$> rs) labels = Ok m
         ∧ alphabet m = symbol_name "i" (input_labels tables) <$> ids
         ∧ NoDup ids
         ∧ (∀ i, i ∈ ids ↔
                 i ≠ EPSILON_INPUT
                 ∧ ∃ r, r ∈ rs ∧ is_transition_type (rec_type_of r) = true
                        ∧ field2_of r = i)
         ∧ Forall (λ t, ∀ x, t_input t = Some x →
                     ∃ i, i ∈ ids ∧ x = symbol_name "i" (input_labels tables) i)
             (transitions m)
         ∧ (∀ r, r ∈ rs → is_transition_type (rec_type_of r) = true →
              field2_of r = EPSILON_INPUT →
              ∃ t, t ∈ transitions m
                   ∧ t_from t = symbol_name "S" (state_labels tables) (field1_of r)
                   ∧ t_input t = None
                   ∧ symbol_name "S" (state_labels tables) (field3_of r)
                     ∈ target_list (t_to t))
         ∧ (Forall (λ r, is_transition_type (rec_type_of r) = true →
                         field2_of r = EPSILON_INPUT) rs →
            alphabet m = [] ∧ Forall (λ t, t_input t = None) (transitions m))).
Proof.
  split_and!.
  - intros fsm sidx iidx oidx t rs Heps Hrs. unfold transition_records in Hrs.
    destruct (getitem sidx (t_from t)) as [src | e]; [| done]. cbn in Hrs.
    rewrite (encode_input_epsilon _ _ Heps) in Hrs. cbn in Hrs.
    destruct (String.eqb (fsm_type fsm) "mealy").
    { destruct (target_list (t_to t)) as [| t0 tl]; [done |].
      destruct (getitem sidx t0) as [tgt | e]; [| done]. cbn in Hrs.
      inversion Hrs; subst. apply Forall_singleton. eauto. }
    destruct (len (target_list (t_to t)) =? 1).
    { destruct (target_list (t_to t)) as [| t0 tl]; [done |].
      destruct (getitem sidx t0) as [tgt | e]; [| done]. cbn in Hrs.
      inversion Hrs; subst. apply Forall_singleton. eauto. }
    eapply for_each_Ok_Forall; [| exact Hrs].
    intros p r _ Hr. cbn in Hr.
    destruct (getitem sidx p.2) as [tgt | e]; [| done]. cbn in Hr.
    inversion Hr; subst. eauto.
  - intros fsm t Heps Ht Hrefs Htargets.
    pose proof Ht as (ts1 & ts2 & Hts)%list_elem_of_split.
    exists (format_tuple <$> encoded_tuples fsm),
      (reverse_dict (index_dict (states fsm))),
      (reverse_dict (index_dict (alphabet fsm))),
      (reverse_dict (index_dict (output_alphabet fsm))),
      (format_tuple <$> transition_tuples fsm t),
      (format_tuple <$> ((decl_tuple fsm <$> declared_states fsm)
                         ++ concat (transition_tuples fsm <$> ts1))),
      (format_tuple <$> concat (transition_tuples fsm <$> ts2)).
    split_and!.
    + by apply fsm_to_hex_tuples.
    + apply transition_records_tuples. rewrite Forall_forall in Hrefs. by apply Hrefs.
    + intros Hnil%fmap_nil_inv. by apply (transition_tuples_nonempty fsm t).
    + unfold encoded_tuples.
      rewrite Hts, (fmap_app (transition_tuples fsm) ts1), concat_app, fmap_cons,
        concat_cons.
      rewrite !fmap_app. by rewrite <- !app_assoc.
    + apply Forall_fmap. eapply Forall_impl; [apply transition_tuples_fields |].
      intros [[[[ty f1] f2] f3] f4] [H1 H2]. cbn in H1, H2. cbn.
      exists ty, f3, f4. unfold format_tuple. cbn.
      by rewrite H1, H2, (input_field_epsilon _ _ Heps).
  - intros d ty f1 f3 f4. apply epsilon_record_decoded.
  - intros sm im om t t' Hnone Ht'. unfold name_transition in Ht'.
    destruct (getitem_int sm (it_from t)); [| done]. cbn in Ht'.
    destruct (name_targets sm (it_to t)); [| done]. cbn in Ht'.
    destruct (match it_output t with Some _ => _ | None => _ end); [| done].
    cbn in Ht'. inversion Ht'; subst. cbn. by rewrite Hnone.
  - intros rs labels tables Hrange Htables.
    set (d := foldl decode_record decoder_init rs).
    exists (decoded_fsm tables d), (sorted (input_ids d)).
    split_and!.
    + apply hex_to_fsm_ok; [done |]. by apply for_each_parse_format.
    + reflexivity.
    + apply NoDup_sorted.
    + intros i. rewrite elem_of_sorted. unfold d. rewrite input_ids_foldl.
      change (input_ids decoder_init) with (∅ : gset Z).
      rewrite elem_of_union, elem_of_union_list. split.
      * intros [? | (X & (r & -> & Hr)%list_elem_of_fmap & HX)]; [set_solver |].
        unfold input_fields in HX.
        destruct (is_transition_type (rec_type_of r)) eqn:Hty; [| set_solver].
        destruct (Z.eqb_spec (field2_of r) EPSILON_INPUT) as [| Hne]; cbn in HX;
          [set_solver |].
        apply elem_of_singleton in HX as ->. eauto.
      * intros (Hne & r & Hr & Hty & <-). right. exists (input_fields r).
        split; [by apply list_elem_of_fmap_2 |]. unfold input_fields. rewrite Hty.
        destruct (Z.eqb_spec (field2_of r) EPSILON_INPUT); [done |]. cbn. set_solver.
    + pose proof (decoder_inv_foldl rs _ decoder_inv_init) as Hinv.
      fold d in Hinv. destruct Hinv as [Hts _ _ _].
      change (transitions (decoded_fsm tables d))
        with (named_transition (symbol_name "S" (state_labels tables))
                (symbol_name "i" (input_labels tables))
                (symbol_name "o" (output_labels tables)) <$> final_transitions d).
      apply Forall_fmap. eapply Forall_impl; [exact Hts |].
      intros t [_ _ Hin _] x Hx. cbn in Hx.
      destruct (it_input t) as [i |] eqn:Hi; [| done].
      exists i. split; [apply elem_of_sorted; by apply Hin | by inversion Hx].
    + intros r (rs1 & rs2 & Hrs)%list_elem_of_split Hty Heps.
      destruct (epsilon_transition_foldl rs1 r rs2 decoder_init Hty Heps)
        as (t & Ht & Hf & Hi & Hx).
      rewrite <- Hrs in Ht. fold d in Ht.
      exists (named_transition (symbol_name "S" (state_labels tables))
                (symbol_name "i" (input_labels tables))
                (symbol_name "o" (output_labels tables)) t).
      split_and!.
      * by apply (list_elem_of_fmap_2 _ (final_transitions d)).
      * cbn. by rewrite Hf.
      * cbn. by rewrite Hi.
      * rewrite named_transition_targets. by apply list_elem_of_fmap_2.
    + intros Hall. split.
      * change (alphabet (decoded_fsm tables d))
          with (symbol_name "i" (input_labels tables) <$> sorted (input_ids d)).
        unfold d. rewrite (input_ids_all_epsilon rs Hall). done.
      * change (transitions (decoded_fsm tables d))
          with (named_transition (symbol_name "S" (state_labels tables))
                  (symbol_name "i" (input_labels tables))
                  (symbol_name "o" (output_labels tables)) <$> final_transitions d).
        apply Forall_fmap.
        eapply Forall_impl; [apply (epsilon_inputs_foldl rs decoder_init Hall) |].
        -- constructor.
        -- intros t Ht. cbn. by rewrite Ht.
Qed.

(** * The theorems on sample machines *)

Lemma valid_chain_model : valid_model chain_model.
Proof.
  split; cbn.
  - set_solver.
  - repeat (apply NoDup_cons; split; [set_solver |]). constructor.
  - repeat (apply NoDup_cons; split; [set_solver |]). constructor.
  - constructor.
  - unfold within_capacity, len. cbn. lia.
  - intros s [= <-]. set_solver.
  - apply Forall_singleton. set_solver.
  - apply Forall_cons. split; [| apply Forall_singleton]; unfold valid_transition; cbn.
    + split_and!; [set_solver | | done | | done].
      * intros x [= <-]. right. set_solver.
      * apply Forall_cons. split; [set_solver |].
        apply Forall_cons. split; [set_solver |].
        apply Forall_singleton. set_solver.
    + split_and!; [set_solver | done | done | | done].
      apply Forall_singleton. set_solver.
  - intros s o. by rewrite lookup_empty.
Qed.




Lemma epsilon_handling_witness :
  (∃ records state_names input_names output_names rs before after,
     fsm_to_hex chain_model = Ok (records, state_names, input_names, output_names)
     ∧ transition_records chain_model (index_dict (states chain_model))
         (index_dict (alphabet chain_model)) (index_dict (output_alphabet chain_model))
         (mk_transition "B" None (ToStr "C") None) = Ok rs
     ∧ rs ≠ [] ∧ records = before ++ rs ++ after
     ∧ Forall (λ r, ∃ ty f3 f4,
                 r = format_record ty (state_id chain_model "B") EPSILON_INPUT f3 f4) rs)
  ∧ (∃ t, t ∈ final_transitions
            (decode_record decoder_init (TYPE_DFA_TRANSITION, 1, EPSILON_INPUT, 2, 0))
          ∧ it_from t = 1 ∧ it_input t = None ∧ 2 ∈ ids_of_targets (it_to t))
  ∧ (∃ m, hex_to_fsm (format_tuple <$> encoded_tuples chain_model) None = Ok m
          ∧ ∃ t, t ∈ transitions m ∧ t_from t = symbol_name "S" ∅ 1
                 ∧ t_input t = None ∧ symbol_name "S" ∅ 2 ∈ target_list (t_to t))
  ∧ (∃ m, hex_to_fsm (format_tuple <$> [(TYPE_DFA_TRANSITION, 1, EPSILON_INPUT, 2, 0)])
            None = Ok m
          ∧ alphabet m = [] ∧ Forall (λ t, t_input t = None) (transitions m)).
Proof.
  destruct epsilon_handling as (_ & Henc & Hstep & _ & Hdec).
  split_and!.
  - apply (Henc chain_model (mk_transition "B" None (ToStr "C") None)).
    + left. reflexivity.
    + apply list_elem_of_further, list_elem_of_here.
    + apply valid_model_refs, valid_chain_model.
    + discriminate.
  - destruct (Hstep decoder_init TYPE_DFA_TRANSITION 1 2 0) as (_ & _ & Hex).
    apply Hex. left. reflexivity.
  - destruct (Hdec (encoded_tuples chain_model) None no_tables)
      as (m & ids & Hm & _ & _ & _ & _ & Hex & _).
    + apply encoded_tuples_in_range;
        [unfold within_capacity, len; cbn; lia | apply valid_model_refs, valid_chain_model].
    + reflexivity.
    + exists m. split; [exact Hm |].
      apply (Hex (TYPE_DFA_TRANSITION, 1, EPSILON_INPUT, 2, 0)).
      * assert (encoded_tuples chain_model
                = [(2, 0, 1, 0, 0); (2, 3, 2, 0, 0); (3, 0, 0, 1, 1); (3, 0, 0, 2, 1);
                   (3, 0, 0, 3, 0); (TYPE_DFA_TRANSITION, 1, EPSILON_INPUT, 2, 0)]) as ->
          by (vm_compute; reflexivity).
        do 5 apply list_elem_of_further. apply list_elem_of_here.
      * reflexivity.
      * reflexivity.
  - destruct (Hdec [(TYPE_DFA_TRANSITION, 1, EPSILON_INPUT, 2, 0)] None no_tables)
      as (m & ids & Hm & _ & _ & _ & _ & _ & Hall).
    + apply Forall_singleton.
      unfold tuple_in_range, in_range, TYPE_DFA_TRANSITION, EPSILON_INPUT; cbn; lia.
    + reflexivity.
    + exists m. split; [exact Hm |]. apply Hall. by apply Forall_singleton.
Defined.

Lemma moore_output_offset_witness :
  (∃ sid records state_names input_names output_names,
     index_dict (states moore_model) !! "A" = Some sid
     ∧ fsm_to_hex moore_model = Ok (records, state_names, input_names, output_names)
     ∧ format_record TYPE_STATE_DECL sid (state_flags moore_model "A") (2 + 1) 0
       ∈ records)
  ∧ dict_get 7
      (id_state_outputs (decode_record decoder_init (TYPE_STATE_DECL, 7, 0, 3, 0)))
    = Some (3 - 1)
  ∧ (∃ m, hex_to_fsm (format_tuple <$> ([(0, 7, 0, 8, 0)] ++ (TYPE_STATE_DECL, 7, 0, 3, 0)
                                          :: [(TYPE_STATE_DECL, 7, 1, 0, 0)])) None = Ok m
        ∧ fsm_type m = "moore"
        ∧ state_outputs m !! symbol_name "S" ∅ 7 = Some (symbol_name "o" ∅ (3 - 1)))
  ∧ (∃ m, hex_to_fsm (format_tuple <$> [(0, 7, 0, 8, 0); (TYPE_STATE_DECL, 7, 1, 0, 0)]) None
          = Ok m
        ∧ state_outputs m !! symbol_name "S" ∅ 7 = None).
Proof.
  destruct moore_output_offset as (Henc & _ & Hdec & Hmodel & Hnone).
  split_and!.
  - destruct (Henc moore_model "A" "hi" 2) as (rs & sid & _ & Hsid & _ & Hhex).
    + reflexivity.
    + cbn. set_solver.
    + vm_compute. reflexivity.
    + vm_compute. reflexivity.
    + destruct Hhex as (records & sn & inn & onn & Hrecords & Hin).
      * apply Forall_singleton. unfold transition_refs_defined. cbn.
        split_and!; [set_solver | intros sym [= <-] _; set_solver
                    | apply Forall_singleton; set_solver | done].
      * exists sid, records, sn, inn, onn. by split_and!.
  - apply (Hdec decoder_init 7 0 3 0). lia.
  - destruct (Hmodel [(0, 7, 0, 8, 0)] 7 0 3 0 [(TYPE_STATE_DECL, 7, 1, 0, 0)])
      as (m & Hm & _ & Hmoore & _).
    + repeat (apply Forall_cons_2 || apply Forall_nil_2);
        unfold tuple_in_range, in_range, TYPE_STATE_DECL; cbn; lia.
    + lia.
    + apply Forall_singleton. by intros _ _.
    + exists m. split; [exact Hm |]. by apply Hmoore.
  - apply (Hnone [(0, 7, 0, 8, 0); (TYPE_STATE_DECL, 7, 1, 0, 0)] 7).
    + repeat (apply Forall_cons_2 || apply Forall_nil_2);
        unfold tuple_in_range, in_range, TYPE_STATE_DECL; cbn; lia.
    + repeat (apply Forall_cons_2 || apply Forall_nil_2); by intros.
Defined.

Lemma type_inference_priority_witness :
  ∃ rs m,
    for_each parse_record mixed_stream = Ok rs
    ∧ hex_to_fsm mixed_stream None = Ok m
    ∧ fsm_type m = "mealy".
Proof.
  eexists _, _. split; [vm_compute; reflexivity |].
  split; [vm_compute; reflexivity |].
  eapply (type_inference_priority mixed_stream None).
  - vm_compute. reflexivity.
  - vm_compute. reflexivity.
  - reflexivity.
  - vm_compute. reflexivity.
Defined.

Lemma references_checked_by_encoder_witness :
  (∃ fsm, json_to_fsm dangling_data = Ok fsm)
  ∧ (∃ out, fsm_to_hex chain_model = Ok out)
  ∧ (∃ t, t ∈ transitions broken_model
        ∧ ((∃ k, KeyError "Q" = KeyError k
              ∧ ((k = t_from t ∧ k ∉ states broken_model)
                 ∨ (t_input t = Some k ∧ is_epsilon_name k = false
                    ∧ k ∉ alphabet broken_model)
                 ∨ (k ∈ encoded_targets broken_model t ∧ k ∉ states broken_model)))
           ∨ (KeyError "Q" = IndexError ∧ fsm_type broken_model = "mealy"
              ∧ target_list (t_to t) = []))).
Proof.
  destruct references_checked_by_encoder as (Hjson & Hok & Hraise).
  split_and!.
  - apply Hjson; unfold len; cbn; lia.
  - apply Hok. apply valid_model_refs, valid_chain_model.
  - apply Hraise. vm_compute. reflexivity.
Defined.

Lemma nfa_chain_boundary_tolerance_witness :
  (∃ m, hex_to_fsm irregular_stream None = Ok m
      ∧ transitions m
        = [mk_transition "S0" (Some "i0") (ToList ["S1"]) None;
           mk_transition "S2" (Some "i0") (ToList ["S1"]) None])
  ∧ id_transitions
      (decode_record (decode_record decoder_init (TYPE_NFA_MULTI, 0, 0, 1, 1))
         (TYPE_NFA_MULTI, 2, 0, 1, 1))
    = [pending_transition (0, 0, [1])]
  ∧ final_transitions (decode_record decoder_init (TYPE_NFA_MULTI, 0, 0, 1, 1))
    = [pending_transition (0, 0, [1])].
Proof.
  destruct nfa_chain_boundary_tolerance as (Htotal & Hflush & Hend).
  split_and!.
  - destruct (Htotal irregular_stream None no_tables
                [(3, 0, 0, 1, 1); (3, 2, 0, 1, 1)]) as (m & Hm & Hts).
    + reflexivity.
    + vm_compute. reflexivity.
    + exists m. split; [exact Hm |]. rewrite Hts. vm_compute. reflexivity.
  - destruct (Hflush (decode_record decoder_init (TYPE_NFA_MULTI, 0, 0, 1, 1))
                0 0 [1] 2 0 1 1) as [Hts _].
    + reflexivity.
    + left. lia.
    + exact Hts.
  - apply (Hend (decode_record decoder_init (TYPE_NFA_MULTI, 0, 0, 1, 1)) (0, 0, [1])).
    reflexivity.
Defined.

Lemma mealy_multi_target_truncation_witness :
  transition_records mealy_model (index_dict (states mealy_model))
    (index_dict (alphabet mealy_model)) (index_dict (output_alphabet mealy_model))
    (mk_transition "A" (Some "x") (ToList ["B"; "C"]) (Some "o"))
  = Ok ["0001 0000:0000 0001:0000"].
Proof.
  destruct (mealy_multi_target_truncation mealy_model (index_dict (states mealy_model))
              (index_dict (alphabet mealy_model))
              (index_dict (output_alphabet mealy_model))
              (mk_transition "A" (Some "x") (ToList ["B"; "C"]) (Some "o"))
              "B" "C" [] 0 0 1) as [Hrec _].
  - reflexivity.
  - reflexivity.
  - vm_compute. reflexivity.
  - vm_compute. reflexivity.
  - vm_compute. reflexivity.
  - exact Hrec.
Defined.

Lemma decoded_model_well_formed_witness :
  ∃ m, hex_to_fsm irregular_stream None = Ok m ∧ well_formed m.
Proof.
  eexists. split; [vm_compute; reflexivity |].
  apply (decoded_model_well_formed irregular_stream None).
  vm_compute. reflexivity.
Defined.

(** * Further properties *)

(** ** Capacity checks of [json_to_fsm] *)

Lemma json_to_fsm_within_capacity data fsm :
  json_to_fsm data = Ok fsm → within_capacity fsm.
Proof.
  unfold json_to_fsm, within_capacity. cbn.
  destruct (Z.ltb_spec 65535 (len (default [] (j_states data)))); [done |].
  destruct (Z.ltb_spec 65534 (len (default [] (j_alphabet data)))); [done |].
  destruct (Z.ltb_spec 65535 (len (default [] (j_output_alphabet data)))); [done |].
  intros [= <-]. cbn. lia.
Qed.

(** X1.  The capacity checks of [json_to_fsm] are what the record format
    needs: when [json_to_fsm] returns a model and the encoder resolves
    the references of its transitions, every field of every record of the
    encoding fits in 16 bits, so that each record is read back by
    [parse_record] as the five fields it was written from; no input
    symbol a transition reads gets the id 0xFFFF of the epsilon marker;
    and the records decode. *)
Theorem accepted_model_fits_16_bits data fsm :
  json_to_fsm data = Ok fsm →
  Forall (transition_refs_defined fsm) (transitions fsm) →
  ∃ records state_names input_names output_names,
    fsm_to_hex fsm = Ok (records, state_names, input_names, output_names)
    ∧ Forall (λ record, ∃ r, record = format_tuple r ∧ tuple_in_range r
                             ∧ parse_record record = Ok r) records
    ∧ (∀ x, x ∈ alphabet fsm → input_id fsm x ≠ EPSILON_INPUT)
    ∧ ∃ m, hex_to_fsm records None = Ok m.
Proof.
  intros Hcap%json_to_fsm_within_capacity Hrefs.
  pose proof (encoded_tuples_in_range fsm Hcap Hrefs) as Hrange.
  eexists _, _, _, _. split_and!.
  - by apply fsm_to_hex_tuples.
  - apply Forall_fmap. eapply Forall_impl; [exact Hrange |].
    intros [[[[ty f1] f2] f3] f4] Hr. exists (ty, f1, f2, f3, f4).
    split_and!; [done | done |].
    destruct Hr as (? & ? & ? & ? & ?). by apply parse_format_record.
  - intros x Hx. destruct Hcap as (_ & Hca & _).
    destruct (index_dict_default_range (alphabet fsm) x) as [_ Hlt].
    specialize (Hlt Hx). unfold input_id, EPSILON_INPUT. lia.
  - eexists. apply hex_to_fsm_ok; [done |]. by apply for_each_parse_format.
Qed.

Lemma accepted_model_fits_16_bits_witness :
  json_to_fsm (fsm_to_json chain_model) = Ok chain_model
  ∧ ∃ records state_names input_names output_names,
      fsm_to_hex chain_model = Ok (records, state_names, input_names, output_names)
      ∧ Forall (λ record, ∃ r, record = format_tuple r ∧ tuple_in_range r
                               ∧ parse_record record = Ok r) records
      ∧ (∀ x, x ∈ alphabet chain_model → input_id chain_model x ≠ EPSILON_INPUT)
      ∧ ∃ m, hex_to_fsm records None = Ok m.
Proof.
  assert (json_to_fsm (fsm_to_json chain_model) = Ok chain_model) as Hjson
    by reflexivity.
  split; [exact Hjson |].
  apply (accepted_model_fits_16_bits (fsm_to_json chain_model) chain_model Hjson).
  apply valid_model_refs, valid_chain_model.
Defined.

(** ** Record texts *)

(** X2.  A record written by [format_record] from five 16-bit fields is
    read back by [parse_record] as the same five fields. *)
Theorem record_round_trip rec_type field1 field2 field3 field4 :
  in_range rec_type → in_range field1 → in_range field2 → in_range field3 →
  in_range field4 →
  parse_record (format_record rec_type field1 field2 field3 field4)
  = Ok (rec_type, field1, field2, field3, field4).
Proof. apply parse_format_record. Qed.

Lemma record_round_trip_witness :
  parse_record (format_record 3 10 65535 255 1) = Ok (3, 10, 65535, 255, 1).
Proof. apply record_round_trip; unfold in_range; lia. Defined.

Lemma hex_value_char c d : hex_value c = Some d → hex_char c d ∧ 0 ≤ d < 16.
Proof.
  destruct c as [[] [] [] [] [] [] [] []]; vm_compute; intros [= <-];
    (split; [by split | done]).
Qed.

Lemma val4_range d3 d2 d1 d0 :
  0 ≤ d3 < 16 → 0 ≤ d2 < 16 → 0 ≤ d1 < 16 → 0 ≤ d0 < 16 →
  in_range (val4 d3 d2 d1 d0).
Proof. unfold in_range, val4. lia. Qed.

Lemma py_int16_hex_group c3 c2 c1 c0 :
  is_hex_char c3 → is_hex_char c2 → is_hex_char c1 → is_hex_char c0 →
  ∃ n, py_int16 (String c3 (String c2 (String c1 (String c0 "")))) = Ok n ∧ in_range n.
Proof.
  intros [d3 [C3 B3]%hex_value_char] [d2 [C2 B2]%hex_value_char]
         [d1 [C1 B1]%hex_value_char] [d0 [C0 B0]%hex_value_char].
  exists (val4 d3 d2 d1 d0). split; [by apply py_int16_digits | by apply val4_range].
Qed.

(** X3.  [parse_record] accepts every text that, spaces and colons
    removed, consists of exactly 20 hex digits of either case, and each
    field it returns is a 16-bit value. *)
Theorem parse_record_hex_text record :
  let clean := remove_char ":" (remove_char " " record) in
  String.length clean = 20%nat →
  Forall is_hex_char (list_ascii_of_string clean) →
  ∃ rec_type field1 field2 field3 field4,
    parse_record record = Ok (rec_type, field1, field2, field3, field4)
    ∧ in_range rec_type ∧ in_range field1 ∧ in_range field2 ∧ in_range field3
    ∧ in_range field4.
Proof.
  cbn zeta. intros Hlen Hhex. unfold parse_record. rewrite Hlen. cbn [Nat.eqb negb].
  destruct (remove_char ":" (remove_char " " record)) as [| a0 s]; [done |].
  do 19 (destruct s as [| ? s]; [done |]).
  destruct s; [| done]. cbn in Hhex.
  repeat match goal with
         | H : Forall _ (_ :: _) |- _ => apply Forall_cons in H as [? H]
         end.
  cbn [substring].
  destruct (py_int16_hex_group a0 a a1 a2) as (t & -> & ?); [done .. |].
  destruct (py_int16_hex_group a3 a4 a5 a6) as (f1 & -> & ?); [done .. |].
  destruct (py_int16_hex_group a7 a8 a9 a10) as (f2 & -> & ?); [done .. |].
  destruct (py_int16_hex_group a11 a12 a13 a14) as (f3 & -> & ?); [done .. |].
  destruct (py_int16_hex_group a15 a16 a17 a18) as (f4 & -> & ?); [done .. |].
  cbn. exists t, f1, f2, f3, f4. by split_and!.
Qed.

Lemma parse_record_hex_text_witness :
  ∃ rec_type field1 field2 field3 field4,
    parse_record "00ff 0A0b:FFFF 0000:1234"
    = Ok (rec_type, field1, field2, field3, field4)
    ∧ in_range rec_type ∧ in_range field1 ∧ in_range field2 ∧ in_range field3
    ∧ in_range field4.
Proof.
  apply parse_record_hex_text.
  - reflexivity.
  - cbn. repeat (apply Forall_cons; split; [by eexists |]). constructor.
Defined.

(** ** Failures of the decoder *)

Lemma py_int16_Raise s e : py_int16 s = Raise e → e = ValueError.
Proof.
  unfold py_int16. destruct (strip_sign (skip_spaces s)) as [neg s1].
  destruct (starts_with_digit (strip_prefix s1)); [| by intros [= <-]].
  destruct (scan_digits (strip_prefix s1) false 0) as [[v rest] |]; [| by intros [= <-]].
  destruct (skip_spaces rest); [done | by intros [= <-]].
Qed.

Lemma parse_record_Raise record e : parse_record record = Raise e → e = ValueError.
Proof.
  unfold parse_record. destruct (negb _); [by intros [= <-] |].
  destruct (py_int16 (substring 0 4 _)) eqn:H0; cbn;
    [| intros [= <-]; by apply py_int16_Raise in H0].
  destruct (py_int16 (substring 4 4 _)) eqn:H1; cbn;
    [| intros [= <-]; by apply py_int16_Raise in H1].
  destruct (py_int16 (substring 8 4 _)) eqn:H2; cbn;
    [| intros [= <-]; by apply py_int16_Raise in H2].
  destruct (py_int16 (substring 12 4 _)) eqn:H3; cbn;
    [| intros [= <-]; by apply py_int16_Raise in H3].
  destruct (py_int16 (substring 16 4 _)) eqn:H4; cbn;
    [done | intros [= <-]; by apply py_int16_Raise in H4].
Qed.

Lemma load_labels_Raise entries table e :
  load_labels entries table = Raise e →
  e = ValueError
  ∧ ∃ k v, (KeyStr k, v) ∈ entries ∧ py_int16 k = Raise ValueError.
Proof.
  revert table. induction entries as [| [k v] entries IH]; intros table; cbn; [done |].
  destruct k as [k | i]; cbn.
  - destruct (py_int16 k) as [idx | e'] eqn:Hk; cbn.
    + intros (-> & k' & v' & ? & ?)%IH. split; [done |].
      exists k', v'. split; [by apply list_elem_of_further | done].
    + intros [= <-]. pose proof (py_int16_Raise _ _ Hk) as ->. split; [done |].
      exists k, v. split; [apply list_elem_of_here | done].
  - intros (-> & k' & v' & ? & ?)%IH. split; [done |].
    exists k', v'. split; [by apply list_elem_of_further | done].
Qed.

Lemma load_tables_Raise labels e :
  load_tables labels = Raise e →
  e = ValueError
  ∧ ∃ L k, labels = Some L ∧ k ∈ text_keys L ∧ py_int16 k = Raise ValueError.
Proof.
  destruct labels as [L |]; [| done]. unfold load_tables, text_keys.
  assert (∀ (entries : list (label_key * string)) k v, (KeyStr k, v) ∈ entries →
            k ∈ omap (λ p : label_key * string,
                        match p.1 with KeyStr k => Some k | KeyInt _ => None end)
                     entries) as Hkey.
  { intros entries k v Hin. apply list_elem_of_omap. by exists (KeyStr k, v). }
  destruct (load_labels (l_states L) ∅) as [sl | e'] eqn:Hs; cbn.
  2: { intros [= ->]. apply load_labels_Raise in Hs as (-> & k & v & Hin & Hk).
       split; [done |]. exists L, k. split_and!; [done | | done].
       rewrite omap_app. apply elem_of_app. left. by eapply Hkey. }
  destruct (load_labels (l_inputs L) ∅) as [il | e'] eqn:Hi; cbn.
  2: { intros [= ->]. apply load_labels_Raise in Hi as (-> & k & v & Hin & Hk).
       split; [done |]. exists L, k. split_and!; [done | | done].
       rewrite !omap_app, !elem_of_app. right. left. by eapply Hkey. }
  destruct (load_labels (l_outputs L) ∅) as [ol | e'] eqn:Ho; cbn; [done |].
  intros [= ->]. apply load_labels_Raise in Ho as (-> & k & v & Hin & Hk).
  split; [done |]. exists L, k. split_and!; [done | | done].
  rewrite !omap_app, !elem_of_app. right. right. by eapply Hkey.
Qed.

(** X4.  The only exception [hex_to_fsm] raises is a [ValueError], and it
    raises it only when a textual key of the label table or a record does
    not parse: none of its dictionary lookups can fail. *)
Theorem hex_to_fsm_raises_only_ValueError records labels e :
  hex_to_fsm records labels = Raise e →
  e = ValueError
  ∧ ((∃ L k, labels = Some L ∧ k ∈ text_keys L ∧ py_int16 k = Raise ValueError)
     ∨ (∃ record, record ∈ records ∧ parse_record record = Raise ValueError)).
Proof.
  intros Hraise.
  destruct (load_tables labels) as [tables | e'] eqn:Htables.
  2: { unfold hex_to_fsm in Hraise. rewrite Htables in Hraise. cbn in Hraise.
       inversion Hraise; subst. apply load_tables_Raise in Htables as [-> ?]. auto. }
  destruct (for_each parse_record records) as [rs | e'] eqn:Hrs.
  { by rewrite (hex_to_fsm_ok _ _ _ _ Htables Hrs) in Hraise. }
  unfold hex_to_fsm in Hraise. rewrite Htables in Hraise. cbn in Hraise.
  rewrite (decode_records_raise _ _ _ Hrs) in Hraise. cbn in Hraise.
  inversion Hraise; subst.
  apply for_each_Raise in Hrs as (record & Hin & Hrec).
  pose proof (parse_record_Raise _ _ Hrec) as ->. split; [done |]. right. eauto.
Qed.

Lemma hex_to_fsm_raises_only_ValueError_witness :
  ValueError = ValueError
  ∧ ((∃ L k, @None labels_t = Some L ∧ k ∈ text_keys L
             ∧ py_int16 k = Raise ValueError)
     ∨ (∃ record, record ∈ ["0000 0001:0002 0003:000"]
                  ∧ parse_record record = Raise ValueError)).
Proof.
  apply (hex_to_fsm_raises_only_ValueError ["0000 0001:0002 0003:000"] None).
  vm_compute. reflexivity.
Defined.

(** ** Records of unknown type *)

Lemma decode_record_unknown d r : known_type r = false → decode_record d r = d.
Proof.
  destruct r as [[[[ty f1] f2] f3] f4].
  unfold known_type, is_transition_type, rec_type_of, decode_record. cbn.
  destruct (ty =? TYPE_STATE_DECL); [done |].
  destruct (ty =? TYPE_DFA_TRANSITION); [done |].
  destruct (ty =? TYPE_MEALY_TRANSITION); [done |].
  by destruct (ty =? TYPE_NFA_MULTI).
Qed.

Lemma foldl_decode_known rs d :
  foldl decode_record d rs = foldl decode_record d (filter (λ r, known_type r = true) rs).
Proof.
  revert d. induction rs as [| r rs IH]; intros d; [done |].
  rewrite filter_cons. destruct (known_type r) eqn:Hr.
  - rewrite decide_True by done. cbn. apply IH.
  - rewrite decide_False by done. cbn. rewrite decode_record_unknown by done. apply IH.
Qed.

(** X5.  The decoder ignores records whose type field is none of the four
    type codes: two streams that parse and have the same records of known
    type decode to the same result. *)
Theorem unknown_record_types_ignored records1 records2 rs1 rs2 labels :
  for_each parse_record records1 = Ok rs1 →
  for_each parse_record records2 = Ok rs2 →
  filter (λ r, known_type r = true) rs1 = filter (λ r, known_type r = true) rs2 →
  hex_to_fsm records1 labels = hex_to_fsm records2 labels.
Proof.
  intros H1 H2 Hsame. unfold hex_to_fsm.
  destruct (load_tables labels) as [tables | e]; [| done]. cbn.
  rewrite (decode_records_parsed _ _ _ H1), (decode_records_parsed _ _ _ H2).
  by rewrite (foldl_decode_known rs1), (foldl_decode_known rs2), Hsame.
Qed.

Lemma unknown_record_types_ignored_witness :
  hex_to_fsm ["0000 0000:0000 0001:0000"; "0007 0009:0009 0009:0009"] None
  = hex_to_fsm ["BEEF 0001:0002 0003:0004"; "0000 0000:0000 0001:0000"] None.
Proof.
  apply (unknown_record_types_ignored _ _ [(0, 0, 0, 1, 0); (7, 9, 9, 9, 9)]
           [(48879, 1, 2, 3, 4); (0, 0, 0, 1, 0)]).
  - vm_compute. reflexivity.
  - vm_compute. reflexivity.
  - reflexivity.
Defined.

(** ** The label maps of the encoder *)

Lemma fsm_to_hex_maps fsm records state_names input_names output_names :
  fsm_to_hex fsm = Ok (records, state_names, input_names, output_names) →
  state_names = reverse_dict (index_dict (states fsm))
  ∧ input_names = reverse_dict (index_dict (alphabet fsm))
  ∧ output_names = reverse_dict (index_dict (output_alphabet fsm)).
Proof.
  unfold fsm_to_hex. destruct (state_decl_records _ _ _); [| done]. cbn.
  destruct (for_each _ (transitions fsm)); [| done]. cbn. by intros [= <- <- <- <-].
Qed.

Lemma lookup_reverse_index_NoDup l i :
  NoDup l →
  reverse_dict (index_dict l) !! i = if decide (0 ≤ i) then l !! Z.to_nat i else None.
Proof.
  intros Hnd. destruct (reverse_dict (index_dict l) !! i) as [s |] eqn:Hi.
  - apply lookup_reverse_index_dict, lookup_index_dict in Hi as (n & Hn & -> & _).
    rewrite decide_True by lia. by rewrite Nat2Z.id.
  - destruct (decide (0 ≤ i)); [| done].
    destruct (l !! Z.to_nat i) as [s |] eqn:Hs; [| done].
    apply (index_dict_NoDup _ _ _ Hnd), lookup_reverse_index_dict in Hs.
    rewrite Z2Nat.id in Hs by done. congruence.
Qed.

(** X6.  When the tables of a model hold unique names, the three maps
    [fsm_to_hex] returns send each position of a table to the name at that
    position and hold nothing else. *)
Theorem encoder_label_maps fsm records state_names input_names output_names :
  fsm_to_hex fsm = Ok (records, state_names, input_names, output_names) →
  NoDup (states fsm) → NoDup (alphabet fsm) → NoDup (output_alphabet fsm) →
  ∀ i,
    state_names !! i = (if decide (0 ≤ i) then states fsm !! Z.to_nat i else None)
    ∧ input_names !! i = (if decide (0 ≤ i) then alphabet fsm !! Z.to_nat i else None)
    ∧ output_names !! i
      = (if decide (0 ≤ i) then output_alphabet fsm !! Z.to_nat i else None).
Proof.
  intros (-> & -> & ->)%fsm_to_hex_maps Hs Ha Ho i.
  by rewrite !lookup_reverse_index_NoDup.
Qed.

Lemma encoder_label_maps_witness :
  ∃ records state_names input_names output_names,
    fsm_to_hex chain_model = Ok (records, state_names, input_names, output_names)
    ∧ state_names !! 2 = Some "C" ∧ input_names !! 0 = Some "x"
    ∧ output_names !! 0 = None.
Proof.
  destruct (fsm_to_hex chain_model) as [[[[records sn] inn] onn] | e] eqn:Henc;
    [| by vm_compute in Henc].
  exists records, sn, inn, onn. split; [done |].
  destruct (encoder_label_maps chain_model records sn inn onn Henc
              (valid_states _ valid_chain_model) (valid_alphabet _ valid_chain_model)
              (valid_output_alphabet _ valid_chain_model) 2) as (H2 & _ & _).
  destruct (encoder_label_maps chain_model records sn inn onn Henc
              (valid_states _ valid_chain_model) (valid_alphabet _ valid_chain_model)
              (valid_output_alphabet _ valid_chain_model) 0) as (_ & H0 & H0').
  split_and!; [exact H2 | exact H0 | exact H0'].
Defined.

(** ** Order of the decoded tables *)

Lemma StronglySorted_le_lt (l : list Z) :
  StronglySorted Z.le l → NoDup l → StronglySorted Z.lt l.
Proof.
  induction 1 as [| x l Hl IH Hx]; intros Hnd; [constructor |].
  apply NoDup_cons in Hnd as [Hnin Hnd]. constructor; [by apply IH |].
  apply Forall_forall. intros y Hy. rewrite Forall_forall in Hx.
  specialize (Hx y Hy). assert (x ≠ y) by (by intros ->). lia.
Qed.

Lemma sorted_ascending (X : gset Z) : StronglySorted Z.lt (sorted X).
Proof.
  apply StronglySorted_le_lt; [| apply NoDup_sorted].
  unfold sorted. apply StronglySorted_merge_sort; apply _.
Qed.

(** X7.  Whatever the label table, the three tables of a decoded model
    list the names of the ids the records register, each id once and in
    strictly ascending order of id: a state id is the first field of a
    state declaration or the source or target of a transition record, an
    input id the input field of a transition record unless 0xFFFF, an
    output id the output of a Mealy record or the output field of a state
    declaration minus one. *)
Theorem decoded_tables_ascending records labels tables rs m :
  load_tables labels = Ok tables →
  for_each parse_record records = Ok rs →
  hex_to_fsm records labels = Ok m →
  ∃ sids iids oids,
    states m = symbol_name "S" (state_labels tables) <$> sids
    ∧ alphabet m = symbol_name "i" (input_labels tables) <$> iids
    ∧ output_alphabet m = symbol_name "o" (output_labels tables) <$> oids
    ∧ StronglySorted Z.lt sids ∧ StronglySorted Z.lt iids ∧ StronglySorted Z.lt oids
    ∧ (∀ i, i ∈ sids ↔ ∃ r, r ∈ rs ∧ i ∈ state_fields r)
    ∧ (∀ i, i ∈ iids ↔ ∃ r, r ∈ rs ∧ i ∈ input_fields r)
    ∧ (∀ i, i ∈ oids ↔ ∃ r, r ∈ rs ∧ i ∈ output_fields r).
Proof.
  intros Htables Hrs Hm. rewrite (hex_to_fsm_ok _ _ _ _ Htables Hrs) in Hm.
  inversion Hm; subst m. clear Hm.
  assert (∀ (f : record_tuple → gset Z) i,
            i ∈ sorted (∅ ∪ ⋃ (f <$> rs)) ↔ ∃ r, r ∈ rs ∧ i ∈ f r) as Hmem.
  { intros f i. rewrite elem_of_sorted, union_empty_l_L, elem_of_union_list. split.
    - intros (X & (r & -> & Hr)%list_elem_of_fmap & Hi). eauto.
    - intros (r & Hr & Hi). exists (f r). split; [| done].
      apply list_elem_of_fmap. eauto. }
  exists (sorted (state_ids (foldl decode_record decoder_init rs))),
         (sorted (input_ids (foldl decode_record decoder_init rs))),
         (sorted (output_ids (foldl decode_record decoder_init rs))).
  split_and!; try done; try apply sorted_ascending.
  - intros i. rewrite state_ids_foldl. apply Hmem.
  - intros i. rewrite input_ids_foldl. apply Hmem.
  - intros i. rewrite output_ids_foldl. apply Hmem.
Qed.

Lemma decoded_tables_ascending_witness :
  ∃ m sids,
    hex_to_fsm irregular_stream None = Ok m
    ∧ states m = symbol_name "S" ∅ <$> sids ∧ StronglySorted Z.lt sids.
Proof.
  destruct (hex_to_fsm irregular_stream None) as [m | e] eqn:Hm;
    [| by vm_compute in Hm].
  destruct (decoded_tables_ascending irregular_stream None no_tables
              [(3, 0, 0, 1, 1); (3, 2, 0, 1, 1)] m)
    as (sids & _ & _ & Hs & _ & _ & Hsorted & _).
  - reflexivity.
  - vm_compute. reflexivity.
  - exact Hm.
  - exists m, sids. by split_and!.
Defined.

(** ** Default names *)

Lemma NoDup_default_names prefix (X : gset Z) :
  NoDup (symbol_name prefix ∅ <$> sorted X).
Proof.
  apply NoDup_fmap_2_strong; [| apply NoDup_sorted].
  intros i j _ _. apply default_name_inj.
Qed.

(** X8.  Without a label table the names of a decoded model never
    collide: the names of the states, of the input symbols and of the
    output symbols are pairwise distinct, within a table and across the
    three tables. *)
Theorem default_names_distinct records m :
  hex_to_fsm records None = Ok m →
  NoDup (states m ++ alphabet m ++ output_alphabet m).
Proof.
  intros (tables & rs & Htables & _ & ->)%hex_to_fsm_inv.
  inversion Htables; subst tables. cbn.
  assert (∀ (c1 c2 : ascii) (X Y : gset Z) s,
            c1 ≠ c2 →
            s ∈ symbol_name (String c1 "") ∅ <$> sorted X →
            s ∈ symbol_name (String c2 "") ∅ <$> sorted Y → False) as Hdisj.
  { intros c1 c2 X Y s Hne (i & -> & _)%list_elem_of_fmap (j & Heq & _)%list_elem_of_fmap.
    unfold symbol_name in Heq. rewrite !lookup_empty in Heq. cbn in Heq.
    change (String c1 (pretty i) = String c2 (pretty j)) in Heq. congruence. }
  apply NoDup_app. split_and!.
  - apply NoDup_default_names.
  - intros s Hs [Hi | Ho]%elem_of_app.
    + by eapply (Hdisj "S"%char "i"%char).
    + by eapply (Hdisj "S"%char "o"%char).
  - apply NoDup_app. split_and!.
    + apply NoDup_default_names.
    + intros s Hi Ho. by eapply (Hdisj "i"%char "o"%char).
    + apply NoDup_default_names.
Qed.

Lemma default_names_distinct_witness :
  ∃ m, hex_to_fsm mixed_stream None = Ok m
     ∧ NoDup (states m ++ alphabet m ++ output_alphabet m).
Proof.
  destruct (hex_to_fsm mixed_stream None) as [m | e] eqn:Hm; [| by vm_compute in Hm].
  exists m. split; [done |]. by apply (default_names_distinct mixed_stream).
Defined.

(** ** Size of an encoding *)

Lemma length_enumerate_from {A} (l : list A) k : length (enumerate_from k l) = length l.
Proof. revert k. induction l as [| x l IH]; intros k; cbn; [done | by rewrite IH]. Qed.

Lemma length_transition_tuples fsm t :
  transition_refs_defined fsm t →
  length (transition_tuples fsm t) = records_per_transition fsm t.
Proof.
  intros (_ & _ & _ & Hne). unfold transition_tuples, records_per_transition.
  destruct (is_mealy fsm) eqn:Hm; cbn.
  { destruct (target_list (t_to t)); [| done]. exfalso. apply Hne; [| done].
    unfold is_mealy in Hm. by apply String.eqb_eq. }
  destruct (Z.eqb_spec (len (target_list (t_to t))) 1) as [Hlen | Hlen].
  { by destruct (single_target _ Hlen) as [t0 ->]. }
  unfold chain_tuples, enumerate. by rewrite length_fmap, length_enumerate_from.
Qed.

(** X9.  When every transition resolves, the encoder writes one record
    per declared state (every state of a Moore model, otherwise the states
    that are initial or accepting) followed by the records of the
    transitions: one for a Mealy transition or a single target, one per
    target otherwise. *)
Theorem encoding_size fsm :
  Forall (transition_refs_defined fsm) (transitions fsm) →
  ∃ records state_names input_names output_names,
    fsm_to_hex fsm = Ok (records, state_names, input_names, output_names)
    ∧ length records
      = (length (declared_states fsm)
         + sum_list (records_per_transition fsm <$> transitions fsm))%nat.
Proof.
  intros Hts. eexists _, _, _, _. split; [by apply fsm_to_hex_tuples |].
  unfold encoded_tuples. rewrite length_fmap, length_app, length_fmap. f_equal.
  induction Hts as [| t ts Ht _ IH]; [done |].
  cbn. by rewrite length_app, IH, length_transition_tuples.
Qed.

Lemma encoding_size_witness :
  ∃ records state_names input_names output_names,
    fsm_to_hex chain_model = Ok (records, state_names, input_names, output_names)
    ∧ length records = 6%nat.
Proof.
  destruct (encoding_size chain_model (valid_model_refs _ valid_chain_model))
    as (records & sn & inn & onn & Henc & Hlen).
  exists records, sn, inn, onn. split; [exact Henc |]. rewrite Hlen. reflexivity.
Defined.

(** ** Order of the tables after a round trip *)








(** ** JSON round trip *)

Lemma json_read_back fsm :
  within_capacity fsm →
  lower (fsm_type fsm) = fsm_type fsm →
  (fsm_type fsm ≠ "moore" → state_outputs fsm = ∅) →
  (fsm_type fsm ≠ "moore" → fsm_type fsm ≠ "mealy" → output_alphabet fsm = []) →
  json_to_fsm (fsm_to_json fsm) = Ok fsm.
Proof.
  intros (Hs & Ha & Ho) Hlow Hso Hoa. unfold json_to_fsm, fsm_to_json. cbn.
  assert (default [] (if String.eqb (fsm_type fsm) "moore"
                      then Some (output_alphabet fsm)
                      else if String.eqb (fsm_type fsm) "mealy"
                           then Some (output_alphabet fsm) else None)
          = output_alphabet fsm) as ->.
  { destruct (String.eqb_spec (fsm_type fsm) "moore"); [done |].
    destruct (String.eqb_spec (fsm_type fsm) "mealy"); [done |]. cbn. by rewrite Hoa. }
  assert (default ∅ (if String.eqb (fsm_type fsm) "moore"
                     then Some (state_outputs fsm) else None)
          = state_outputs fsm) as ->.
  { destruct (String.eqb_spec (fsm_type fsm) "moore"); [done |]. cbn. by rewrite Hso. }
  assert (default "" (if String.eqb (name fsm) "" then None else Some (name fsm))
          = name fsm) as ->.
  { by destruct (String.eqb_spec (name fsm) "") as [-> |]. }
  assert (default "" (if String.eqb (description fsm) "" then None
                      else Some (description fsm)) = description fsm) as ->.
  { by destruct (String.eqb_spec (description fsm) "") as [-> |]. }
  rewrite Hlow.
  destruct (Z.ltb_spec 65535 (len (states fsm))); [lia |].
  destruct (Z.ltb_spec 65534 (len (alphabet fsm))); [lia |].
  destruct (Z.ltb_spec 65535 (len (output_alphabet fsm))); [lia |].
  by destruct fsm.
Qed.



(** ** The visualiser against the converter *)

Lemma visualise_parse_record record r :
  parse_record record = Ok r → Visualise.parse_record record = Ok r.
Proof.
  unfold parse_record, Visualise.parse_record. by destruct (negb _).
Qed.

Lemma visualise_decode_records records d d' :
  decode_records records d = Ok d' → Visualise.decode_records records d = Ok d'.
Proof.
  revert d. induction records as [| record records IH]; intros d; cbn; [done |].
  destruct (parse_record record) as [r |] eqn:Hr; [| done].
  rewrite (visualise_parse_record _ _ Hr). cbn. apply IH.
Qed.

(** X13.  The visualiser decodes every record stream the converter
    decodes, to the same model. *)
Theorem visualiser_agrees_with_converter records labels m :
  hex_to_fsm records labels = Ok m → Visualise.hex_to_fsm records labels = Ok m.
Proof.
  unfold hex_to_fsm, Visualise.hex_to_fsm.
  destruct (load_tables labels) as [tables |]; [| done]. cbn.
  destruct (decode_records records decoder_init) as [d |] eqn:Hd; [| done].
  by rewrite (visualise_decode_records _ _ _ Hd).
Qed.

Lemma visualiser_agrees_with_converter_witness :
  ∃ m, hex_to_fsm mixed_stream None = Ok m
     ∧ Visualise.hex_to_fsm mixed_stream None = Ok m.
Proof.
  destruct (hex_to_fsm mixed_stream None) as [m | e] eqn:Hm; [| by vm_compute in Hm].
  exists m. split; [done |]. by apply visualiser_agrees_with_converter.
Defined.

Lemma substring_app_l n m s t :
  (n + m ≤ String.length s)%nat → substring n m (s +:+ t) = substring n m s.
Proof.
  revert n m. induction s as [| c s IH]; intros n m Hlen; cbn in Hlen.
  - assert (n = 0%nat ∧ m = 0%nat) as [-> ->] by lia. by destruct t.
  - change (String c s +:+ t) with (String c (s +:+ t)).
    destruct n as [| n]; cbn.
    + destruct m as [| m]; [done |]. f_equal. apply (IH 0%nat). lia.
    + apply IH. lia.
Qed.

(** X14.  The visualiser's [parse_record] reads the first 20 significant
    characters only: whatever follows them changes neither the fields it
    returns nor whether it fails. *)
Theorem visualiser_ignores_excess record extra :
  (20 ≤ String.length (remove_char ":" (remove_char " " record)))%nat →
  Visualise.parse_record (record +:+ extra) = Visualise.parse_record record.
Proof.
  intros Hlen. unfold Visualise.parse_record. rewrite !remove_char_app.
  by rewrite !substring_app_l by lia.
Qed.

Lemma visualiser_ignores_excess_witness :
  Visualise.parse_record ("0000 0001:0002 0003:0004" +:+ "5 and more")
  = Visualise.parse_record "0000 0001:0002 0003:0004".
Proof. apply visualiser_ignores_excess. vm_compute. lia. Defined.

(** ** Hex text *)

Lemma hex_group_inv s g rest :
  hex_group s = Some (g, rest) →
  s = g +:+ rest
  ∧ ∃ c3 c2 c1 c0 d3 d2 d1 d0,
      g = String c3 (String c2 (String c1 (String c0 "")))
      ∧ hex_value c3 = Some d3 ∧ hex_value c2 = Some d2
      ∧ hex_value c1 = Some d1 ∧ hex_value c0 = Some d0.
Proof.
  unfold hex_group, hex_class.
  destruct s as [| c3 [| c2 [| c1 [| c0 s]]]]; try done.
  destruct (hex_value c3) as [d3 |] eqn:H3; [| done].
  destruct (hex_value c2) as [d2 |] eqn:H2; [| done].
  destruct (hex_value c1) as [d1 |] eqn:H1; [| done].
  destruct (hex_value c0) as [d0 |] eqn:H0; [| done].
  cbn. intros [= <- <-]. split; [done |].
  by exists c3, c2, c1, c0, d3, d2, d1, d0.
Qed.

Lemma upper_hex_digit c d : hex_value c = Some d → upper_char c = hex_digit d.
Proof.
  destruct c as [[] [] [] [] [] [] [] []]; vm_compute; by intros [= <-].
Qed.

Lemma hex4_val4 d3 d2 d1 d0 :
  0 ≤ d3 < 16 → 0 ≤ d2 < 16 → 0 ≤ d1 < 16 → 0 ≤ d0 < 16 →
  hex4 (val4 d3 d2 d1 d0)
  = String (hex_digit d3) (String (hex_digit d2) (String (hex_digit d1)
      (String (hex_digit d0) ""))).
Proof.
  intros B3 B2 B1 B0. unfold hex4.
  replace (val4 d3 d2 d1 d0 / 4096) with d3
    by (unfold val4; Z.div_mod_to_equations; lia).
  replace (val4 d3 d2 d1 d0 / 256 mod 16) with d2
    by (unfold val4; Z.div_mod_to_equations; lia).
  replace (val4 d3 d2 d1 d0 / 16 mod 16) with d1
    by (unfold val4; Z.div_mod_to_equations; lia).
  replace (val4 d3 d2 d1 d0 mod 16) with d0
    by (unfold val4; Z.div_mod_to_equations; lia).
  done.
Qed.

Lemma upper_hex_group s g rest :
  hex_group s = Some (g, rest) → ∃ n, in_range n ∧ upper g = format_04X n.
Proof.
  intros (_ & c3 & c2 & c1 & c0 & d3 & d2 & d1 & d0 & -> & H3 & H2 & H1 & H0)%hex_group_inv.
  destruct (hex_value_char _ _ H3) as [_ B3]. destruct (hex_value_char _ _ H2) as [_ B2].
  destruct (hex_value_char _ _ H1) as [_ B1]. destruct (hex_value_char _ _ H0) as [_ B0].
  exists (val4 d3 d2 d1 d0). split; [by apply val4_range |].
  rewrite format_04X_16bit by by apply val4_range.
  rewrite hex4_val4 by done. cbn.
  by rewrite (upper_hex_digit _ _ H3), (upper_hex_digit _ _ H2),
    (upper_hex_digit _ _ H1), (upper_hex_digit _ _ H0).
Qed.

Lemma match_record_canonical s g rest :
  match_record s = Some (g, rest) →
  ∃ r, tuple_in_range r ∧ record_of g = format_tuple r.
Proof.
  unfold match_record. intros Hm.
  destruct (hex_group s) as [[g0 s0] |] eqn:E0; [| done]. cbn in Hm.
  destruct (hex_group (lstrip s0)) as [[g1 s1] |] eqn:E1; [| done]. cbn in Hm.
  destruct (colon s1) as [s1' |]; [| done]. cbn in Hm.
  destruct (hex_group s1') as [[g2 s2] |] eqn:E2; [| done]. cbn in Hm.
  destruct (hex_group (lstrip s2)) as [[g3 s3] |] eqn:E3; [| done]. cbn in Hm.
  destruct (colon s3) as [s3' |]; [| done]. cbn in Hm.
  destruct (hex_group s3') as [[g4 s4] |] eqn:E4; [| done]. cbn in Hm.
  injection Hm as <- <-.
  apply upper_hex_group in E0 as (n0 & R0 & U0), E1 as (n1 & R1 & U1),
    E2 as (n2 & R2 & U2), E3 as (n3 & R3 & U3), E4 as (n4 & R4 & U4).
  exists (n0, n1, n2, n3, n4). split; [done |].
  unfold record_of, format_tuple, format_record. cbn.
  by rewrite U0, U1, U2, U3, U4.
Qed.

Lemma finditer_canonical fuel s :
  Forall (λ g, ∃ r, tuple_in_range r ∧ record_of g = format_tuple r) (finditer fuel s).
Proof.
  revert s. induction fuel as [| k IH]; intros s; cbn; [constructor |].
  destruct (match_record s) as [[g rest] |] eqn:Hm.
  - constructor; [by eapply match_record_canonical | apply IH].
  - destruct s; [constructor | apply IH].
Qed.

Lemma parse_hex_input_tuples text :
  ∃ rs, Forall tuple_in_range rs ∧ parse_hex_input text = format_tuple <$> rs.
Proof.
  unfold parse_hex_input.
  induction (finditer_canonical
               (S (String.length
                     (join (String newline "")
                        (List.filter (λ line, negb (startswith "#" (strip line)))
                           (split_lines text)))))
               (join (String newline "")
                  (List.filter (λ line, negb (startswith "#" (strip line)))
                     (split_lines text))))
    as [| g l (r & Hr & Hg) _ (rs & Hrs & IH)].
  - by exists [].
  - exists (r :: rs). split; [by constructor |]. cbn. by rewrite Hg, IH.
Qed.

(** X15.  Whatever the text, each record [parse_hex_input] returns is the
    canonical text of five fields within 16 bits, the text [format_record]
    writes for them, and [parse_record] reads these fields from it. *)
Theorem scanned_records_canonical text :
  Forall (λ record, ∃ r, tuple_in_range r ∧ record = format_tuple r
                         ∧ parse_record record = Ok r)
         (parse_hex_input text).
Proof.
  destruct (parse_hex_input_tuples text) as (rs & Hrs & ->).
  apply Forall_fmap. eapply Forall_impl; [exact Hrs |].
  intros [[[[t a] b] c] e] Hr. cbn.
  exists (t, a, b, c, e). split; [done |]. split; [done |].
  destruct Hr as (? & ? & ? & ? & ?). by apply parse_format_record.
Qed.


(** *** Strings *)

Lemma string_app_cons c s t : String c s +:+ t = String c (s +:+ t).
Proof. reflexivity. Qed.

Lemma string_app_assoc (s1 s2 s3 : string) : (s1 +:+ s2) +:+ s3 = s1 +:+ (s2 +:+ s3).
Proof.
  induction s1 as [| c s1 IH]; [done |]. rewrite !string_app_cons. by rewrite IH.
Qed.

Lemma string_app_nil_r (s : string) : s +:+ "" = s.
Proof. induction s as [| c s IH]; [done |]. rewrite string_app_cons. by rewrite IH. Qed.

Lemma string_all_cons p c s : string_all p (String c s) = p c && string_all p s.
Proof. reflexivity. Qed.

Lemma string_all_app p s t :
  string_all p (s +:+ t) = string_all p s && string_all p t.
Proof.
  induction s as [| c s IH]; [done |]. rewrite string_app_cons. cbn.
  by rewrite IH, andb_assoc.
Qed.

Lemma string_all_join p sep l :
  string_all p sep = true → Forall (λ x, string_all p x = true) l →
  string_all p (join sep l) = true.
Proof.
  intros Hsep. induction 1 as [| x l Hx Hl IH]; [done |].
  cbn [join]. destruct l as [| y l]; [done |].
  rewrite !string_all_app, Hx, Hsep. exact IH.
Qed.

(** *** Lines and comments *)

Lemma split_lines_nonempty s : split_lines s ≠ [].
Proof.
  destruct s as [| c s]; [done |]. cbn.
  destruct (Ascii.eqb c newline); [done |]. by destruct (split_lines s).
Qed.

Lemma join_split_lines text : join (String newline "") (split_lines text) = text.
Proof.
  induction text as [| c s IH]; [done |]. cbn [split_lines].
  destruct (Ascii.eqb_spec c newline) as [-> | Hc].
  - cbn [join]. destruct (split_lines s) as [| l ls] eqn:Hs.
    { by destruct (split_lines_nonempty s). }
    by rewrite IH.
  - destruct (split_lines s) as [| l ls] eqn:Hs.
    { by destruct (split_lines_nonempty s). }
    cbn [join] in *. destruct ls as [| l' ls].
    + by rewrite IH.
    + rewrite string_app_cons. by rewrite IH.
Qed.

Lemma split_lines_app a b :
  split_lines (a +:+ String newline b) = split_lines a ++ split_lines b.
Proof.
  induction a as [| c a IH]; [done |].
  rewrite string_app_cons. cbn [split_lines]. rewrite IH.
  destruct (Ascii.eqb c newline); [done |].
  destruct (split_lines a) as [| l ls] eqn:Ha; [| done].
  by destruct (split_lines_nonempty a).
Qed.

Lemma split_lines_single c :
  string_all (not_char newline) c = true → split_lines c = [c].
Proof.
  induction c as [| a c IH]; [done |]. cbn. unfold not_char at 1.
  intros [Ha Hc]%andb_true_iff. apply negb_true_iff in Ha. rewrite Ha.
  by rewrite IH.
Qed.

Lemma string_all_split_lines p text :
  string_all p text = true → Forall (λ l, string_all p l = true) (split_lines text).
Proof.
  induction text as [| c s IH]; [by repeat constructor |].
  cbn. intros [Hc Hs]%andb_true_iff. specialize (IH Hs).
  destruct (Ascii.eqb c newline); [by constructor |].
  destruct IH as [| l ls Hl Hls]; [by repeat constructor; cbn; rewrite Hc |].
  constructor; [| done]. cbn. by rewrite Hc.
Qed.

Lemma string_all_lstrip p s : string_all p s = true → string_all p (lstrip s) = true.
Proof.
  induction s as [| c s IH]; [done |]. cbn.
  intros [Hc Hs]%andb_true_iff. destruct (is_space c); [by apply IH |].
  cbn. by rewrite Hc.
Qed.

Lemma string_all_rstrip p s : string_all p s = true → string_all p (rstrip s) = true.
Proof.
  induction s as [| c s IH]; [done |]. cbn.
  intros [Hc Hs]%andb_true_iff. specialize (IH Hs).
  destruct (rstrip s) as [| c' r].
  - destruct (is_space c); [done |]. cbn. by rewrite Hc.
  - cbn in *. by rewrite Hc.
Qed.

Lemma not_comment line :
  string_all (not_char "#") line = true → is_comment line = false.
Proof.
  intros H%string_all_lstrip%string_all_rstrip. unfold is_comment, strip.
  destruct (rstrip (lstrip line)) as [| c s]; [done |].
  cbn in *. apply andb_true_iff in H as [H _]. by apply negb_true_iff in H.
Qed.

Lemma filter_all {A} (p : A → bool) l :
  Forall (λ x, p x = true) l → List.filter p l = l.
Proof. induction 1 as [| x l Hx _ IH]; [done |]. cbn. by rewrite Hx, IH. Qed.

Lemma parse_hex_input_plain text :
  string_all (not_char "#") text = true → parse_hex_input text = scan text.
Proof.
  intros H. unfold parse_hex_input.
  rewrite filter_all.
  - by rewrite join_split_lines.
  - eapply Forall_impl; [by apply string_all_split_lines |].
    intros line Hline. cbn. apply negb_true_iff. by apply not_comment.
Qed.

(** *** The scanner *)

Lemma hex_group_length s g rest :
  hex_group s = Some (g, rest) → String.length s = (4 + String.length rest)%nat.
Proof.
  unfold hex_group. destruct s as [| c3 [| c2 [| c1 [| c0 s]]]]; try done.
  destruct (_ && _); [| done]. by intros [= <- <-].
Qed.

Lemma lstrip_length s : (String.length (lstrip s) ≤ String.length s)%nat.
Proof.
  induction s as [| c s IH]; [done |]. cbn. destruct (is_space c); cbn; lia.
Qed.

Lemma colon_length s rest :
  colon s = Some rest → String.length s = S (String.length rest).
Proof.
  destruct s as [| c s]; [done |]. cbn. destruct (Ascii.eqb c ":"); [| done].
  by intros [= <-].
Qed.

Lemma match_record_intro s g0 s0 g1 s1 s1' g2 s2 g3 s3 s3' g4 s4 :
  hex_group s = Some (g0, s0) → hex_group (lstrip s0) = Some (g1, s1) →
  colon s1 = Some s1' → hex_group s1' = Some (g2, s2) →
  hex_group (lstrip s2) = Some (g3, s3) → colon s3 = Some s3' →
  hex_group s3' = Some (g4, s4) →
  match_record s = Some ((g0, g1, g2, g3, g4), s4).
Proof.
  intros E0 E1 C1 E2 E3 C3 E4. unfold match_record.
  rewrite E0. cbn. rewrite E1. cbn. rewrite C1. cbn. rewrite E2. cbn.
  rewrite E3. cbn. rewrite C3. cbn. by rewrite E4.
Qed.

Lemma match_record_shorter s g rest :
  match_record s = Some (g, rest) → (String.length rest < String.length s)%nat.
Proof.
  unfold match_record. intros Hm.
  destruct (hex_group s) as [[g0 s0] |] eqn:E0; [| done]. cbn in Hm.
  destruct (hex_group (lstrip s0)) as [[g1 s1] |] eqn:E1; [| done]. cbn in Hm.
  destruct (colon s1) as [s1' |] eqn:C1; [| done]. cbn in Hm.
  destruct (hex_group s1') as [[g2 s2] |] eqn:E2; [| done]. cbn in Hm.
  destruct (hex_group (lstrip s2)) as [[g3 s3] |] eqn:E3; [| done]. cbn in Hm.
  destruct (colon s3) as [s3' |] eqn:C3; [| done]. cbn in Hm.
  destruct (hex_group s3') as [[g4 s4] |] eqn:E4; [| done]. cbn in Hm.
  injection Hm as <- <-.
  apply hex_group_length in E0, E1, E2, E3, E4. apply colon_length in C1, C3.
  pose proof (lstrip_length s0). pose proof (lstrip_length s2). lia.
Qed.

Lemma finditer_fuel n m s :
  (String.length s < n)%nat → (String.length s < m)%nat →
  finditer n s = finditer m s.
Proof.
  revert m s. induction n as [| n IH]; intros m s Hn Hm; [lia |].
  destruct m as [| m]; [lia |]. cbn.
  destruct (match_record s) as [[g rest] |] eqn:Hrec.
  - apply match_record_shorter in Hrec. f_equal. apply IH; lia.
  - destruct s as [| c s]; [done |]. cbn in Hn, Hm. apply IH; lia.
Qed.

Lemma finditer_S k s :
  finditer (S k) s
  = match match_record s with
    | Some (g, rest) => g :: finditer k rest
    | None =>
        match s with
        | String _ s' => finditer k s'
        | EmptyString => []
        end
    end.
Proof. reflexivity. Qed.

Lemma scan_match s g rest :
  match_record s = Some (g, rest) → scan s = record_of g :: scan rest.
Proof.
  intros Hm. unfold scan. rewrite (finditer_S (String.length s) s), Hm.
  rewrite fmap_cons. f_equal. f_equal.
  apply match_record_shorter in Hm. apply finditer_fuel; lia.
Qed.

Lemma scan_skip c s : match_record (String c s) = None → scan (String c s) = scan s.
Proof.
  intros Hm. unfold scan. by rewrite (finditer_S (String.length (String c s))), Hm.
Qed.

Lemma match_record_not_hex c s : hex_class c = false → match_record (String c s) = None.
Proof.
  intros Hc. unfold match_record, hex_group.
  destruct s as [| c2 [| c1 [| c0 s]]]; try done. by rewrite Hc.
Qed.

Lemma scan_separator sep tail :
  string_all (λ c, negb (hex_class c)) sep = true → scan (sep +:+ tail) = scan tail.
Proof.
  induction sep as [| c sep IH]; [done |]. cbn [string_all].
  intros [Hc Hsep]%andb_true_iff. apply negb_true_iff in Hc.
  rewrite string_app_cons, scan_skip by by apply match_record_not_hex. by apply IH.
Qed.

(** *** Canonical records in a text *)

Lemma hex_digit_value d : 0 ≤ d < 16 → hex_value (hex_digit d) = Some d.
Proof. intros Hd. by destruct (hex_digit_char d Hd). Qed.

Lemma hex_value_not_space c d : hex_value c = Some d → is_space c = false.
Proof. destruct c as [[] [] [] [] [] [] [] []]; vm_compute; by intros. Qed.

Lemma hex_value_not_hash c d : hex_value c = Some d → not_char "#" c = true.
Proof. destruct c as [[] [] [] [] [] [] [] []]; vm_compute; by intros. Qed.

Lemma hex_group_hex4 n rest :
  in_range n → hex_group (hex4 n +:+ rest) = Some (hex4 n, rest).
Proof.
  intros Hn. destruct (hex4_digit_bounds n Hn) as (B3 & B2 & B1 & B0).
  unfold hex4. rewrite !string_app_cons. unfold hex_group, hex_class.
  by rewrite !hex_digit_value.
Qed.

Lemma lstrip_hex4 n rest :
  in_range n → lstrip (String " " (hex4 n +:+ rest)) = hex4 n +:+ rest.
Proof.
  intros Hn. destruct (hex4_digit_bounds n Hn) as (B3 & _).
  unfold hex4. rewrite !string_app_cons. cbn [lstrip].
  change (is_space " ") with true. cbn iota.
  by rewrite (hex_value_not_space _ _ (hex_digit_value _ B3)).
Qed.

Lemma upper_hex4 n : in_range n → upper (hex4 n) = hex4 n.
Proof.
  intros Hn. destruct (hex4_digit_bounds n Hn) as (B3 & B2 & B1 & B0).
  unfold hex4. cbn [upper].
  by rewrite (upper_hex_digit _ _ (hex_digit_value _ B3)),
    (upper_hex_digit _ _ (hex_digit_value _ B2)),
    (upper_hex_digit _ _ (hex_digit_value _ B1)),
    (upper_hex_digit _ _ (hex_digit_value _ B0)).
Qed.

Lemma string_all_hex4 n : in_range n → string_all (not_char "#") (hex4 n) = true.
Proof.
  intros Hn. destruct (hex4_digit_bounds n Hn) as (B3 & B2 & B1 & B0).
  unfold hex4. cbn [string_all].
  by rewrite (hex_value_not_hash _ _ (hex_digit_value _ B3)),
    (hex_value_not_hash _ _ (hex_digit_value _ B2)),
    (hex_value_not_hash _ _ (hex_digit_value _ B1)),
    (hex_value_not_hash _ _ (hex_digit_value _ B0)).
Qed.

Lemma format_tuple_hex4 t a b c e :
  tuple_in_range (t, a, b, c, e) →
  format_tuple (t, a, b, c, e)
  = hex4 t +:+ String " " (hex4 a +:+ String ":" (hex4 b +:+ String " "
      (hex4 c +:+ String ":" (hex4 e)))).
Proof.
  intros (Ht & Ha & Hb & Hc & He). unfold format_tuple, format_record. cbn.
  by rewrite !format_04X_16bit.
Qed.

Lemma match_record_format r tail :
  tuple_in_range r →
  ∃ g, match_record (format_tuple r +:+ tail) = Some (g, tail)
     ∧ record_of g = format_tuple r.
Proof.
  destruct r as [[[[t a] b] c] e]. intros Hr.
  rewrite format_tuple_hex4 by done. destruct Hr as (Ht & Ha & Hb & Hc & He).
  cbn in Ht, Ha, Hb, Hc, He.
  exists (hex4 t, hex4 a, hex4 b, hex4 c, hex4 e). split.
  - repeat (rewrite string_app_assoc || rewrite string_app_cons).
    eapply match_record_intro.
    + by apply hex_group_hex4.
    + rewrite lstrip_hex4 by done. by apply hex_group_hex4.
    + reflexivity.
    + by apply hex_group_hex4.
    + rewrite lstrip_hex4 by done. by apply hex_group_hex4.
    + reflexivity.
    + by apply hex_group_hex4.
  - unfold record_of. by rewrite !upper_hex4.
Qed.

Lemma scan_record r tail :
  tuple_in_range r → scan (format_tuple r +:+ tail) = format_tuple r :: scan tail.
Proof.
  intros Hr. destruct (match_record_format r tail Hr) as (g & Hm & Hg).
  by rewrite (scan_match _ _ _ Hm), Hg.
Qed.

Lemma scan_join {A} (txt : A → string) (f : A → list string) sep (l : list A) tail :
  (∀ tail, scan (sep +:+ tail) = scan tail) →
  Forall (λ x, ∀ tail, scan (txt x +:+ tail) = f x ++ scan tail) l →
  scan (join sep (txt <$> l) +:+ tail) = concat (f <$> l) ++ scan tail.
Proof.
  intros Hsep. induction 1 as [| x l Hx Hl IH]; [done |].
  destruct l as [| y l].
  - change (scan (txt x +:+ tail) = (f x ++ []) ++ scan tail).
    by rewrite Hx, app_nil_r.
  - change (scan ((txt x +:+ sep +:+ join sep (txt <$> (y :: l))) +:+ tail)
            = (f x ++ concat (f <$> (y :: l))) ++ scan tail).
    rewrite !string_app_assoc, Hx, Hsep, IH. by rewrite <- app_assoc.
Qed.

Lemma concat_singletons {A B} (f : A → B) (l : list A) :
  concat ((λ x, [f x]) <$> l) = f <$> l.
Proof. induction l as [| x l IH]; [done |]. cbn. by rewrite IH. Qed.

Lemma scan_row rs tail :
  Forall tuple_in_range rs →
  scan (join "   " (format_tuple <$> rs) +:+ tail) = (format_tuple <$> rs) ++ scan tail.
Proof.
  intros Hrs.
  rewrite (scan_join format_tuple (λ r, [format_tuple r])).
  - by rewrite concat_singletons.
  - intros t. by apply scan_separator.
  - eapply Forall_impl; [exact Hrs |]. intros r Hr t. by apply scan_record.
Qed.

Lemma scan_rows rows tail :
  Forall (Forall tuple_in_range) rows →
  scan (join (String newline "")
          ((λ row, join "   " (format_tuple <$> row)) <$> rows) +:+ tail)
  = (format_tuple <$> concat rows) ++ scan tail.
Proof.
  intros Hrows.
  rewrite (scan_join (λ row, join "   " (format_tuple <$> row)) (fmap format_tuple)).
  - f_equal. clear Hrows. induction rows as [| row rows IH]; [done |].
    cbn. by rewrite fmap_app, IH.
  - intros t. by apply scan_separator.
  - eapply Forall_impl; [exact Hrows |]. intros row Hrow t. by apply scan_row.
Qed.

Lemma string_all_format_tuple r :
  tuple_in_range r → string_all (not_char "#") (format_tuple r) = true.
Proof.
  destruct r as [[[[t a] b] c] e]. intros Hr.
  rewrite format_tuple_hex4 by done. destruct Hr as (Ht & Ha & Hb & Hc & He).
  cbn in Ht, Ha, Hb, Hc, He.
  rewrite string_all_app, (string_all_hex4 t), string_all_cons,
    string_all_app, (string_all_hex4 a), string_all_cons,
    string_all_app, (string_all_hex4 b), string_all_cons,
    string_all_app, (string_all_hex4 c), string_all_cons, (string_all_hex4 e) by done.
  reflexivity.
Qed.

(** *** Rows *)

Lemma slices_concat {A} (l : list A) (w : nat) :
  (0 < w)%nat →
  concat ((λ i, slice l i w) <$> ((λ k, k * w)%nat <$> seq 0 ((length l + w - 1) / w)))
  = l.
Proof.
  intros Hw.
  assert (∀ k, concat ((λ i, slice l i w) <$> ((λ k, k * w)%nat <$> seq 0 k))
               = take (k * w) l) as Hk.
  { induction k as [| k IH]; [done |].
    rewrite seq_S, !fmap_app, concat_app, IH. cbn. rewrite app_nil_r.
    unfold slice. rewrite take_take_drop. f_equal. lia. }
  rewrite Hk. apply take_ge.
  pose proof (Nat.div_mod_eq (length l + w - 1) w) as Hdiv.
  pose proof (Nat.mod_upper_bound (length l + w - 1) w) as Hmod.
  nia.
Qed.

Lemma format_hex_output_rows rs width :
  0 < width →
  ∃ rows, concat rows = rs
    ∧ format_hex_output (format_tuple <$> rs) width
      = Ok (join (String newline "")
              ((λ row, join "   " (format_tuple <$> row)) <$> rows)).
Proof.
  intros Hw. unfold format_hex_output, range_step.
  destruct (Z.eqb_spec width 0); [lia |].
  destruct (Z.ltb_spec width 0); [lia |]. cbn.
  exists ((λ i, slice rs i (Z.to_nat width))
            <$> ((λ k, k * Z.to_nat width)%nat
                   <$> seq 0 ((length rs + Z.to_nat width - 1) / Z.to_nat width))).
  split; [apply slices_concat; lia |].
  rewrite length_fmap. do 2 f_equal.
  rewrite <- !list_fmap_compose. apply list_fmap_ext. intros _ i _. cbn.
  unfold slice. by rewrite fmap_take, fmap_drop.
Qed.

Lemma hex_text_read_back rs width :
  Forall tuple_in_range rs → 0 < width →
  ∃ text,
    format_hex_output (format_tuple <$> rs) width = Ok text
    ∧ parse_hex_input text = format_tuple <$> rs
    ∧ parse_hex_input (text +:+ String newline "") = format_tuple <$> rs.
Proof.
  intros Hrs Hw.
  destruct (format_hex_output_rows rs width Hw) as (rows & Hrows & ->).
  eexists. split; [done |].
  assert (Forall (Forall tuple_in_range) rows) as Hall.
  { subst rs. clear Hw. induction rows as [| row rows IH]; [constructor |].
    cbn in Hrs. apply Forall_app in Hrs as [? ?]. constructor; [done | by apply IH]. }
  assert (string_all (not_char "#")
            (join (String newline "")
               ((λ row, join "   " (format_tuple <$> row)) <$> rows)) = true) as Hplain.
  { apply string_all_join; [done |]. apply Forall_fmap.
    eapply Forall_impl; [exact Hall |]. intros row Hrow. cbn.
    apply string_all_join; [done |]. apply Forall_fmap.
    eapply Forall_impl; [exact Hrow |]. intros r Hr. by apply string_all_format_tuple. }
  split.
  - rewrite parse_hex_input_plain by done.
    rewrite <- (string_app_nil_r (join _ _)).
    rewrite scan_rows by done. rewrite Hrows. apply app_nil_r.
  - rewrite parse_hex_input_plain by (by rewrite string_all_app, Hplain).
    rewrite scan_rows by done. rewrite Hrows.
    change (scan (String newline "")) with (@nil string). apply app_nil_r.
Qed.

(** X17.  A list of canonical records written in rows of any positive
    width is read back unchanged, also when a line feed follows the last
    row, as in the [.fsm] archive. *)
Theorem hex_text_round_trip rs width :
  Forall tuple_in_range rs → 0 < width →
  ∃ text,
    format_hex_output (format_tuple <$> rs) width = Ok text
    ∧ parse_hex_input text = format_tuple <$> rs
    ∧ parse_hex_input (text +:+ String newline "") = format_tuple <$> rs.
Proof. apply hex_text_read_back. Qed.

Lemma hex_text_round_trip_witness :
  ∃ text,
    format_hex_output (format_tuple <$> [(2, 0, 1, 0, 0); (0, 0, 0, 1, 0); (0, 1, 0, 0, 0)]) 2
    = Ok text
    ∧ parse_hex_input text
      = format_tuple <$> [(2, 0, 1, 0, 0); (0, 0, 0, 1, 0); (0, 1, 0, 0, 0)]
    ∧ parse_hex_input (text +:+ String newline "")
      = format_tuple <$> [(2, 0, 1, 0, 0); (0, 0, 0, 1, 0); (0, 1, 0, 0, 0)].
Proof.
  apply (hex_text_round_trip [(2, 0, 1, 0, 0); (0, 0, 0, 1, 0); (0, 1, 0, 0, 0)] 2);
    [| lia].
  repeat (apply Forall_cons_2 || apply Forall_nil_2);
    unfold tuple_in_range, in_range; cbn; lia.
Defined.

(** X18.  A line whose first character after white space is [#] is
    dropped before the records are searched, whatever else it holds: the
    lines around it are read as if they were adjacent. *)
Theorem comment_line_dropped before comment after :
  string_all (not_char newline) comment = true →
  is_comment comment = true →
  parse_hex_input (before +:+ String newline (comment +:+ String newline after))
  = parse_hex_input (before +:+ String newline after).
Proof.
  intros Hline Hcomment. unfold parse_hex_input.
  rewrite !split_lines_app, (split_lines_single comment Hline).
  rewrite !List.filter_app. cbn [List.filter].
  unfold is_comment in Hcomment. by rewrite Hcomment.
Qed.

Lemma comment_line_dropped_witness :
  parse_hex_input ("0002 0000:0001" +:+ String newline
                     ("  # 0000 0000:0000 0000:0000" +:+ String newline " 0000:0000"))
  = parse_hex_input ("0002 0000:0001" +:+ String newline " 0000:0000").
Proof. by apply comment_line_dropped. Defined.

(** ** The elevator *)

Ltac elevator_fields :=
  cbv [tuple_in_range in_range rec_type_of field1_of field2_of field3_of field4_of
       fst snd Elevator.mk_tuple Elevator.state_index
       Elevator.IDLE Elevator.UP Elevator.DOWN Elevator.CLOSED Elevator.OPEN
       Elevator.IN_TIMER Elevator.IN_DOOR Elevator.IN_GO_UP Elevator.IN_GO_DOWN
       Elevator.IN_EMERGENCY Elevator.OUT_NONE Elevator.OUT_DING
       Elevator.OUT_DOOR_OPEN Elevator.OUT_DOOR_CLOSE Elevator.OUT_MOTOR_UP
       Elevator.OUT_MOTOR_DOWN Elevator.OUT_ALARM Elevator.TYPE_MEALY
       Elevator.TYPE_STATE_DECL] in *.

Lemma elevator_generate_format floors :
  Elevator.generate format_record floors
  = format_tuple <$> Elevator.generate Elevator.mk_tuple floors.
Proof.
  unfold Elevator.generate. rewrite fmap_cons. f_equal.
  induction (Elevator.floor_range floors) as [| f l IH]; [done |].
  rewrite !fmap_cons. cbn [concat]. rewrite fmap_app, IH. f_equal.
  unfold Elevator.floor_records. cbn [fmap list_fmap app].
  destruct (f <? floors), (1 <? f); reflexivity.
Qed.

Lemma elem_of_floor_range floors f :
  f ∈ Elevator.floor_range floors ↔ 1 ≤ f ≤ floors.
Proof.
  unfold Elevator.floor_range. rewrite list_elem_of_fmap. split.
  - intros (k & -> & Hk%elem_of_seq). lia.
  - intros Hf. exists (Z.to_nat f). split; [lia |]. apply elem_of_seq. lia.
Qed.

Lemma elevator_floor_in_range floors f :
  1 ≤ f ≤ floors → floors ≤ 10923 →
  Forall tuple_in_range (Elevator.floor_records Elevator.mk_tuple floors f).
Proof.
  intros Hf Hfloors. unfold Elevator.floor_records. cbn [app].
  destruct (Z.ltb_spec f floors), (Z.ltb_spec 1 f);
    repeat (apply Forall_cons_2 || apply Forall_nil_2); elevator_fields; lia.
Qed.

Lemma elevator_tuples_in_range floors :
  1 ≤ floors ≤ 10923 → Forall tuple_in_range (Elevator.generate Elevator.mk_tuple floors).
Proof.
  intros Hfloors. unfold Elevator.generate. apply Forall_cons_2.
  { elevator_fields. lia. }
  apply Forall_concat, Forall_fmap, Forall_forall. intros f Hf%elem_of_floor_range.
  apply elevator_floor_in_range; lia.
Qed.

Lemma elevator_length {A} (emit : Z → Z → Z → Z → Z → A) floors :
  0 ≤ floors →
  Z.of_nat (length (Elevator.generate emit floors)) = 1 + 10 * floors.
Proof.
  intros Hfloors. unfold Elevator.generate, Elevator.floor_range. cbn [length].
  assert (∀ l : list Z, length (concat (Elevator.floor_records emit floors <$> l))
                        = (10 * length l)%nat) as ->.
  { induction l as [| f l IH]; [done |].
    rewrite fmap_cons. cbn [concat]. rewrite length_app, IH. cbn. lia. }
  rewrite length_fmap, length_seq. lia.
Qed.

(** X19.  For a building of up to 10923 floors the generator writes one
    state declaration and ten transitions a floor, every record in the
    canonical form: [parse_record] reads each one, all fields within 16
    bits, and the records written in rows are read back unchanged. *)
Theorem elevator_records_canonical floors :
  1 ≤ floors ≤ 10923 →
  let records := Elevator.generate format_record floors in
  Z.of_nat (length records) = 1 + 10 * floors
  ∧ Forall (λ record, ∃ r, tuple_in_range r ∧ parse_record record = Ok r) records
  ∧ ∃ text, format_hex_output records 4 = Ok text ∧ parse_hex_input text = records.
Proof.
  intros Hfloors records. subst records.
  split; [apply elevator_length; lia |].
  rewrite elevator_generate_format.
  pose proof (elevator_tuples_in_range floors Hfloors) as Hrs.
  split.
  - apply Forall_fmap. eapply Forall_impl; [exact Hrs |].
    intros [[[[t a] b] c] e] Hr. exists (t, a, b, c, e). split; [done |].
    destruct Hr as (? & ? & ? & ? & ?). by apply parse_format_record.
  - destruct (hex_text_read_back (Elevator.generate Elevator.mk_tuple floors) 4)
      as (text & Htext & Hread & _); [done | lia |].
    by exists text.
Qed.

Lemma elevator_records_canonical_witness :
  Z.of_nat (length Elevator.generate_fsm) = 241
  ∧ Forall (λ record, ∃ r, tuple_in_range r ∧ parse_record record = Ok r)
      Elevator.generate_fsm
  ∧ ∃ text, format_hex_output Elevator.generate_fsm 4 = Ok text
          ∧ parse_hex_input text = Elevator.generate_fsm.
Proof. apply (elevator_records_canonical Elevator.FLOORS). unfold Elevator.FLOORS. lia. Defined.

Lemma filter_concat {A} (p : A → bool) (ls : list (list A)) :
  List.filter p (concat ls) = concat (List.filter p <$> ls).
Proof.
  induction ls as [| l ls IH]; [done |]. cbn. by rewrite List.filter_app, IH.
Qed.

Lemma concat_all_nil {A B} (f : A → list B) (l : list A) :
  (∀ b, b ∈ l → f b = []) → concat (f <$> l) = [].
Proof.
  induction l as [| y l IH]; intros Hf; [done |]. cbn.
  rewrite (Hf y) by apply list_elem_of_here. apply IH.
  intros b Hb. by apply Hf, list_elem_of_further.
Qed.

Lemma concat_single {A B} (f : A → list B) (l : list A) a :
  NoDup l → a ∈ l → (∀ b, b ∈ l → b ≠ a → f b = []) → concat (f <$> l) = f a.
Proof.
  induction 1 as [| x l Hx Hl IH]; [by intros ?%not_elem_of_nil |].
  intros [-> | Ha]%elem_of_cons Hf; cbn.
  - rewrite concat_all_nil; [apply app_nil_r |].
    intros b Hb. apply Hf; [by apply list_elem_of_further |]. by intros ->.
  - rewrite (Hf x); [| apply list_elem_of_here | by intros ->]. cbn.
    apply IH; [done |]. intros b Hb. apply Hf. by apply list_elem_of_further.
Qed.

Lemma NoDup_floor_range floors : NoDup (Elevator.floor_range floors).
Proof.
  unfold Elevator.floor_range. apply NoDup_fmap_2; [| apply NoDup_seq].
  intros x y. lia.
Qed.

Lemma state_index_same floor d1 d2 :
  (Elevator.state_index floor Elevator.IDLE d1
   =? Elevator.state_index floor Elevator.IDLE d2) = (d1 =? d2).
Proof.
  unfold Elevator.state_index.
  destruct (Z.eqb_spec d1 d2), (Z.eqb_spec ((floor - 1) * 6 + Elevator.IDLE * 2 + d1)
                                  ((floor - 1) * 6 + Elevator.IDLE * 2 + d2)); lia.
Qed.

Lemma state_index_other g floor d1 d2 :
  g ≠ floor → 0 ≤ d1 ≤ 1 → 0 ≤ d2 ≤ 1 →
  (Elevator.state_index g Elevator.IDLE d1
   =? Elevator.state_index floor Elevator.IDLE d2) = false.
Proof.
  intros Hg H1 H2. unfold Elevator.state_index, Elevator.IDLE.
  apply Z.eqb_neq. lia.
Qed.

Ltac elevator_filter :=
  cbn [List.filter rec_type_of field1_of field2_of field3_of field4_of fst snd
       Elevator.mk_tuple].

Lemma elevator_leaving_other floors floor door input g :
  door = 0 ∨ door = 1 → g ≠ floor →
  Elevator.leaving (Elevator.state_index floor Elevator.IDLE door) input
    (Elevator.floor_records Elevator.mk_tuple floors g) = [].
Proof.
  intros Hdoor Hg. unfold Elevator.leaving, Elevator.floor_records. cbn [app].
  assert (0 ≤ Elevator.CLOSED ≤ 1) as Hc by (unfold Elevator.CLOSED; lia).
  assert (0 ≤ Elevator.OPEN ≤ 1) as Ho by (unfold Elevator.OPEN; lia).
  assert (0 ≤ door ≤ 1) as Hd by lia.
  destruct (g <? floors), (1 <? g); elevator_filter;
    rewrite !(state_index_other g floor Elevator.CLOSED door Hg Hc Hd),
      !(state_index_other g floor Elevator.OPEN door Hg Ho Hd), !andb_false_r;
    reflexivity.
Qed.

Lemma elevator_leaving_floor floors floor door input :
  1 ≤ floor ≤ floors → door = 0 ∨ door = 1 → 0 ≤ input ≤ 4 →
  ∃ floor' door' output,
    1 ≤ floor' ≤ floors ∧ floor - 1 ≤ floor' ≤ floor + 1
    ∧ (door' = 0 ∨ door' = 1) ∧ (0 ≤ output ≤ 6 ∧ output ≠ 1)
    ∧ Elevator.leaving (Elevator.state_index floor Elevator.IDLE door) input
        (Elevator.floor_records Elevator.mk_tuple floors floor)
      = [(Elevator.TYPE_MEALY, Elevator.state_index floor Elevator.IDLE door, input,
          Elevator.state_index floor' Elevator.IDLE door', output)].
Proof.
  intros Hfloor Hdoor Hinput.
  assert (input = 0 ∨ input = 1 ∨ input = 2 ∨ input = 3 ∨ input = 4)
    as Hcases by lia.
  unfold Elevator.leaving, Elevator.floor_records. cbn [app].
  destruct (Z.ltb_spec floor floors), (Z.ltb_spec 1 floor);
    destruct Hdoor as [-> | ->];
    destruct Hcases as [-> | [-> | [-> | [-> | ->]]]];
    elevator_filter; rewrite !state_index_same;
    cbn [andb Z.eqb Pos.eqb Elevator.TYPE_MEALY Elevator.CLOSED Elevator.OPEN
         Elevator.IN_TIMER Elevator.IN_DOOR Elevator.IN_GO_UP Elevator.IN_GO_DOWN
         Elevator.IN_EMERGENCY];
    (do 3 eexists; split_and!; [.. | reflexivity]);
    unfold Elevator.OUT_NONE, Elevator.OUT_DOOR_OPEN, Elevator.OUT_DOOR_CLOSE,
      Elevator.OUT_MOTOR_UP, Elevator.OUT_MOTOR_DOWN, Elevator.OUT_ALARM,
      Elevator.CLOSED, Elevator.OPEN; lia.
Qed.

(** X20.  The elevator is deterministic and complete, and never leaves the
    building: from each idle state of each floor, with the door closed or
    open, each of the five inputs has exactly one transition record, and it
    leads to an idle state of the same floor or of a floor next to it,
    within the building.  Its output is never the arrival signal
    [OUT_DING]. *)
Theorem elevator_deterministic_complete floors floor door input :
  1 ≤ floor ≤ floors →
  door = Elevator.CLOSED ∨ door = Elevator.OPEN →
  Elevator.IN_TIMER ≤ input ≤ Elevator.IN_EMERGENCY →
  ∃ floor' door' output,
    1 ≤ floor' ≤ floors ∧ floor - 1 ≤ floor' ≤ floor + 1
    ∧ (door' = Elevator.CLOSED ∨ door' = Elevator.OPEN)
    ∧ (Elevator.OUT_NONE ≤ output ≤ Elevator.OUT_ALARM ∧ output ≠ Elevator.OUT_DING)
    ∧ Elevator.leaving (Elevator.state_index floor Elevator.IDLE door) input
        (Elevator.generate Elevator.mk_tuple floors)
      = [(Elevator.TYPE_MEALY, Elevator.state_index floor Elevator.IDLE door, input,
          Elevator.state_index floor' Elevator.IDLE door', output)].
Proof.
  intros Hfloor Hdoor Hinput.
  destruct (elevator_leaving_floor floors floor door input Hfloor Hdoor Hinput)
    as (floor' & door' & output & H1 & H2 & H3 & H4 & Hleave).
  exists floor', door', output.
  split; [done |]. split; [done |]. split; [done |].
  split; [unfold Elevator.OUT_NONE, Elevator.OUT_ALARM, Elevator.OUT_DING; lia |].
  rewrite <- Hleave. unfold Elevator.generate, Elevator.leaving.
  elevator_filter.
  cbn [andb Z.eqb Pos.eqb Elevator.TYPE_STATE_DECL Elevator.TYPE_MEALY].
  rewrite filter_concat, <- list_fmap_compose.
  rewrite (concat_single _ _ floor).
  - reflexivity.
  - apply NoDup_floor_range.
  - by apply elem_of_floor_range.
  - intros g _ Hg. by apply (elevator_leaving_other floors floor door input g).
Qed.

Lemma elevator_deterministic_complete_witness :
  ∃ floor' door' output,
    1 ≤ floor' ≤ Elevator.FLOORS ∧ 24 - 1 ≤ floor' ≤ 24 + 1
    ∧ (door' = Elevator.CLOSED ∨ door' = Elevator.OPEN)
    ∧ (Elevator.OUT_NONE ≤ output ≤ Elevator.OUT_ALARM ∧ output ≠ Elevator.OUT_DING)
    ∧ Elevator.leaving (Elevator.state_index 24 Elevator.IDLE Elevator.CLOSED)
        Elevator.IN_GO_UP (Elevator.generate Elevator.mk_tuple Elevator.FLOORS)
      = [(Elevator.TYPE_MEALY, Elevator.state_index 24 Elevator.IDLE Elevator.CLOSED,
          Elevator.IN_GO_UP,
          Elevator.state_index floor' Elevator.IDLE door', output)].
Proof.
  apply (elevator_deterministic_complete Elevator.FLOORS 24 Elevator.CLOSED
           Elevator.IN_GO_UP).
  - unfold Elevator.FLOORS. lia.
  - by left.
  - unfold Elevator.IN_TIMER, Elevator.IN_GO_UP, Elevator.IN_EMERGENCY. lia.
Defined.

(** ** From a model to a hex text and back *)

(** X21.  The records of an encoded model, written as a hex text in rows
    of any positive width, are the records read back from the text, with
    or without a line feed after the last row: decoding the text is
    decoding the records. *)
Theorem encoded_text_read_back fsm width labels :
  within_capacity fsm →
  Forall (transition_refs_defined fsm) (transitions fsm) →
  0 < width →
  ∃ records state_names input_names output_names text,
    fsm_to_hex fsm = Ok (records, state_names, input_names, output_names)
    ∧ format_hex_output records width = Ok text
    ∧ parse_hex_input text = records
    ∧ parse_hex_input (text +:+ String newline "") = records
    ∧ hex_to_fsm (parse_hex_input text) labels = hex_to_fsm records labels.
Proof.
  intros Hcap Hts Hw.
  destruct (hex_text_read_back (encoded_tuples fsm) width)
    as (text & Htext & Hread & Hread'); [by apply encoded_tuples_in_range | done |].
  eexists _, _, _, _, text. split; [by apply fsm_to_hex_tuples |].
  split; [done |]. split; [done |]. split; [done |]. by rewrite Hread.
Qed.

Lemma encoded_text_read_back_witness :
  ∃ records state_names input_names output_names text,
    fsm_to_hex chain_model = Ok (records, state_names, input_names, output_names)
    ∧ format_hex_output records 4 = Ok text
    ∧ parse_hex_input text = records
    ∧ parse_hex_input (text +:+ String newline "") = records
    ∧ hex_to_fsm (parse_hex_input text) None = hex_to_fsm records None.
Proof.
  apply (encoded_text_read_back chain_model 4 None).
  - apply (valid_capacity _ valid_chain_model).
  - apply (valid_model_refs _ valid_chain_model).
  - lia.
Defined.

(** ** Graphviz output *)

Lemma replace_char_app old new s t :
  replace_char old new (s +:+ t) = replace_char old new s +:+ replace_char old new t.
Proof.
  induction s as [| c s IH]; [done |]. rewrite string_app_cons. cbn [replace_char].
  destruct (Ascii.eqb c old); by rewrite IH, ?string_app_assoc.
Qed.

Lemma escape_dot_cons c s : escape_dot (String c s) = escape_char c +:+ escape_dot s.
Proof.
  unfold escape_dot, escape_char. cbn [replace_char].
  destruct (Ascii.eqb_spec c quote) as [-> | Hq]; [reflexivity |].
  cbn [replace_char orb].
  destruct (Ascii.eqb_spec c "<") as [-> | Hlt]; [reflexivity |].
  cbn [replace_char orb].
  destruct (Ascii.eqb_spec c ">") as [-> | Hgt]; reflexivity.
Qed.

(** X22.  The three replacements of [escape_dot] do not interfere: the
    result is the text with a backslash put before each double quote, [<]
    and [>], every other character, the backslash included, left as it
    is. *)
Theorem escape_dot_each s : escape_dot s = escape_each s.
Proof.
  induction s as [| c s IH]; [done |]. rewrite escape_dot_cons. cbn. by rewrite IH.
Qed.

Lemma append_label_keys key label edges :
  fst <$> append_label key label edges
  = if decide (key ∈ fst <$> edges) then fst <$> edges else (fst <$> edges) ++ [key].
Proof.
  induction edges as [| [k ls] rest IH]; [done |]. cbn.
  destruct (decide (k = key)) as [-> | Hk].
  - cbn. by rewrite decide_True by apply list_elem_of_here.
  - cbn. rewrite IH. destruct (decide (key ∈ fst <$> rest)) as [Hin | Hin].
    + by rewrite decide_True by by apply list_elem_of_further.
    + rewrite decide_False; [done |]. intros [? | ?]%elem_of_cons; congruence.
Qed.

Lemma lookup_append_label key label edges key' :
  lookup_edge key' (append_label key label edges)
  = if decide (key' = key) then Some (default [] (lookup_edge key edges) ++ [label])
    else lookup_edge key' edges.
Proof.
  induction edges as [| [k ls] rest IH]; cbn.
  - destruct (decide (key = key')) as [-> | Hk].
    + by rewrite decide_True.
    + by rewrite decide_False by congruence.
  - destruct (decide (k = key)) as [-> | Hk]; cbn.
    + destruct (decide (key = key')) as [-> | Hk'].
      * by rewrite decide_True.
      * by rewrite decide_False by congruence.
    + destruct (decide (k = key')) as [-> | Hk'].
      * by rewrite decide_False.
      * exact IH.
Qed.

Lemma lookup_edge_None key edges :
  lookup_edge key edges = None ↔ key ∉ fst <$> edges.
Proof.
  induction edges as [| [k ls] rest IH]; cbn.
  - split; [intros _; apply not_elem_of_nil | done].
  - destruct (decide (k = key)) as [-> | Hk].
    + split; [done |]. intros Hn. destruct Hn. apply list_elem_of_here.
    + rewrite IH. rewrite not_elem_of_cons. naive_solver.
Qed.

Lemma edge_labels_links fsm :
  edge_labels fsm
  = foldl (λ edges l, append_label l.1 l.2 edges) [] (links fsm).
Proof.
  unfold edge_labels, links. generalize (@nil ((string * string) * list string)).
  induction (transitions fsm) as [| t ts IH]; intros edges; [done |].
  cbn. rewrite foldl_app, <- IH. f_equal.
  generalize edges. induction (target_list (t_to t)) as [| tgt l IHl]; [done |].
  intros e. cbn. apply IHl.
Qed.

Lemma labels_between_snoc key ls l :
  labels_between key (ls ++ [l])
  = labels_between key ls ++ (if decide (l.1 = key) then [l.2] else []).
Proof.
  unfold labels_between. rewrite filter_app, fmap_app. f_equal.
  rewrite filter_cons, filter_nil. by destruct (decide (l.1 = key)).
Qed.

Lemma grouped_step edges ls l :
  grouped edges ls → grouped (append_label l.1 l.2 edges) (ls ++ [l]).
Proof.
  intros [Hnd Hlook]. split.
  - rewrite append_label_keys. destruct (decide (l.1 ∈ fst <$> edges)); [done |].
    apply NoDup_app. split; [done |]. split; [| apply NoDup_singleton].
    intros k Hk ->%list_elem_of_singleton. done.
  - intros key. rewrite lookup_append_label, labels_between_snoc.
    destruct (decide (key = l.1)) as [-> | Hk].
    + rewrite decide_True by done. rewrite Hlook.
      by destruct (labels_between l.1 ls).
    + rewrite decide_False by congruence. by rewrite app_nil_r.
Qed.

Lemma grouped_foldl ls edges ls0 :
  grouped edges ls0 →
  grouped (foldl (λ edges l, append_label l.1 l.2 edges) edges ls) (ls0 ++ ls).
Proof.
  revert edges ls0. induction ls as [| l ls IH]; intros edges ls0 Hg.
  - by rewrite app_nil_r.
  - cbn [foldl]. replace (ls0 ++ l :: ls) with ((ls0 ++ [l]) ++ ls)
      by by rewrite <- app_assoc.
    by apply IH, grouped_step.
Qed.

(** X23.  The edges [fsm_to_dot] draws group the links of the model: each
    pair of source and target with a link between them has one edge, and
    its labels are the labels of the links between the two, all of them,
    once each and in the order of the transitions. *)
Theorem edges_group_links fsm :
  NoDup (fst <$> edge_labels fsm)
  ∧ (∀ key, key ∈ fst <$> edge_labels fsm ↔ key ∈ fst <$> links fsm)
  ∧ ∀ key labels, lookup_edge key (edge_labels fsm) = Some labels →
                  labels = labels_between key (links fsm).
Proof.
  pose proof (grouped_foldl (links fsm) [] []) as [Hnd Hlook].
  { split; [constructor | done]. }
  rewrite <- edge_labels_links in Hnd, Hlook. cbn [app] in Hlook.
  split; [done |]. split.
  - intros key. destruct (lookup_edge key (edge_labels fsm)) as [labels |] eqn:Hl.
    + assert (key ∈ fst <$> edge_labels fsm) as Hin.
      { destruct (decide (key ∈ fst <$> edge_labels fsm)) as [| Hn]; [done |].
        apply lookup_edge_None in Hn. congruence. }
      split; [intros _ | done].
      rewrite Hlook in Hl. unfold labels_between in Hl.
      destruct (filter (λ l, l.1 = key) (links fsm)) as [| l ls] eqn:Hf; [done |].
      assert (l ∈ filter (λ l, l.1 = key) (links fsm)) as Hm
        by (rewrite Hf; apply list_elem_of_here).
      apply list_elem_of_filter in Hm as [<- Hm].
      apply list_elem_of_fmap. by exists l.
    + pose proof Hl as Hn%lookup_edge_None. split; [done |].
      intros (l & -> & Hm)%list_elem_of_fmap. rewrite Hlook in Hl.
      unfold labels_between in Hl.
      assert (l ∈ filter (λ l', l'.1 = l.1) (links fsm)) as Hf
        by by apply list_elem_of_filter.
      destruct (filter (λ l', l'.1 = l.1) (links fsm)); [| done].
      by apply not_elem_of_nil in Hf.
  - intros key labels Hl. rewrite Hlook in Hl.
    destruct (labels_between key (links fsm)); [done |]. by injection Hl as <-.
Qed.

(** ** Encoding a decoded model *)

Lemma has_targets_record d r : has_targets d → has_targets (decode_record d r).
Proof.
  intros [Hts Hp]. destruct r as [[[[ty f1] f2] f3] f4]. unfold decode_record.
  destruct (ty =? TYPE_STATE_DECL); [done |].
  destruct (ty =? TYPE_DFA_TRANSITION).
  { split; [| done]. cbn. apply Forall_app. split; [done |]. by apply Forall_singleton. }
  destruct (ty =? TYPE_MEALY_TRANSITION).
  { split; [| done]. cbn. apply Forall_app. split; [done |]. by apply Forall_singleton. }
  destruct (ty =? TYPE_NFA_MULTI); [| done].
  unfold has_targets, decode_nfa_multi, nfa_step. cbn [id_transitions nfa_pending].
  destruct (nfa_pending d) as [[[ps pi] pt] |] eqn:Hpend.
  - specialize (Hp _ eq_refl). cbn in Hp.
    destruct (negb (ps =? f1) || negb (pi =? f2)); destruct (f4 =? 0); cbn;
      (split;
       [ repeat first [apply Forall_app_2 | apply Forall_cons_2 | apply Forall_nil_2];
         cbn; try done; by destruct pt
       | try done; intros p [= <-]; cbn; try done; by destruct pt ]).
  - destruct (f4 =? 0); cbn;
      (split;
       [ repeat first [apply Forall_app_2 | apply Forall_cons_2 | apply Forall_nil_2];
         cbn; done
       | try done; by intros p [= <-] ]).
Qed.

Lemma has_targets_foldl rs d : has_targets d → has_targets (foldl decode_record d rs).
Proof.
  revert d. induction rs as [| r rs IH]; intros d Hd; [done |].
  cbn. by apply IH, has_targets_record.
Qed.

Lemma has_targets_final d :
  has_targets d → Forall (λ t, ids_of_targets (it_to t) ≠ []) (final_transitions d).
Proof.
  intros [Hts Hp]. unfold final_transitions.
  destruct (nfa_pending d) as [p |]; [| done].
  apply Forall_app. split; [done |]. apply Forall_singleton. cbn. by apply Hp.
Qed.

(** X24.  A decoded model can always be encoded again: no lookup of the
    encoder fails on it, whatever the records and the label table it was
    decoded from. *)
Theorem decoded_model_encodes records labels m :
  hex_to_fsm records labels = Ok m →
  ∃ records' state_names input_names output_names,
    fsm_to_hex m = Ok (records', state_names, input_names, output_names)
    ∧ records' = format_tuple <$> encoded_tuples m.
Proof.
  intros (tables & rs & _ & _ & ->)%hex_to_fsm_inv.
  set (d := foldl decode_record decoder_init rs).
  assert (decoder_inv d) as Hinv by apply decoder_inv_foldl, decoder_inv_init.
  assert (has_targets d) as Htg.
  { apply has_targets_foldl. split; [constructor | done]. }
  eexists _, _, _, _. split; [| reflexivity].
  apply fsm_to_hex_tuples.
  destruct (decoded_fsm_well_formed tables d Hinv) as (_ & _ & Hts & _).
  apply has_targets_final in Htg.
  assert (Forall (λ t, target_list (t_to t) ≠ []) (transitions (decoded_fsm tables d)))
    as Hne.
  { unfold decoded_fsm. cbn. apply Forall_fmap. eapply Forall_impl; [exact Htg |].
    intros [tf ti [x | l] tout] Ht; cbn in Ht |- *; [done |].
    destruct l as [| z l]; [by exfalso; apply Ht | done]. }
  apply Forall_forall. intros t Ht.
  rewrite Forall_forall in Hts, Hne.
  destruct (Hts t Ht) as (Hfrom & Hto & Hin & _).
  split_and!; [done | by intros sym Hs _; apply Hin | | by intros _; apply Hne].
  unfold encoded_targets. destruct (String.eqb _ "mealy"); [| done].
  by apply Forall_take.
Qed.

Lemma decoded_model_encodes_witness :
  ∃ m records' state_names input_names output_names,
    hex_to_fsm mixed_stream None = Ok m
    ∧ fsm_to_hex m = Ok (records', state_names, input_names, output_names)
    ∧ records' = format_tuple <$> encoded_tuples m.
Proof.
  destruct (hex_to_fsm mixed_stream None) as [m | e] eqn:Hm; [| by vm_compute in Hm].
  destruct (decoded_model_encodes mixed_stream None m Hm)
    as (records' & sn & inn & onn & Henc & Hrec).
  by exists m, records', sn, inn, onn.
Defined.

(** ** Decoding the elevator *)

Lemma StronglySorted_lt_NoDup (l : list Z) : StronglySorted Z.lt l → NoDup l.
Proof.
  induction 1 as [| x l Hl IH Hx]; [constructor |].
  constructor; [| done]. intros Hin. rewrite Forall_forall in Hx.
  specialize (Hx x Hin). lia.
Qed.

Lemma sorted_of_list (X : gset Z) (l : list Z) :
  StronglySorted Z.lt l → (∀ x, x ∈ X ↔ x ∈ l) → sorted X = l.
Proof.
  intros Hl HX. apply (StronglySorted_unique_strong Z.lt).
  - intros; lia.
  - apply sorted_ascending.
  - done.
  - apply NoDup_Permutation.
    + apply NoDup_sorted.
    + by apply StronglySorted_lt_NoDup.
    + intros x. by rewrite elem_of_sorted.
Qed.

Lemma mealy_foldl rs d :
  Forall (λ r, rec_type_of r = TYPE_MEALY_TRANSITION) rs →
  id_transitions (foldl decode_record d rs) = id_transitions d ++ (mealy_id_transition <$> rs)
  ∧ nfa_pending (foldl decode_record d rs) = nfa_pending d.
Proof.
  intros Hrs. revert d. induction Hrs as [| r rs Hr _ IH]; intros d.
  - by rewrite app_nil_r.
  - cbn [foldl]. destruct (IH (decode_record d r)) as [-> ->].
    destruct r as [[[[ty a] b] c] e]. cbn in Hr. subst ty. cbn.
    by rewrite <- app_assoc.
Qed.

Lemma StronglySorted_floor_range floors : StronglySorted Z.lt (Elevator.floor_range floors).
Proof.
  unfold Elevator.floor_range. generalize 1%nat.
  induction (Z.to_nat floors) as [| n IH]; intros s; [constructor |].
  cbn. constructor; [apply IH |].
  apply Forall_fmap, Forall_forall. intros k Hk%elem_of_seq. cbn. lia.
Qed.

Lemma elem_of_elevator_states floors x :
  x ∈ elevator_states floors
  ↔ ∃ f d, 1 ≤ f ≤ floors ∧ (d = 0 ∨ d = 1)
           ∧ x = Elevator.state_index f Elevator.IDLE d.
Proof.
  unfold elevator_states. rewrite list_elem_of_In, in_concat. split.
  - intros (l & Hl%list_elem_of_In & Hx%list_elem_of_In).
    apply list_elem_of_fmap in Hl as (f & -> & Hf%elem_of_floor_range).
    apply elem_of_cons in Hx as [-> | Hx%list_elem_of_singleton].
    + exists f, 0. split; [done |]. split; [by left | done].
    + exists f, 1. split; [done |]. split; [by right | done].
  - intros (f & d & Hf & Hd & ->).
    exists [Elevator.state_index f Elevator.IDLE Elevator.CLOSED;
            Elevator.state_index f Elevator.IDLE Elevator.OPEN].
    split; apply list_elem_of_In.
    + apply list_elem_of_fmap. exists f. split; [done |]. by apply elem_of_floor_range.
    + destruct Hd as [-> | ->]; [apply list_elem_of_here |].
      apply list_elem_of_further, list_elem_of_here.
Qed.

Lemma StronglySorted_elevator_states floors :
  StronglySorted Z.lt (elevator_states floors).
Proof.
  unfold elevator_states.
  induction (StronglySorted_floor_range floors) as [| f l Hl IH Hf]; [constructor |].
  rewrite fmap_cons. cbn [concat app].
  assert (Forall (λ x, Elevator.state_index f Elevator.IDLE Elevator.OPEN < x)
            (concat ((λ f, [Elevator.state_index f Elevator.IDLE Elevator.CLOSED;
                            Elevator.state_index f Elevator.IDLE Elevator.OPEN]) <$> l)))
    as Hrest.
  { apply Forall_concat, Forall_fmap. eapply Forall_impl; [exact Hf |].
    intros g Hg. cbn. repeat (apply Forall_cons_2 || apply Forall_nil_2);
      elevator_fields; lia. }
  constructor; [constructor; [exact IH | exact Hrest] |].
  apply Forall_cons_2; [elevator_fields; lia |].
  eapply Forall_impl; [exact Hrest |]. intros x. cbn. elevator_fields. lia.
Qed.

Lemma elevator_floor_facts floors f :
  1 ≤ f ≤ floors →
  Forall (λ r, rec_type_of r = TYPE_MEALY_TRANSITION ∧ 0 ≤ field2_of r ≤ 4
               ∧ (∃ d, (d = 0 ∨ d = 1)
                       ∧ field1_of r = Elevator.state_index f Elevator.IDLE d)
               ∧ (∃ g d, 1 ≤ g ≤ floors ∧ (d = 0 ∨ d = 1)
                         ∧ field3_of r = Elevator.state_index g Elevator.IDLE d))
         (Elevator.floor_records Elevator.mk_tuple floors f).
Proof.
  intros Hf. unfold Elevator.floor_records. cbn [app].
  destruct (Z.ltb_spec f floors), (Z.ltb_spec 1 f);
    repeat (apply Forall_cons_2 || apply Forall_nil_2);
    (split; [reflexivity |]);
    (split; [elevator_fields; lia |]);
    (split;
     [ first [ exists 0; split; [by left | reflexivity]
             | exists 1; split; [by right | reflexivity] ]
     | first [ exists f, 0; split; [lia |]; split; [by left | reflexivity]
             | exists f, 1; split; [lia |]; split; [by right | reflexivity]
             | exists (f + 1), 0; split; [lia |]; split; [by left | reflexivity]
             | exists (f - 1), 0; split; [lia |]; split; [by left | reflexivity] ] ]).
Qed.

Lemma elem_of_elevator_generate floors r :
  r ∈ Elevator.generate Elevator.mk_tuple floors
  ↔ r = Elevator.mk_tuple Elevator.TYPE_STATE_DECL
          (Elevator.state_index 1 Elevator.IDLE Elevator.CLOSED) 1 0 0
    ∨ ∃ f, 1 ≤ f ≤ floors ∧ r ∈ Elevator.floor_records Elevator.mk_tuple floors f.
Proof.
  unfold Elevator.generate. rewrite elem_of_cons, list_elem_of_In, in_concat.
  apply or_iff_compat_l. split.
  - intros (l & Hl%list_elem_of_In & Hr%list_elem_of_In).
    apply list_elem_of_fmap in Hl as (f & -> & Hf%elem_of_floor_range). by exists f.
  - intros (f & Hf & Hr). exists (Elevator.floor_records Elevator.mk_tuple floors f).
    split; apply list_elem_of_In; [| done].
    apply list_elem_of_fmap. exists f. split; [done |]. by apply elem_of_floor_range.
Qed.

Lemma elevator_record_leaving floors f d input :
  1 ≤ f ≤ floors → d = 0 ∨ d = 1 → 0 ≤ input ≤ 4 →
  ∃ r, r ∈ Elevator.floor_records Elevator.mk_tuple floors f
     ∧ rec_type_of r = TYPE_MEALY_TRANSITION
     ∧ field1_of r = Elevator.state_index f Elevator.IDLE d
     ∧ field2_of r = input.
Proof.
  intros Hf Hd Hin.
  destruct (elevator_leaving_floor floors f d input Hf Hd Hin)
    as (f' & d' & out & _ & _ & _ & _ & Hleave).
  exists (Elevator.TYPE_MEALY, Elevator.state_index f Elevator.IDLE d, input,
          Elevator.state_index f' Elevator.IDLE d', out).
  split; [| done].
  apply list_elem_of_In.
  eapply (proj1 (filter_In _ _ _)). unfold Elevator.leaving in Hleave.
  rewrite Hleave. by left.
Qed.

Lemma state_fields_mealy r :
  rec_type_of r = TYPE_MEALY_TRANSITION →
  state_fields r = {[field1_of r]} ∪ {[field3_of r]}.
Proof. intros Hr. unfold state_fields. by rewrite Hr. Qed.

Lemma input_fields_mealy r :
  rec_type_of r = TYPE_MEALY_TRANSITION → 0 ≤ field2_of r ≤ 4 →
  input_fields r = {[field2_of r]}.
Proof.
  intros Hr Hin. unfold input_fields. rewrite Hr. cbn.
  destruct (Z.eqb_spec (field2_of r) EPSILON_INPUT) as [Heq | _]; [| done].
  unfold EPSILON_INPUT in Heq. lia.
Qed.

Lemma elevator_state_ids floors x :
  1 ≤ floors →
  x ∈ ⋃ (state_fields <$> Elevator.generate Elevator.mk_tuple floors)
  ↔ x ∈ elevator_states floors.
Proof.
  intros Hfloors. rewrite elem_of_union_list, elem_of_elevator_states. split.
  - intros (X & (r & -> & Hr)%list_elem_of_fmap & Hx).
    apply elem_of_elevator_generate in Hr as [-> | (f & Hf & Hr)].
    + change (x ∈ ({[Elevator.state_index 1 Elevator.IDLE 0]} : gset Z)) in Hx.
      apply elem_of_singleton in Hx as ->. exists 1, 0. split; [lia |]. by split; [left |].
    + pose proof (elevator_floor_facts floors f Hf) as Hfacts.
      rewrite Forall_forall in Hfacts.
      destruct (Hfacts r Hr) as (Hty & _ & (d & Hd & H1) & (g & d' & Hg & Hd' & H3)).
      rewrite state_fields_mealy in Hx by done.
      apply elem_of_union in Hx as [->%elem_of_singleton | ->%elem_of_singleton].
      * by exists f, d.
      * by exists g, d'.
  - intros (f & d & Hf & Hd & ->).
    destruct (elevator_record_leaving floors f d 0 Hf Hd) as (r & Hr & Hty & H1 & _);
      [lia |].
    exists (state_fields r). split.
    + apply list_elem_of_fmap. exists r. split; [done |].
      apply elem_of_elevator_generate. right. by exists f.
    + rewrite state_fields_mealy by done. rewrite H1. set_solver.
Qed.

Lemma elevator_input_ids floors x :
  1 ≤ floors →
  x ∈ ⋃ (input_fields <$> Elevator.generate Elevator.mk_tuple floors)
  ↔ x ∈ [0; 1; 2; 3; 4].
Proof.
  intros Hfloors. rewrite elem_of_union_list.
  assert (x ∈ [0; 1; 2; 3; 4] ↔ 0 ≤ x ≤ 4) as ->.
  { rewrite !elem_of_cons, elem_of_nil. lia. }
  split.
  - intros (X & (r & -> & Hr)%list_elem_of_fmap & Hx).
    apply elem_of_elevator_generate in Hr as [-> | (f & Hf & Hr)].
    { change (x ∈ (∅ : gset Z)) in Hx. by apply elem_of_empty in Hx. }
    pose proof (elevator_floor_facts floors f Hf) as Hfacts.
    rewrite Forall_forall in Hfacts.
    destruct (Hfacts r Hr) as (Hty & Hin & _).
    rewrite input_fields_mealy in Hx by done. by apply elem_of_singleton in Hx as ->.
  - intros Hx.
    destruct (elevator_record_leaving floors 1 0 x) as (r & Hr & Hty & _ & H2);
      [lia | by left | done |].
    exists (input_fields r). split.
    + apply list_elem_of_fmap. exists r. split; [done |].
      apply elem_of_elevator_generate. right. exists 1. split; [lia | done].
    + rewrite input_fields_mealy by (done || lia). rewrite H2. set_solver.
Qed.

Ltac decoded_fields :=
  unfold decoded_fsm;
  cbn [fsm_type states alphabet initial accepting transitions state_outputs
       output_alphabet no_tables fsm_meta state_labels input_labels output_labels
       override_type no_meta meta_type].

(** X25.  The records of the elevator decode, without a label table, to a
    Mealy model: two states a floor under their default names, the five
    inputs, the state of the first floor with the door closed as initial
    state, no accepting state, and one transition for each transition
    record, in the order of the records. *)
Theorem elevator_decodes floors :
  1 ≤ floors ≤ 10923 →
  ∃ m, hex_to_fsm (Elevator.generate format_record floors) None = Ok m
     ∧ fsm_type m = "mealy"
     ∧ initial m
       = Some (symbol_name "S" ∅ (Elevator.state_index 1 Elevator.IDLE Elevator.CLOSED))
     ∧ accepting m = []
     ∧ states m = symbol_name "S" ∅ <$> elevator_states floors
     ∧ alphabet m = symbol_name "i" ∅ <$> [0; 1; 2; 3; 4]
     ∧ transitions m
       = mealy_transition <$> tail (Elevator.generate Elevator.mk_tuple floors)
     ∧ state_outputs m = ∅.
Proof.
  intros Hfloors.
  exists (decoded_fsm no_tables
            (foldl decode_record decoder_init (Elevator.generate Elevator.mk_tuple floors))).
  split.
  { rewrite elevator_generate_format. apply hex_to_fsm_ok; [done |].
    by apply for_each_parse_format, elevator_tuples_in_range. }
  pose proof (elevator_state_ids floors) as Hstates.
  pose proof (elevator_input_ids floors) as Hinputs.
  revert Hstates Hinputs.
  set (rs := Elevator.generate Elevator.mk_tuple floors). intros Hstates Hinputs.
  set (d := foldl decode_record decoder_init rs).
  set (rest := tail rs).
  set (d0 := decode_record decoder_init
               (Elevator.mk_tuple Elevator.TYPE_STATE_DECL
                  (Elevator.state_index 1 Elevator.IDLE Elevator.CLOSED) 1 0 0)).
  assert (d = foldl decode_record d0 rest) as Hd by reflexivity.
  assert (Forall (λ r, rec_type_of r = TYPE_MEALY_TRANSITION ∧ 0 ≤ field2_of r ≤ 4) rest)
    as Hrest.
  { apply Forall_concat, Forall_fmap, Forall_forall.
    intros f Hf%elem_of_floor_range. cbn.
    eapply Forall_impl; [by apply elevator_floor_facts |]. by intros r (? & ? & _). }
  destruct (mealy_foldl rest d0) as [Hts Hpend].
  { eapply Forall_impl; [exact Hrest |]. by intros r [? _]. }
  rewrite <- Hd in Hts, Hpend.
  change (id_transitions d0) with (@nil id_transition) in Hts.
  change (nfa_pending d0) with (@None (Z * Z * list Z)) in Hpend.
  rewrite app_nil_l in Hts.
  destruct (decode_foldl_not_decl rest d0) as (Hini & Hacc & _).
  { eapply Forall_impl; [exact Hrest |]. intros r [Hr _]. by rewrite Hr. }
  rewrite <- Hd in Hini, Hacc.
  assert (has_mealy d = true) as Hmealy.
  { unfold d. rewrite has_mealy_foldl.
    destruct (elevator_record_leaving floors 1 0 0) as (r & Hr & Hty & _);
      [lia | by left | lia |].
    change (has_mealy decoder_init) with false. cbn [orb].
    apply existsb_exists. exists r. split; [| by rewrite Hty].
    apply (proj1 (list_elem_of_In _ _)).
    apply elem_of_elevator_generate. right. exists 1.
    split; [lia | done]. }
  assert (fsm_type (decoded_fsm no_tables d) = "mealy") as Hty.
  { decoded_fields. unfold infer_type. by rewrite Hmealy. }
  split; [exact Hty |].
  split; [decoded_fields; by rewrite Hini |].
  split.
  { decoded_fields. rewrite Hacc.
    change (accepting_states d0) with (∅ : gset Z). by rewrite elements_empty. }
  split.
  { decoded_fields. f_equal. apply sorted_of_list.
    - apply StronglySorted_elevator_states.
    - intros x. unfold d. rewrite state_ids_foldl.
      change (state_ids decoder_init) with (∅ : gset Z).
      rewrite <- Hstates by lia. set_solver. }
  split.
  { decoded_fields. f_equal. apply sorted_of_list.
    - repeat constructor; lia.
    - intros x. unfold d. rewrite input_ids_foldl.
      change (input_ids decoder_init) with (∅ : gset Z).
      rewrite <- Hinputs by lia. set_solver. }
  split.
  { decoded_fields. unfold final_transitions. rewrite Hpend, Hts.
    rewrite <- list_fmap_compose. apply Forall_fmap_ext.
    eapply Forall_impl; [exact Hrest |]. intros r [_ Hin].
    unfold named_transition, mealy_transition, mealy_id_transition, input_or_none,
      compose.
    cbn [it_from it_input it_to it_output].
    destruct (Z.eqb_spec (field2_of r) EPSILON_INPUT) as [Heq | _]; [| done].
    unfold EPSILON_INPUT in Heq. lia. }
  decoded_fields. unfold infer_type. by rewrite Hmealy.
Qed.

Lemma elevator_decodes_witness :
  ∃ m, hex_to_fsm Elevator.generate_fsm None = Ok m
     ∧ fsm_type m = "mealy"
     ∧ initial m
       = Some (symbol_name "S" ∅ (Elevator.state_index 1 Elevator.IDLE Elevator.CLOSED))
     ∧ accepting m = []
     ∧ states m = symbol_name "S" ∅ <$> elevator_states Elevator.FLOORS
     ∧ alphabet m = symbol_name "i" ∅ <$> [0; 1; 2; 3; 4]
     ∧ transitions m
       = mealy_transition
           <$> tail (Elevator.generate Elevator.mk_tuple Elevator.FLOORS)
     ∧ state_outputs m = ∅.
Proof. apply (elevator_decodes Elevator.FLOORS). unfold Elevator.FLOORS. lia. Defined.

(** ** The place of the state declarations *)

Lemma decoder_eq d1 d2 :
  state_ids d1 = state_ids d2 → input_ids d1 = input_ids d2 →
  output_ids d1 = output_ids d2 → has_mealy d1 = has_mealy d2 →
  has_nfa_multi d1 = has_nfa_multi d2 → has_moore_outputs d1 = has_moore_outputs d2 →
  initial_state d1 = initial_state d2 → accepting_states d1 = accepting_states d2 →
  id_state_outputs d1 = id_state_outputs d2 → id_transitions d1 = id_transitions d2 →
  nfa_pending d1 = nfa_pending d2 → d1 = d2.
Proof. destruct d1, d2. cbn. by intros -> -> -> -> -> -> -> -> -> -> ->. Qed.

Lemma decode_record_decl_commute d decl r :
  rec_type_of decl = TYPE_STATE_DECL → rec_type_of r ≠ TYPE_STATE_DECL →
  decode_record (decode_record d decl) r = decode_record (decode_record d r) decl.
Proof.
  destruct decl as [[[[ty s] flags] out] x], r as [[[[ty' a] b] c] e].
  unfold rec_type_of. cbn [fst snd]. intros -> Hne. unfold decode_record.
  change (TYPE_STATE_DECL =? TYPE_STATE_DECL) with true. cbn iota.
  destruct (Z.eqb_spec ty' TYPE_STATE_DECL) as [| _]; [done |].
  destruct (ty' =? TYPE_DFA_TRANSITION).
  { apply decoder_eq; cbn; try done; destruct (out =? 0); try done; set_solver. }
  destruct (ty' =? TYPE_MEALY_TRANSITION).
  { apply decoder_eq; cbn; try done; destruct (out =? 0); try done; set_solver. }
  destruct (ty' =? TYPE_NFA_MULTI); [| done].
  apply decoder_eq; cbn; try done; destruct (out =? 0); try done; set_solver.
Qed.

Lemma decode_foldl_decl_commute ts d decl :
  rec_type_of decl = TYPE_STATE_DECL →
  Forall (λ r, rec_type_of r ≠ TYPE_STATE_DECL) ts →
  foldl decode_record (decode_record d decl) ts
  = decode_record (foldl decode_record d ts) decl.
Proof.
  intros Hdecl Hts. revert d. induction Hts as [| r ts Hr _ IH]; intros d; [done |].
  cbn [foldl]. rewrite decode_record_decl_commute by done. apply IH.
Qed.

(** X26.  The decoder does not care where a state declaration stands
    among the other records: moving it behind any run of transition
    records, or of records of unknown type, gives the same result. *)
Theorem declaration_position_irrelevant rs1 decl ts rs2 labels :
  rec_type_of decl = TYPE_STATE_DECL →
  Forall (λ r, rec_type_of r ≠ TYPE_STATE_DECL) ts →
  Forall tuple_in_range (rs1 ++ decl :: ts ++ rs2) →
  hex_to_fsm (format_tuple <$> (rs1 ++ decl :: ts ++ rs2)) labels
  = hex_to_fsm (format_tuple <$> (rs1 ++ ts ++ decl :: rs2)) labels.
Proof.
  intros Hdecl Hts Hrange.
  assert (Forall tuple_in_range (rs1 ++ ts ++ decl :: rs2)) as Hrange'.
  { revert Hrange. rewrite !Forall_app, !Forall_cons, !Forall_app. tauto. }
  unfold hex_to_fsm. destruct (load_tables labels) as [tables | e]; [| done]. cbn.
  rewrite (decode_records_parsed _ _ _ (for_each_parse_format _ Hrange)).
  rewrite (decode_records_parsed _ _ _ (for_each_parse_format _ Hrange')).
  do 2 f_equal. rewrite !foldl_app. cbn [foldl]. rewrite !foldl_app. cbn [foldl].
  f_equal. by apply decode_foldl_decl_commute.
Qed.

Lemma declaration_position_irrelevant_witness :
  hex_to_fsm (format_tuple <$> ([] ++ (2, 1, 3, 0, 0) :: [(0, 0, 0, 1, 0); (3, 1, 0, 0, 1)]
                                  ++ [(3, 1, 0, 1, 0)])) None
  = hex_to_fsm (format_tuple <$> ([] ++ [(0, 0, 0, 1, 0); (3, 1, 0, 0, 1)]
                                    ++ (2, 1, 3, 0, 0) :: [(3, 1, 0, 1, 0)])) None.
Proof.
  apply declaration_position_irrelevant.
  - reflexivity.
  - by repeat constructor.
  - repeat (apply Forall_cons_2 || apply Forall_nil_2);
      unfold tuple_in_range, in_range; cbn; lia.
Defined.

Lemma dict_set_idem k v d : dict_set k v (dict_set k v d) = dict_set k v d.
Proof.
  induction d as [| [k' v'] d IH]; cbn.
  - by rewrite Z.eqb_refl.
  - destruct (Z.eqb_spec k' k) as [-> | Hne]; cbn.
    + by rewrite Z.eqb_refl.
    + destruct (Z.eqb_spec k' k); [done |]. by rewrite IH.
Qed.

Lemma decode_record_decl_idem d decl :
  rec_type_of decl = TYPE_STATE_DECL →
  decode_record (decode_record d decl) decl = decode_record d decl.
Proof.
  destruct decl as [[[[ty s] flags] out] x]. unfold rec_type_of. cbn [fst snd].
  intros ->. unfold decode_record.
  change (TYPE_STATE_DECL =? TYPE_STATE_DECL) with true. cbn iota.
  apply decoder_eq; cbn; try done.
  - set_solver.
  - destruct (out =? 0); [done | set_solver].
  - by destruct (out =? 0).
  - by destruct (Z.land flags 1 =? 0).
  - destruct (Z.land flags 2 =? 0); [done | set_solver].
  - destruct (out =? 0); [done |]. apply dict_set_idem.
Qed.

(** X27.  Declaring a state again changes nothing: a state declaration
    repeated behind a run of records that are no state declarations can be
    dropped without changing the result of the decoder. *)
Theorem repeated_declaration_redundant rs1 decl ts rs2 labels :
  rec_type_of decl = TYPE_STATE_DECL →
  Forall (λ r, rec_type_of r ≠ TYPE_STATE_DECL) ts →
  Forall tuple_in_range (rs1 ++ decl :: ts ++ rs2) →
  hex_to_fsm (format_tuple <$> (rs1 ++ decl :: ts ++ decl :: rs2)) labels
  = hex_to_fsm (format_tuple <$> (rs1 ++ decl :: ts ++ rs2)) labels.
Proof.
  intros Hdecl Hts Hrange.
  assert (Forall tuple_in_range (rs1 ++ decl :: ts ++ decl :: rs2)) as Hrange'.
  { revert Hrange. rewrite !Forall_app, !Forall_cons, !Forall_app, !Forall_cons. tauto. }
  unfold hex_to_fsm. destruct (load_tables labels) as [tables | e]; [| done]. cbn.
  rewrite (decode_records_parsed _ _ _ (for_each_parse_format _ Hrange)).
  rewrite (decode_records_parsed _ _ _ (for_each_parse_format _ Hrange')).
  do 2 f_equal. rewrite !foldl_app. cbn [foldl]. rewrite !foldl_app. cbn [foldl].
  f_equal. rewrite decode_foldl_decl_commute by done.
  by rewrite decode_record_decl_idem.
Qed.

Lemma repeated_declaration_redundant_witness :
  hex_to_fsm (format_tuple <$> ([] ++ (2, 1, 3, 2, 0) :: [(0, 0, 0, 1, 0)]
                                  ++ (2, 1, 3, 2, 0) :: [(3, 1, 0, 1, 0)])) None
  = hex_to_fsm (format_tuple <$> ([] ++ (2, 1, 3, 2, 0) :: [(0, 0, 0, 1, 0)]
                                    ++ [(3, 1, 0, 1, 0)])) None.
Proof.
  apply repeated_declaration_redundant.
  - reflexivity.
  - by repeat constructor.
  - repeat (apply Forall_cons_2 || apply Forall_nil_2);
      unfold tuple_in_range, in_range; cbn; lia.
Defined.

(** X28.  Rewriting a hex text loses nothing: whatever the text, its
    comments and its layout, the records found in it, written again in rows
    of any positive width, are the records found in the new text. *)
Theorem hex_text_normalisation text width :
  0 < width →
  ∃ text', format_hex_output (parse_hex_input text) width = Ok text'
         ∧ parse_hex_input text' = parse_hex_input text.
Proof.
  intros Hw. destruct (parse_hex_input_tuples text) as (rs & Hrs & ->).
  destruct (hex_text_read_back rs width Hrs Hw) as (text' & Htext & Hread & _).
  by exists text'.
Qed.

Lemma hex_text_normalisation_witness :
  ∃ text', format_hex_output
             (parse_hex_input ("00ab" +:+ String newline
                                 ("# type" +:+ String newline "cdEF:0002 0003:0004 x"))) 4
           = Ok text'
         ∧ parse_hex_input text'
           = parse_hex_input ("00ab" +:+ String newline
                                ("# type" +:+ String newline "cdEF:0002 0003:0004 x")).
Proof. apply hex_text_normalisation. lia. Defined.

(** ** Detecting the format *)

Lemma rstrip_solid m rest : ends_solid m → rstrip (m +:+ rest) = m +:+ rstrip rest.
Proof.
  intros (m' & c & -> & Hc). induction m' as [| a m' IH].
  - change (rstrip (String c rest) = String c (rstrip rest)). cbn [rstrip].
    destruct (rstrip rest); [by rewrite Hc | done].
  - rewrite !string_app_cons. cbn [rstrip]. rewrite IH.
    by destruct m'.
Qed.

Lemma lstrip_suffix pre s c s' :
  s = String c s' → is_space c = false → ∃ pre', lstrip (pre +:+ s) = pre' +:+ s.
Proof.
  intros -> Hc. induction pre as [| a pre IH].
  - exists "". change (lstrip (String c s') = String c s'). cbn. by rewrite Hc.
  - rewrite string_app_cons. cbn [lstrip]. destruct (is_space a); [exact IH |].
    by exists (String a pre).
Qed.

Lemma lstrip_split s : ∃ ws, s = ws +:+ lstrip s ∧ string_all is_space ws = true.
Proof.
  induction s as [| c s (ws & Hs & Hws)]; [by exists "" |].
  cbn [lstrip]. destruct (is_space c) eqn:Hc; [| by exists ""].
  exists (String c ws). rewrite string_app_cons, <- Hs. split; [done |].
  cbn. by rewrite Hc.
Qed.

Lemma lstrip_spaces ws s c s' :
  string_all is_space ws = true → s = String c s' → is_space c = false →
  lstrip (ws +:+ s) = s.
Proof.
  intros Hws -> Hc. induction ws as [| a ws IH].
  - change (lstrip (String c s') = String c s'). cbn. by rewrite Hc.
  - cbn in Hws. apply andb_true_iff in Hws as [Ha Hws].
    rewrite string_app_cons. cbn [lstrip]. rewrite Ha. by apply IH.
Qed.

Lemma hex_group_app c3 c2 c1 c0 rest :
  is_hex_char c3 → is_hex_char c2 → is_hex_char c1 → is_hex_char c0 →
  hex_group (String c3 (String c2 (String c1 (String c0 rest))))
  = Some (String c3 (String c2 (String c1 (String c0 ""))), rest).
Proof.
  intros [d3 H3] [d2 H2] [d1 H1] [d0 H0]. unfold hex_group, hex_class.
  by rewrite H3, H2, H1, H0.
Qed.

Lemma string_app_nil_l (s : string) : "" +:+ s = s.
Proof. reflexivity. Qed.

(** A match of the head pattern is a prefix that ends with a hex digit,
    and it matches whatever follows it. *)
Lemma match_head_prefix s :
  match_head s = true →
  ∃ m rest, s = m +:+ rest ∧ ends_solid m ∧ ∀ rest', match_head (m +:+ rest') = true.
Proof.
  unfold match_head. intros Hm.
  destruct (hex_group s) as [[g0 s0] |] eqn:E0; [| done]. cbn in Hm.
  destruct (hex_group (lstrip s0)) as [[g1 s1] |] eqn:E1; [| done]. cbn in Hm.
  destruct (colon s1) as [s1' |] eqn:C1; [| done]. cbn in Hm.
  destruct (hex_group s1') as [[g2 s2] |] eqn:E2; [| done].
  apply hex_group_inv in E0
    as (Hs & a3 & a2 & a1 & a0 & ? & ? & ? & ? & Hg0 & A3 & A2 & A1 & A0).
  apply hex_group_inv in E1
    as (Hs0 & b3 & b2 & b1 & b0 & ? & ? & ? & ? & Hg1 & B3 & B2 & B1 & B0).
  apply hex_group_inv in E2
    as (Hs1 & c3 & c2 & c1 & c0 & ? & ? & ? & ? & Hg2 & C3 & C2 & C1' & C0).
  destruct s1 as [| k s1]; [done |]. cbn in C1.
  destruct (Ascii.eqb_spec k ":") as [-> | _]; [| done]. injection C1 as Hs1'.
  subst g0 g1 g2 s s1 s1'.
  destruct (lstrip_split s0) as (ws & Hws & Hspaces). rewrite Hs0 in Hws.
  set (g0 := String a3 (String a2 (String a1 (String a0 "")))).
  set (g1 := String b3 (String b2 (String b1 (String b0 "")))).
  set (tl := String c3 (String c2 (String c1 (String c0 "")))).
  exists (g0 +:+ ws +:+ g1 +:+ String ":" tl), s2. split; [| split].
  - rewrite Hws. unfold g0, g1, tl.
    by repeat (rewrite string_app_assoc || rewrite string_app_cons).
  - exists (g0 +:+ ws +:+ g1 +:+ String ":" (String c3 (String c2 (String c1 "")))), c0.
    split.
    + unfold tl. by repeat (rewrite string_app_assoc || rewrite string_app_cons).
    + by apply (hex_value_not_space c0 _ C0).
  - intros rest'. unfold match_head, g0, g1, tl.
    repeat (rewrite string_app_assoc || rewrite string_app_cons
            || rewrite string_app_nil_l).
    rewrite (hex_group_app a3 a2 a1 a0) by by eexists. cbn.
    rewrite (lstrip_spaces ws _ b3 _ Hspaces eq_refl (hex_value_not_space _ _ B3)).
    rewrite (hex_group_app b3 b2 b1 b0) by by eexists. cbn.
    unfold hex_class. by rewrite C3, C2, C1', C0.
Qed.

Lemma match_record_head s g rest : match_record s = Some (g, rest) → match_head s = true.
Proof.
  unfold match_record, match_head. intros Hm.
  destruct (hex_group s) as [[g0 s0] |]; [| done]. cbn in Hm |- *.
  destruct (hex_group (lstrip s0)) as [[g1 s1] |]; [| done]. cbn in Hm |- *.
  destruct (colon s1) as [s1' |]; [| done]. cbn in Hm |- *.
  by destruct (hex_group s1') as [[g2 s2] |].
Qed.

Lemma re_search_app pre s : re_search s = true → re_search (pre +:+ s) = true.
Proof.
  intros Hs. induction pre as [| a pre IH]; [done |].
  rewrite string_app_cons. cbn [re_search]. rewrite IH. apply orb_true_r.
Qed.

Lemma finditer_position fuel s :
  finditer fuel s ≠ [] →
  ∃ pre s' g rest, s = pre +:+ s' ∧ match_record s' = Some (g, rest).
Proof.
  revert s. induction fuel as [| k IH]; intros s; [done |]. cbn [finditer].
  destruct (match_record s) as [[g rest] |] eqn:Hm.
  - intros _. by exists "", s, g, rest.
  - destruct s as [| c s]; [done |]. intros (pre & s' & g & rest & -> & Hs')%IH.
    by exists (String c pre), s', g, rest.
Qed.

(** X29.  A text without extension in which [parse_hex_input] finds a
    record is taken for a hex text by the visualiser, unless it holds a [#]
    or starts, white space apart, with a brace or a bracket. *)
Theorem detect_format_hex suffix text :
  suffix ≠ ".fsm" → suffix ≠ ".json" →
  string_all (not_char "#") text = true →
  startswith "{" (strip text) = false → startswith "[" (strip text) = false →
  parse_hex_input text ≠ [] →
  detect_format suffix (Some text) = "hex".
Proof.
  intros Hfsm Hjson Hplain Hbrace Hbracket Hrecords. unfold detect_format.
  destruct (String.eqb_spec suffix ".fsm"); [done |].
  destruct (String.eqb_spec suffix ".json"); [done |].
  destruct (String.eqb suffix ".hex"); [done |].
  rewrite parse_hex_input_plain in Hrecords by done.
  assert (finditer (S (String.length text)) text ≠ []) as Hfind.
  { intros Hnil. apply Hrecords. unfold scan. by rewrite Hnil. }
  apply finditer_position in Hfind as (pre & s' & g & rest & -> & Hm).
  apply match_record_head, match_head_prefix in Hm as (m & rest' & -> & Hsolid & Hany).
  destruct (pre +:+ m +:+ rest') as [| c0 t0] eqn:Htext.
  { destruct Hsolid as (m' & c & -> & _). destruct pre, m'; discriminate. }
  rewrite <- Htext in *. rewrite Hbrace, Hbracket. cbn [orb].
  assert (re_search (strip (pre +:+ m +:+ rest')) = true) as ->; [| done].
  unfold strip.
  assert (∃ c s', m +:+ rest' = String c s' ∧ is_space c = false) as (c & s'' & Hs & Hc).
  { pose proof (Hany rest') as Hh. unfold match_head in Hh.
    destruct (hex_group (m +:+ rest')) as [[g0 s0] |] eqn:E0; [| done].
    apply hex_group_inv in E0 as (-> & a3 & a2 & a1 & a0 & ? & ? & ? & ? & -> & A3 & _).
    eexists _, _. split; [by rewrite string_app_cons |].
    by apply (hex_value_not_space _ _ A3). }
  destruct (lstrip_suffix pre _ c s'' Hs Hc) as (pre' & ->).
  rewrite <- !string_app_assoc.
  rewrite rstrip_solid.
  - rewrite string_app_assoc. apply re_search_app.
    destruct (m +:+ rstrip rest') eqn:Hm'; cbn [re_search];
      rewrite <- Hm', Hany; done.
  - destruct Hsolid as (m' & k & -> & Hk). exists (pre' +:+ m'), k.
    split; [by rewrite string_app_assoc | done].
Qed.

Lemma detect_format_hex_witness :
  detect_format "" (Some ("  0002 0000:0001 0000:0000" +:+ String newline "")) = "hex".
Proof. apply detect_format_hex; try done. Defined.

(** ** From hex to JSON *)

Lemma output_fields_empty r :
  (rec_type_of r =? TYPE_MEALY_TRANSITION) = false →
  (rec_type_of r =? TYPE_STATE_DECL) && negb (field3_of r =? 0) = false →
  output_fields r = ∅.
Proof.
  intros Hm Hs. unfold output_fields. rewrite Hm.
  destruct (rec_type_of r =? TYPE_STATE_DECL); [| done].
  cbn in Hs. apply negb_false_iff in Hs. by rewrite Hs.
Qed.

Lemma no_outputs_decoded rs :
  saw_mealy rs = false → saw_state_output rs = false →
  output_ids (foldl decode_record decoder_init rs) = ∅.
Proof.
  intros Hm Hs. rewrite output_ids_foldl.
  change (output_ids decoder_init) with (∅ : gset Z).
  assert (⋃ (output_fields <$> rs) = (∅ : gset Z)) as ->; [| set_solver].
  unfold saw_mealy, saw_state_output in *.
  induction rs as [| r rs IH]; [done |].
  cbn in Hm, Hs |- *.
  apply orb_false_iff in Hm as [Hm1 Hm2]. apply orb_false_iff in Hs as [Hs1 Hs2].
  rewrite output_fields_empty, IH by done. set_solver.
Qed.

(** X30.  A model decoded without a label table survives the way through
    JSON: when its tables are within the capacity limits, the dictionary
    [fsm_to_json] writes for it is read back by [json_to_fsm] as the same
    model. *)
Theorem decoded_model_json_round_trip records m :
  hex_to_fsm records None = Ok m →
  within_capacity m →
  json_to_fsm (fsm_to_json m) = Ok m.
Proof.
  intros (tables & rs & Htables & _ & ->)%hex_to_fsm_inv Hcap.
  injection Htables as <-.
  set (d := foldl decode_record decoder_init rs) in *.
  assert (fsm_type (decoded_fsm no_tables d) = infer_type d (final_transitions d))
    as Hty by reflexivity.
  assert (state_outputs (decoded_fsm no_tables d)
          = if String.eqb (fsm_type (decoded_fsm no_tables d)) "moore"
            then state_outputs (decoded_fsm no_tables d) else ∅) as Hso.
  { unfold decoded_fsm at 1 2 3. cbn [state_outputs fsm_type].
    by destruct (String.eqb _ "moore"). }
  apply json_read_back; [done | | |].
  - rewrite Hty. unfold infer_type.
    destruct (has_mealy d); [done |]. destruct (has_moore_outputs d); [done |].
    by destruct (has_nfa_multi d || has_none_input (final_transitions d)).
  - intros Hne. rewrite Hso.
    by destruct (String.eqb_spec (fsm_type (decoded_fsm no_tables d)) "moore").
  - rewrite Hty. unfold infer_type. intros Hmoore Hmealy.
    destruct (has_mealy d) eqn:Hm; [done |].
    destruct (has_moore_outputs d) eqn:Hs; [done |].
    unfold d in Hm, Hs. rewrite has_mealy_foldl in Hm.
    rewrite has_moore_outputs_foldl in Hs. cbn in Hm, Hs.
    unfold decoded_fsm. cbn [output_alphabet]. fold d.
    unfold d. rewrite no_outputs_decoded by done.
    unfold sorted. by rewrite elements_empty.
Qed.

Lemma decoded_model_json_round_trip_witness :
  ∃ m, hex_to_fsm mixed_stream None = Ok m ∧ json_to_fsm (fsm_to_json m) = Ok m.
Proof.
  destruct (hex_to_fsm mixed_stream None) as [m | e] eqn:Hm; [| by vm_compute in Hm].
  exists m. split; [done |].
  apply (decoded_model_json_round_trip mixed_stream m Hm).
  revert Hm. vm_compute. intros [= <-]. vm_compute. by split_and!.
Defined.
